(** * pkg/ans: client of the SAP Alert Notification Service

    A shallow embedding of [pkg/ans/ans.go] and of the parts of the Go
    libraries it calls ([encoding/json], [unicode/utf8], [fmt],
    [github.com/pkg/errors], [net/http], [logrus]), followed by the
    properties of the package.

    Go strings and byte slices are byte sequences: both are modelled as
    [string], whose characters are the 256 byte values.  Go's [int] and
    [int64] are modelled as [Z] with their range written out where the
    code depends on it. *)

From Stdlib Require Import ZArith NArith Ascii String List Bool Lia DecimalString DecimalZ.
From stdpp Require Import base option gmap strings list.

Local Open Scope string_scope.
Local Open Scope Z_scope.
Local Set Warnings "-register-all".
#[local] Arguments String.append !_ _ : simpl nomatch.

(** ** Levels of [github.com/sirupsen/logrus]

    [type Level uint32], with the constants declared by [iota] in the order
    Panic, Fatal, Error, Warn, Info, Debug, Trace. *)
Module logrus.
Definition Level : Type := Z.
Definition PanicLevel : Level := 0.
Definition FatalLevel : Level := 1.
Definition ErrorLevel : Level := 2.
Definition WarnLevel : Level := 3.
Definition InfoLevel : Level := 4.
Definition DebugLevel : Level := 5.
Definition TraceLevel : Level := 6.
(** The values a [uint32] can hold. *)
Definition is_uint32 (l : Level) : Prop := 0 <= l < 2 ^ 32.
End logrus.

(** ** Constants of the package *)
Definition authHeaderKey : string := "Authorization".

Definition infoSeverity : string := "INFO".
Definition noticeSeverity : string := "NOTICE".
Definition warningSeverity : string := "WARNING".
Definition errorSeverity : string := "ERROR".
Definition fatalSeverity : string := "FATAL".

Definition exceptionCategory : string := "EXCEPTION".
Definition alertCategory : string := "ALERT".
Definition notificationCategory : string := "NOTIFICATION".

(** ** [TranslateLogrusLogLevel]

    The [switch] of the function is kept as the list of its [case] arms, in
    source order; [go_switch] runs them the way Go does: the first arm whose
    constant equals the tag is taken, and with no such arm the values
    assigned before the [switch] are returned. *)
Definition switch_arms : list (logrus.Level * (string * string)) :=
  [ (logrus.InfoLevel, (infoSeverity, notificationCategory));
    (logrus.DebugLevel, (infoSeverity, notificationCategory));
    (logrus.WarnLevel, (warningSeverity, alertCategory));
    (logrus.ErrorLevel, (errorSeverity, exceptionCategory));
    (logrus.FatalLevel, (fatalSeverity, exceptionCategory));
    (logrus.PanicLevel, (fatalSeverity, exceptionCategory)) ].

Fixpoint go_switch {A : Type} (arms : list (Z * A)) (tag : Z) (fallthrough : A) : A :=
  match arms with
  | [] => fallthrough
  | (c, body) :: arms' => if tag =? c then body else go_switch arms' tag fallthrough
  end.

Definition TranslateLogrusLogLevel (level : logrus.Level) : string * string :=
  let severity := infoSeverity in
  let category := notificationCategory in
  go_switch switch_arms level (severity, category).

(** A level has an arm of its own in the [switch]. *)
Definition explicitly_listed (level : logrus.Level) : Prop :=
  In level (map fst switch_arms).

(** ** Bytes

    A byte is read as its value in [0, 256). *)
Definition byte (c : ascii) : Z := Z.of_N (N_of_ascii c).
Definition chr (b : Z) : ascii := ascii_of_N (Z.to_N (b mod 256)).

Definition dquote : ascii := chr 0x22.
Definition backslash : ascii := chr 0x5C.

(** [s[n:]] for [n <= len(s)]. *)
Fixpoint string_drop (n : nat) (s : string) : string :=
  match n, s with
  | O, _ => s
  | S n', String _ s' => string_drop n' s'
  | S _, EmptyString => EmptyString
  end.

(** [strings.Contains(s, substr)]. *)
Definition Contains (s substr : string) : Prop :=
  exists before after, s = before +:+ substr +:+ after.

(** ** Package [unicode/utf8] *)
Module utf8.
Definition RuneError : Z := 0xFFFD.
Definition RuneSelf : Z := 0x80.
Definition MaxRune : Z := 0x10FFFF.
Definition surrogateMin : Z := 0xD800.
Definition surrogateMax : Z := 0xDFFF.
Definition rune1Max : Z := 0x7F.
Definition rune2Max : Z := 0x7FF.
Definition rune3Max : Z := 0xFFFF.
Definition t2 : Z := 0xC0.
Definition t3 : Z := 0xE0.
Definition t4 : Z := 0xF0.
Definition tx : Z := 0x80.
Definition maskx : Z := 0x3F.
Definition mask2 : Z := 0x1F.
Definition mask3 : Z := 0x0F.
Definition mask4 : Z := 0x07.
Definition locb : Z := 0x80.
Definition hicb : Z := 0xBF.

(** An entry of the table [first]: what the first byte of a sequence says
    about it.  [Lead size lo hi] stands for the entries [s1] to [s7], with
    the row of [acceptRanges] they select. *)
Inductive firstInfo : Type :=
| AsciiByte
| InvalidLead
| Lead (size : nat) (lo hi : Z).

Definition first (s0 : Z) : firstInfo :=
  if s0 <? 0x80 then AsciiByte
  else if s0 <? 0xC2 then InvalidLead
  else if s0 <? 0xE0 then Lead 2 locb hicb
  else if s0 =? 0xE0 then Lead 3 0xA0 hicb
  else if s0 <? 0xED then Lead 3 locb hicb
  else if s0 =? 0xED then Lead 3 locb 0x9F
  else if s0 <? 0xF0 then Lead 3 locb hicb
  else if s0 =? 0xF0 then Lead 4 0x90 hicb
  else if s0 <? 0xF4 then Lead 4 locb hicb
  else if s0 =? 0xF4 then Lead 4 locb 0x8F
  else InvalidLead.

(** [utf8.DecodeRuneInString]: the rune at the head of [s] and its width in
    bytes; [(RuneError, 1)] for an encoding that is not valid, and
    [(RuneError, 0)] for the empty string.  A sequence cut short by the end
    of the string ([n < sz] in the source) is not valid. *)
Definition DecodeRuneInString (s : string) : Z * nat :=
  match s with
  | EmptyString => (RuneError, 0%nat)
  | String c0 r0 =>
    let s0 := byte c0 in
    match first s0 with
    | AsciiByte => (s0, 1%nat)
    | InvalidLead => (RuneError, 1%nat)
    | Lead sz lo hi =>
      match r0 with
      | EmptyString => (RuneError, 1%nat)
      | String c1 r1 =>
        let s1 := byte c1 in
        if (s1 <? lo) || (hi <? s1) then (RuneError, 1%nat)
        else if (sz <=? 2)%nat then
          (Z.lor (Z.shiftl (Z.land s0 mask2) 6) (Z.land s1 maskx), 2%nat)
        else
          match r1 with
          | EmptyString => (RuneError, 1%nat)
          | String c2 r2 =>
            let s2 := byte c2 in
            if (s2 <? locb) || (hicb <? s2) then (RuneError, 1%nat)
            else if (sz <=? 3)%nat then
              (Z.lor (Z.lor (Z.shiftl (Z.land s0 mask3) 12)
                            (Z.shiftl (Z.land s1 maskx) 6))
                     (Z.land s2 maskx), 3%nat)
            else
              match r2 with
              | EmptyString => (RuneError, 1%nat)
              | String c3 _ =>
                let s3 := byte c3 in
                if (s3 <? locb) || (hicb <? s3) then (RuneError, 1%nat)
                else
                  (Z.lor (Z.lor (Z.lor (Z.shiftl (Z.land s0 mask4) 18)
                                       (Z.shiftl (Z.land s1 maskx) 12))
                                (Z.shiftl (Z.land s2 maskx) 6))
                         (Z.land s3 maskx), 4%nat)
              end
          end
      end
    end
  end.

(** [utf8.AppendRune] onto the empty slice.  [byte(x)] keeps the low eight
    bits, which [chr] does. *)
Definition AppendRune (r : Z) : string :=
  if (0 <=? r) && (r <=? rune1Max) then String (chr r) ""
  else if (0 <=? r) && (r <=? rune2Max) then
    String (chr (Z.lor t2 (Z.shiftr r 6)))
      (String (chr (Z.lor tx (Z.land r maskx))) "")
  else if (0 <=? r) && ((r <? surrogateMin) || ((surrogateMax <? r) && (r <=? rune3Max))) then
    String (chr (Z.lor t3 (Z.shiftr r 12)))
      (String (chr (Z.lor tx (Z.land (Z.shiftr r 6) maskx)))
        (String (chr (Z.lor tx (Z.land r maskx))) ""))
  else if (rune3Max <? r) && (r <=? MaxRune) then
    String (chr (Z.lor t4 (Z.shiftr r 18)))
      (String (chr (Z.lor tx (Z.land (Z.shiftr r 12) maskx)))
        (String (chr (Z.lor tx (Z.land (Z.shiftr r 6) maskx)))
          (String (chr (Z.lor tx (Z.land r maskx))) "")))
  else String (chr 0xEF) (String (chr 0xBF) (String (chr 0xBD) "")).

(** [utf8.ValidString]. *)
Fixpoint ValidString (s : string) : bool :=
  match s with
  | EmptyString => true
  | String c0 r0 =>
    match DecodeRuneInString s with
    | (_, 2%nat) =>
      match r0 with String _ r1 => ValidString r1 | _ => false end
    | (_, 3%nat) =>
      match r0 with String _ (String _ r2) => ValidString r2 | _ => false end
    | (_, 4%nat) =>
      match r0 with String _ (String _ (String _ r3)) => ValidString r3 | _ => false end
    | (r, _) => negb (r =? RuneError) && ValidString r0
    end
  end.
End utf8.

(** ** Error values

    Go's [error] interface holds values of several types; the ones the
    package meets are the constructors below.  A [nil] error is [None] of
    [option error].  Errors made by collaborators (the token provider, the
    HTTP transport, the body reader) are values of this type of any shape.
    Call stacks recorded by [github.com/pkg/errors] are not kept: [withStack]
    only marks where one is attached. *)
Inductive error : Type :=
| errorString (s : string)
| withMessage (cause : error) (msg : string)
| withStack (err : error)
| SyntaxError
| UnmarshalTypeError (Value : string) (Type_ : string).

(** The [Error()] method.  The wording of the two [encoding/json] errors is
    abridged: their offsets and field paths are not modelled. *)
Fixpoint Error (err : error) : string :=
  match err with
  | errorString s => s
  | withMessage cause msg => msg +:+ ": " +:+ Error cause
  | withStack e => Error e
  | SyntaxError => "invalid character in JSON input"
  | UnmarshalTypeError v t => "json: cannot unmarshal " +:+ v +:+ " into Go value of type " +:+ t
  end.

(** ** Package [strconv]: integers in base ten *)
Module strconv.
Definition FormatInt (i : Z) : string := NilZero.string_of_int (Z.to_int i).

Definition digit (c : ascii) : option Z :=
  let b := byte c in
  if (0x30 <=? b) && (b <=? 0x39) then Some (b - 0x30) else None.

Fixpoint parseDigits (acc : Z) (s : string) : option Z :=
  match s with
  | EmptyString => Some acc
  | String c s' =>
    match digit c with
    | Some d => parseDigits (acc * 10 + d) s'
    | None => None
    end
  end.

(** [strconv.ParseInt(s, 10, 64)]; [None] stands for its syntax and range
    errors. *)
Definition ParseInt (s : string) : option Z :=
  let parse (neg : bool) (ds : string) : option Z :=
    match ds with
    | EmptyString => None
    | _ =>
      match parseDigits 0 ds with
      | Some n =>
        let v := if neg then - n else n in
        if (- 2 ^ 63 <=? v) && (v <=? 2 ^ 63 - 1) then Some v else None
      | None => None
      end
    end in
  match s with
  | EmptyString => None
  | String c s' =>
    if byte c =? 0x2D then parse true s'
    else if byte c =? 0x2B then parse false s'
    else parse false s
  end.
End strconv.

(** ** Package [encoding/json]: the text layer *)
Module json.

(** A JSON document.  A number keeps its literal; an object keeps its
    members in the order of the text, duplicates included. *)
Inductive value : Type :=
| JNull
| JBool (b : bool)
| JNumber (lit : string)
| JString (s : string)
| JArray (elems : list value)
| JObject (members : list (string * value)).

Definition maxNestingDepth : Z := 10000.

Definition hex (d : Z) : ascii :=
  if d <? 10 then chr (0x30 + d) else chr (0x61 + (d - 10)).

(** [htmlSafeSet]: the ASCII bytes written as they are. *)
Definition htmlSafeSet (b : Z) : bool :=
  (0x20 <=? b) && (b <? 0x80) &&
  negb ((b =? 0x22) || (b =? 0x26) || (b =? 0x3C) || (b =? 0x3E) || (b =? 0x5C)).

(** What [appendString] writes for an ASCII byte outside [htmlSafeSet]. *)
Definition escapeByte (b : Z) : string :=
  if (b =? 0x5C) || (b =? 0x22) then String backslash (String (chr b) "")
  else if b =? 0x08 then String backslash "b"
  else if b =? 0x0C then String backslash "f"
  else if b =? 0x0A then String backslash "n"
  else if b =? 0x0D then String backslash "r"
  else if b =? 0x09 then String backslash "t"
  else
    String backslash
      (String "u" (String "0" (String "0"
        (String (hex (Z.shiftr b 4)) (String (hex (Z.land b 0xF)) ""))))).

(** The loop of [appendString] with [escapeHTML] set, as [Marshal] runs it:
    the text between the quotes.  (Releases before Go 1.22 wrote backspace
    and form feed as [\u0008] and [\u000c]; both spellings decode to the
    same byte.) *)
Fixpoint appendStringBody (src : string) : string :=
  match src with
  | EmptyString => ""
  | String c r0 =>
    let b := byte c in
    if b <? utf8.RuneSelf then
      (if htmlSafeSet b then String c "" else escapeByte b) +:+ appendStringBody r0
    else
      let replacement :=
        String backslash "ufffd" +:+ appendStringBody r0 in
      let emit (r : Z) (raw : string) (rest : string) : string :=
        if (r =? 0x2028) || (r =? 0x2029) then
          String backslash (String "u" (String "2" (String "0" (String "2"
            (String (hex (Z.land r 0xF)) ""))))) +:+ rest
        else raw +:+ rest in
      match utf8.DecodeRuneInString src with
      | (r, 2%nat) =>
        match r0 with
        | String c1 r1 =>
          emit r (String c (String c1 "")) (appendStringBody r1)
        | _ => replacement
        end
      | (r, 3%nat) =>
        match r0 with
        | String c1 (String c2 r2) =>
          emit r (String c (String c1 (String c2 ""))) (appendStringBody r2)
        | _ => replacement
        end
      | (r, 4%nat) =>
        match r0 with
        | String c1 (String c2 (String c3 r3)) =>
          emit r (String c (String c1 (String c2 (String c3 ""))))
            (appendStringBody r3)
        | _ => replacement
        end
      | (_, _) => replacement
      end
  end.

Definition appendString (src : string) : string :=
  String dquote (appendStringBody src +:+ String dquote "").

(** The compact text [Marshal] writes for a document. *)
Fixpoint render (v : value) : string :=
  match v with
  | JNull => "null"
  | JBool true => "true"
  | JBool false => "false"
  | JNumber lit => lit
  | JString s => appendString s
  | JArray elems =>
    "[" +:+
    (fix go (l : list value) : string :=
       match l with
       | [] => ""
       | x :: l' =>
         render x +:+ match l' with [] => "" | _ => "," +:+ go l' end
       end) elems +:+ "]"
  | JObject members =>
    "{" +:+
    (fix go (l : list (string * value)) : string :=
       match l with
       | [] => ""
       | (k, x) :: l' =>
         appendString k +:+ ":" +:+ render x +:+
         match l' with [] => "" | _ => "," +:+ go l' end
       end) members +:+ "}"
  end.

(** *** Reading *)

Definition isSpace (b : Z) : bool :=
  (b =? 0x20) || (b =? 0x09) || (b =? 0x0D) || (b =? 0x0A).

Fixpoint skipSpace (s : string) : string :=
  match s with
  | String c r => if isSpace (byte c) then skipSpace r else s
  | EmptyString => ""
  end.

Definition unhex (b : Z) : option Z :=
  if (0x30 <=? b) && (b <=? 0x39) then Some (b - 0x30)
  else if (0x61 <=? b) && (b <=? 0x66) then Some (b - 0x61 + 10)
  else if (0x41 <=? b) && (b <=? 0x46) then Some (b - 0x41 + 10)
  else None.

(** [getu4]: the rune of a [\uXXXX] at the head of [s], or -1. *)
Definition getu4 (s : string) : Z :=
  match s with
  | String e (String u (String h1 (String h2 (String h3 (String h4 _))))) =>
    if negb (byte e =? 0x5C) || negb (byte u =? 0x75) then -1
    else
      match unhex (byte h1), unhex (byte h2), unhex (byte h3), unhex (byte h4) with
      | Some d1, Some d2, Some d3, Some d4 =>
        ((d1 * 16 + d2) * 16 + d3) * 16 + d4
      | _, _, _, _ => -1
      end
  | _ => -1
  end.

(** Package [unicode/utf16]. *)
Definition surr1 : Z := 0xD800.
Definition surr2 : Z := 0xDC00.
Definition surr3 : Z := 0xE000.
Definition replacementChar : Z := 0xFFFD.

Definition IsSurrogate (r : Z) : bool := (surr1 <=? r) && (r <? surr3).

Definition utf16_DecodeRune (r1 r2 : Z) : Z :=
  if (surr1 <=? r1) && (r1 <? surr2) && (surr2 <=? r2) && (r2 <? surr3) then
    Z.lor (Z.shiftl (r1 - surr1) 10) (r2 - surr2) + 0x10000
  else replacementChar.

(** A string literal, read from just after its opening quote: the bytes it
    denotes and the text after its closing quote.  This is the scanner's
    check of the literal ([stateInString] and the escape states) together
    with [unquote]; [None] is a syntax error. *)
Fixpoint unquote (s : string) : option (string * string) :=
  let cons (out : string) (rest : option (string * string)) :=
    match rest with
    | Some (body, after) => Some (out +:+ body, after)
    | None => None
    end in
  match s with
  | EmptyString => None
  | String c r0 =>
    let b := byte c in
    if b =? 0x22 then Some ("", r0)
    else if b =? 0x5C then
      match r0 with
      | EmptyString => None
      | String e r1 =>
        let x := byte e in
        if (x =? 0x22) || (x =? 0x5C) || (x =? 0x2F) then cons (String e "") (unquote r1)
        else if x =? 0x62 then cons (String (chr 0x08) "") (unquote r1)
        else if x =? 0x66 then cons (String (chr 0x0C) "") (unquote r1)
        else if x =? 0x6E then cons (String (chr 0x0A) "") (unquote r1)
        else if x =? 0x72 then cons (String (chr 0x0D) "") (unquote r1)
        else if x =? 0x74 then cons (String (chr 0x09) "") (unquote r1)
        else if x =? 0x75 then
          let rr := getu4 s in
          if rr <? 0 then None
          else
            match r1 with
            | String _ (String _ (String _ (String _ r5))) =>
              if IsSurrogate rr then
                let dec := utf16_DecodeRune rr (getu4 r5) in
                if negb (dec =? replacementChar) then
                  match r5 with
                  | String _ (String _ (String _ (String _ (String _ (String _ r11))))) =>
                    cons (utf8.AppendRune dec) (unquote r11)
                  | _ => None
                  end
                else cons (utf8.AppendRune replacementChar) (unquote r5)
              else cons (utf8.AppendRune rr) (unquote r5)
            | _ => None
            end
        else None
      end
    else if b <? 0x20 then None
    else if b <? utf8.RuneSelf then cons (String c "") (unquote r0)
    else
      match utf8.DecodeRuneInString s with
      | (rr, 2%nat) =>
        match r0 with
        | String _ r1 => cons (utf8.AppendRune rr) (unquote r1)
        | _ => None
        end
      | (rr, 3%nat) =>
        match r0 with
        | String _ (String _ r2) => cons (utf8.AppendRune rr) (unquote r2)
        | _ => None
        end
      | (rr, 4%nat) =>
        match r0 with
        | String _ (String _ (String _ r3)) => cons (utf8.AppendRune rr) (unquote r3)
        | _ => None
        end
      | (rr, _) => cons (utf8.AppendRune rr) (unquote r0)
      end
  end.
Fixpoint scanDigits (s : string) : string * string :=
  match s with
  | String c r =>
    if (0x30 <=? byte c) && (byte c <=? 0x39) then
      let '(ds, rest) := scanDigits r in (String c ds, rest)
    else ("", s)
  | EmptyString => ("", "")
  end.

(** A number, by the scanner's states [stateNeg], [state0], [state1],
    [stateDot], [stateDot0], [stateE], [stateESign] and [stateE0]: its
    literal and the text after it. *)
Definition scanNumber (s : string) : option (string * string) :=
  let '(sign, s1) :=
    match s with
    | String c r => if byte c =? 0x2D then (String c "", r) else ("", s)
    | EmptyString => ("", s)
    end in
  match s1 with
  | EmptyString => None
  | String c r =>
    let intPart :=
      if byte c =? 0x30 then Some (String c "", r)
      else if (0x31 <=? byte c) && (byte c <=? 0x39) then
        let '(ds, rest) := scanDigits r in Some (String c ds, rest)
      else None in
    match intPart with
    | None => None
    | Some (ip, s2) =>
      let fracPart :=
        match s2 with
        | String d r2 =>
          if byte d =? 0x2E then
            match scanDigits r2 with
            | (EmptyString, _) => None
            | (ds, rest) => Some (String d ds, rest)
            end
          else Some ("", s2)
        | EmptyString => Some ("", s2)
        end in
      match fracPart with
      | None => None
      | Some (fp, s3) =>
        let expPart :=
          match s3 with
          | String e r3 =>
            if (byte e =? 0x65) || (byte e =? 0x45) then
              let '(esign, r4) :=
                match r3 with
                | String g r4 =>
                  if (byte g =? 0x2B) || (byte g =? 0x2D) then (String g "", r4)
                  else ("", r3)
                | EmptyString => ("", r3)
                end in
              match scanDigits r4 with
              | (EmptyString, _) => None
              | (ds, rest) => Some (String e (esign +:+ ds), rest)
              end
            else Some ("", s3)
          | EmptyString => Some ("", s3)
          end in
        match expPart with
        | None => None
        | Some (ep, s4) => Some (sign +:+ ip +:+ fp +:+ ep, s4)
        end
      end
    end
  end.

(** [s] without the prefix [lit], when it starts with it. *)
Fixpoint stripPrefix (lit s : string) : option string :=
  match lit, s with
  | EmptyString, _ => Some s
  | String a lit', String b s' =>
    if Ascii.eqb a b then stripPrefix lit' s' else None
  | String _ _, EmptyString => None
  end.

(** One value and the text after it.  [depth] counts the arrays and objects
    that are open; [fuel] bounds the recursion and is set from the length of
    the text by [parse]. *)
Fixpoint parseValue (fuel : nat) (depth : Z) (s : string) {struct fuel}
  : option (value * string) :=
  match fuel with
  | O => None
  | S fuel' =>
    match skipSpace s with
    | EmptyString => None
    | String c r as s' =>
      let b := byte c in
      if b =? 0x7B then
        if maxNestingDepth <=? depth then None
        else
          match skipSpace r with
          | String c' r' =>
            if byte c' =? 0x7D then Some (JObject [], r')
            else
              match parseMembers fuel' (depth + 1) r with
              | Some (ms, rest) => Some (JObject ms, rest)
              | None => None
              end
          | EmptyString => None
          end
      else if b =? 0x5B then
        if maxNestingDepth <=? depth then None
        else
          match skipSpace r with
          | String c' r' =>
            if byte c' =? 0x5D then Some (JArray [], r')
            else
              match parseElements fuel' (depth + 1) r with
              | Some (xs, rest) => Some (JArray xs, rest)
              | None => None
              end
          | EmptyString => None
          end
      else if b =? 0x22 then
        match unquote r with
        | Some (str, rest) => Some (JString str, rest)
        | None => None
        end
      else if b =? 0x74 then
        match stripPrefix "true" s' with
        | Some rest => Some (JBool true, rest)
        | None => None
        end
      else if b =? 0x66 then
        match stripPrefix "false" s' with
        | Some rest => Some (JBool false, rest)
        | None => None
        end
      else if b =? 0x6E then
        match stripPrefix "null" s' with
        | Some rest => Some (JNull, rest)
        | None => None
        end
      else
        match scanNumber s' with
        | Some (lit, rest) => Some (JNumber lit, rest)
        | None => None
        end
    end
  end

with parseMembers (fuel : nat) (depth : Z) (s : string) {struct fuel}
  : option (list (string * value) * string) :=
  match fuel with
  | O => None
  | S fuel' =>
    match skipSpace s with
    | String q r =>
      if byte q =? 0x22 then
        match unquote r with
        | Some (key, r1) =>
          match skipSpace r1 with
          | String colon r2 =>
            if byte colon =? 0x3A then
              match parseValue fuel' depth r2 with
              | Some (x, r3) =>
                match skipSpace r3 with
                | String d r4 =>
                  if byte d =? 0x2C then
                    match parseMembers fuel' depth r4 with
                    | Some (ms, rest) => Some ((key, x) :: ms, rest)
                    | None => None
                    end
                  else if byte d =? 0x7D then Some ([(key, x)], r4)
                  else None
                | EmptyString => None
                end
              | None => None
              end
            else None
          | EmptyString => None
          end
        | None => None
        end
      else None
    | EmptyString => None
    end
  end

with parseElements (fuel : nat) (depth : Z) (s : string) {struct fuel}
  : option (list value * string) :=
  match fuel with
  | O => None
  | S fuel' =>
    match parseValue fuel' depth s with
    | Some (x, r1) =>
      match skipSpace r1 with
      | String d r2 =>
        if byte d =? 0x2C then
          match parseElements fuel' depth r2 with
          | Some (xs, rest) => Some (x :: xs, rest)
          | None => None
          end
        else if byte d =? 0x5D then Some ([x], r2)
        else None
      | EmptyString => None
      end
    | None => None
    end
  end.

(** [checkValid] and the reading of the text in one pass: the document of a
    text that is valid JSON, [None] for a text that is not. *)
Definition parse (data : string) : option value :=
  match parseValue (S (String.length data)) 0 data with
  | Some (v, rest) =>
    match skipSpace rest with
    | EmptyString => Some v
    | String _ _ => None
    end
  | None => None
  end.

(** [json.Valid]. *)
Definition Valid (data : string) : bool :=
  match parse data with Some _ => true | None => false end.

(** *** Go values and documents

    [Marshal] and [Unmarshal] work by reflection on the Go type.  The
    behaviour they derive for a type is a [Codec]: [encode] is the type's
    encoder, [decode x v] stores the document [x] into a variable that
    holds [v] and gives the variable's new content, with the error that
    [saveError] would record (decoding goes on after such an error). *)
Class Codec (T : Type) : Type := {
  typeName : string;
  zeroValue : T;
  isEmptyValue : T -> bool;
  encode : T -> error + value;
  decode : value -> T -> T * option error
}.

(** The [Value] of an [UnmarshalTypeError]. *)
Definition describe (x : value) : string :=
  match x with
  | JNull => "null"
  | JBool _ => "bool"
  | JNumber _ => "number"
  | JString _ => "string"
  | JArray _ => "array"
  | JObject _ => "object"
  end.

Definition saveError (saved new : option error) : option error :=
  match saved with
  | Some _ => saved
  | None => new
  end.

(** Go [string]. *)
Definition stringCodec : Codec string := {|
  typeName := "string";
  zeroValue := "";
  isEmptyValue s := (String.length s =? 0)%nat;
  encode s := inr (JString s);
  decode x v :=
    match x with
    | JString s => (s, None)
    | JNull => (v, None)
    | _ => (v, Some (UnmarshalTypeError (describe x) "string"))
    end
|}.

(** Go [int64], and [int] on a 64-bit platform. *)
Definition intCodec (name : string) : Codec Z := {|
  typeName := name;
  zeroValue := 0;
  isEmptyValue n := n =? 0;
  encode n := inr (JNumber (strconv.FormatInt n));
  decode x v :=
    match x with
    | JNumber lit =>
      match strconv.ParseInt lit with
      | Some n => (n, None)
      | None => (v, Some (UnmarshalTypeError ("number " +:+ lit) name))
      end
    | JNull => (v, None)
    | _ => (v, Some (UnmarshalTypeError (describe x) name))
    end
|}.

(** The keys of a map are written in the order of [strings.Compare]. *)
Fixpoint insertSorted {A : Type} (k : string) (x : A) (l : list (string * A))
  : list (string * A) :=
  match l with
  | [] => [(k, x)]
  | (k', x') :: l' =>
    if String.leb k k' then (k, x) :: l else (k', x') :: insertSorted k x l'
  end.

Definition sortedEntries {A : Type} (m : gmap string A) : list (string * A) :=
  foldr (fun kx acc => insertSorted (fst kx) (snd kx) acc) [] (map_to_list m).

Section codecs.
Context {T : Type} (C : Codec T).

Fixpoint encodeEntries (l : list (string * T)) : error + list (string * value) :=
  match l with
  | [] => inr []
  | (k, x) :: l' =>
    match @encode T C x with
    | inl e => inl e
    | inr j =>
      match encodeEntries l' with
      | inl e => inl e
      | inr js => inr ((k, j) :: js)
      end
    end
  end.

(** Each member is decoded into a fresh element, which then replaces the
    entry of its key. *)
Fixpoint decodeEntries (ms : list (string * value)) (m : gmap string T)
    (saved : option error) : gmap string T * option error :=
  match ms with
  | [] => (m, saved)
  | (k, x) :: ms' =>
    let '(y, err) := @decode T C x (@zeroValue T C) in
    decodeEntries ms' (<[k := y]> m) (saveError saved err)
  end.

(** Go [map[string]T]; [None] is the nil map.  A JSON object is stored into
    the map the variable already holds, whose other entries stay; a nil
    map is replaced by a new one first. *)
Definition mapCodec : Codec (option (gmap string T)) := {|
  typeName := "map[string]" +:+ @typeName T C;
  zeroValue := None;
  isEmptyValue m :=
    match m with
    | None => true
    | Some m' => (size m' =? 0)%nat
    end;
  encode m :=
    match m with
    | None => inr JNull
    | Some m' =>
      match encodeEntries (sortedEntries m') with
      | inl e => inl e
      | inr js => inr (JObject js)
      end
    end;
  decode x v :=
    match x with
    | JNull => (None, None)
    | JObject ms =>
      let '(m, err) := decodeEntries ms (default ∅ v) None in (Some m, err)
    | _ => (v, Some (UnmarshalTypeError (describe x) ("map[string]" +:+ @typeName T C)))
    end
|}.

(** Go [*T]; [None] is the nil pointer, [Some v] a pointer to a variable
    holding [v].  [null] sets the pointer to nil; for any other document
    [indirect] first makes a nil pointer point to a new zero variable and
    the document is stored into the variable pointed to. *)
Definition pointerCodec : Codec (option T) := {|
  typeName := "*" +:+ @typeName T C;
  zeroValue := None;
  isEmptyValue p := match p with None => true | Some _ => false end;
  encode p :=
    match p with
    | None => inr JNull
    | Some v => @encode T C v
    end;
  decode x p :=
    match x with
    | JNull => (None, None)
    | _ =>
      let '(v, err) := @decode T C x (default (@zeroValue T C) p) in (Some v, err)
    end
|}.
End codecs.

(** *** Structs

    A field of a struct type [T] as the struct tags describe it: its JSON
    name, whether it is [omitempty], and its Go type with the codec of that
    type. *)
Record field (T : Type) : Type := Field {
  name : string;
  omitEmpty : bool;
  ftype : Type;
  fcodec : Codec ftype;
  get : T -> ftype;
  set : ftype -> T -> T
}.
Arguments Field {T}.
Arguments name {T}.
Arguments omitEmpty {T}.
Arguments ftype {T}.
Arguments fcodec {T}.
Arguments get {T}.
Arguments set {T}.

(** [unicode.SimpleFold] iterated to the least rune of the orbit, on the
    runes where it matters here: the struct's names are ASCII, and the only
    runes outside ASCII whose orbit holds an ASCII letter are the Kelvin
    sign and the long s.  Any other rune folds to a rune outside ASCII,
    which is left as it is. *)
Definition foldRune (r : Z) : Z :=
  if r =? 0x212A then 0x4B
  else if r =? 0x17F then 0x53
  else r.

(** [foldName]: the key that names are compared by when no field has the
    exact name. *)
Fixpoint foldName (s : string) : string :=
  match s with
  | EmptyString => ""
  | String c r0 =>
    let b := byte c in
    if b <? utf8.RuneSelf then
      String (if (0x61 <=? b) && (b <=? 0x7A) then chr (b - 0x20) else c) (foldName r0)
    else
      match utf8.DecodeRuneInString s with
      | (r, 2%nat) =>
        match r0 with
        | String _ r1 => utf8.AppendRune (foldRune r) +:+ foldName r1
        | _ => utf8.AppendRune (foldRune r)
        end
      | (r, 3%nat) =>
        match r0 with
        | String _ (String _ r2) => utf8.AppendRune (foldRune r) +:+ foldName r2
        | _ => utf8.AppendRune (foldRune r)
        end
      | (r, 4%nat) =>
        match r0 with
        | String _ (String _ (String _ r3)) => utf8.AppendRune (foldRune r) +:+ foldName r3
        | _ => utf8.AppendRune (foldRune r)
        end
      | (r, _) => utf8.AppendRune (foldRune r) +:+ foldName r0
      end
  end.

Section structs.
Context {T : Type}.

(** The field a key of the document selects: the field of that exact name,
    or else the first field whose folded name is the folded key. *)
Definition findField (fields : list (field T)) (key : string) : option (field T) :=
  match find (fun f => String.eqb (name f) key) fields with
  | Some f => Some f
  | None => find (fun f => String.eqb (foldName (name f)) (foldName key)) fields
  end.

Fixpoint decodeMembers (fields : list (field T)) (ms : list (string * value))
    (v : T) (saved : option error) : T * option error :=
  match ms with
  | [] => (v, saved)
  | (key, x) :: ms' =>
    match findField fields key with
    | None => decodeMembers fields ms' v saved
    | Some f =>
      let '(y, err) := @decode _ (fcodec f) x (get f v) in
      decodeMembers fields ms' (set f y v) (saveError saved err)
    end
  end.

Fixpoint encodeFields (fields : list (field T)) (v : T)
  : error + list (string * value) :=
  match fields with
  | [] => inr []
  | f :: fields' =>
    if omitEmpty f && @isEmptyValue _ (fcodec f) (get f v) then encodeFields fields' v
    else
      match @encode _ (fcodec f) (get f v) with
      | inl e => inl e
      | inr j =>
        match encodeFields fields' v with
        | inl e => inl e
        | inr js => inr ((name f, j) :: js)
        end
      end
  end.

Definition structCodec (tname : string) (zero : T) (fields : list (field T))
  : Codec T := {|
  typeName := tname;
  zeroValue := zero;
  isEmptyValue _ := false;
  encode v :=
    match encodeFields fields v with
    | inl e => inl e
    | inr js => inr (JObject js)
    end;
  decode x v :=
    match x with
    | JObject ms => decodeMembers fields ms v None
    | JNull => (v, None)
    | _ => (v, Some (UnmarshalTypeError (describe x) tname))
    end
|}.
End structs.

(** [json.Marshal(v)]. *)
Definition Marshal {T : Type} {C : Codec T} (v : T) : error + string :=
  match encode v with
  | inl e => inl e
  | inr j => inr (render j)
  end.

(** [json.Unmarshal(data, &v)] for a variable holding [v]: the variable's
    content after the call and the error returned.  A text that is not
    valid JSON stores nothing. *)
Definition Unmarshal {T : Type} {C : Codec T} (data : string) (v : T)
  : T * option error :=
  match parse data with
  | None => (v, Some SyntaxError)
  | Some x => decode x v
  end.
End json.

(** ** Package [net/http]: headers, requests and responses *)
Module http.
Definition MethodPost : string := "POST".
Definition StatusAccepted : Z := 202.

(** [type Header map[string][]string]. *)
Abbreviation Header := (gmap string (list string)).

(** The bytes a header name may hold ([validHeaderFieldByte]): the token
    characters of RFC 7230. *)
Definition validHeaderFieldByte (b : Z) : bool :=
  ((0x30 <=? b) && (b <=? 0x39)) || ((0x41 <=? b) && (b <=? 0x5A)) ||
  ((0x61 <=? b) && (b <=? 0x7A)) ||
  (b =? 0x21) || (b =? 0x23) || (b =? 0x24) || (b =? 0x25) || (b =? 0x26) ||
  (b =? 0x27) || (b =? 0x2A) || (b =? 0x2B) || (b =? 0x2D) || (b =? 0x2E) ||
  (b =? 0x5E) || (b =? 0x5F) || (b =? 0x60) || (b =? 0x7C) || (b =? 0x7E).

Fixpoint allValid (s : string) : bool :=
  match s with
  | EmptyString => true
  | String c r => validHeaderFieldByte (byte c) && allValid r
  end.

Fixpoint canonicalize (upper : bool) (s : string) : string :=
  match s with
  | EmptyString => ""
  | String c r =>
    let b := byte c in
    let b' :=
      if upper && (0x61 <=? b) && (b <=? 0x7A) then b - 0x20
      else if negb upper && (0x41 <=? b) && (b <=? 0x5A) then b + 0x20
      else b in
    String (chr b') (canonicalize (b' =? 0x2D) r)
  end.

(** [textproto.CanonicalMIMEHeaderKey]: a name made of token characters
    gets an upper-case first letter and an upper-case letter after each
    dash, the other letters in lower case; any other name is left as it
    is. *)
Definition CanonicalMIMEHeaderKey (s : string) : string :=
  if allValid s then canonicalize true s else s.

(** [make(http.Header)]. *)
Definition makeHeader : Header := ∅.

(** [h.Add(key, value)]. *)
Definition Add (h : Header) (key value : string) : Header :=
  let k := CanonicalMIMEHeaderKey key in
  <[k := app (default [] (h !! k)) [value]]> h.

(** [h.Get(key)]: the first value of the key, or the empty string. *)
Definition Get (h : Header) (key : string) : string :=
  match h !! CanonicalMIMEHeaderKey key with
  | Some (v :: _) => v
  | _ => ""
  end.

(** An [*http.Request] as [Send] builds it.  The URL is kept as the text
    given to [NewRequest]. *)
Record Request : Type := mkRequest {
  reqMethod : string;
  reqURL : string;
  reqHeader : Header;
  reqBody : string
}.

(** An [*http.Response].  Its body is a stream of the connection: the
    record holds a handle, and what reading the stream yields belongs to
    the world around the program. *)
Record Response : Type := mkResponse {
  StatusCode : Z;
  respBody : Z
}.

Definition withHeader (r : Request) (h : Header) : Request :=
  {| reqMethod := reqMethod r; reqURL := reqURL r; reqHeader := h; reqBody := reqBody r |}.
End http.

(** ** The world around the package

    What the package takes from its collaborators and from parts of the Go
    libraries that are not modelled, as parameters:
    - [any], the values an [interface{}] can hold, with the codec that
      [encoding/json] derives for them ([encode] fails on a value it does
      not support, such as a channel);
    - [strconv_Quote], the quoting of the [%q] verb;
    - the type [XSUAA] of [pkg/xsuaa] and its method
      [SetAuthHeaderIfNotPresent], which gives the header it leaves behind
      or fails;
    - [url_Parse], the check [http.NewRequest] makes of its URL ([None]
      when the URL parses);
    - [client_Do], the answer of the transport to a request;
    - [ReadResponseBody] of [pkg/body], which drains the body of a
      response or fails. *)
Class World : Type := {
  any : Type;
  anyCodec : json.Codec any;
  strconv_Quote : string -> string;
  XSUAA : Type;
  SetAuthHeaderIfNotPresent : XSUAA -> http.Header -> error + http.Header;
  url_Parse : string -> option error;
  client_Do : http.Request -> error + http.Response;
  ReadResponseBody : http.Response -> error + string
}.

(** ** Package [fmt] *)
Module fmt.
(** An operand of a format: a string or byte slice, or an integer. *)
Inductive arg : Type :=
| Str (s : string)
| Int (n : Z).

Section Sprintf.
Context {W : World}.

(** [fmt.Sprintf] for the verbs the package uses: [%s] and [%q] of a string
    or byte slice and [%d] of an integer.  For a verb that has no operand
    left, or an operand of another kind, Go writes a [%!] notice, which is
    given here without its details. *)
Fixpoint Sprintf (format : string) (args : list arg) : string :=
  match format with
  | EmptyString => ""
  | String c r =>
    if byte c =? 0x25 then
      match r with
      | EmptyString => "%!(NOVERB)"
      | String verb r' =>
        if byte verb =? 0x25 then String verb (Sprintf r' args)
        else
          match args with
          | [] => "%!" +:+ String verb "(MISSING)" +:+ Sprintf r' []
          | a :: args' =>
            match a with
            | Str s =>
              if byte verb =? 0x73 then s +:+ Sprintf r' args'
              else if byte verb =? 0x71 then strconv_Quote s +:+ Sprintf r' args'
              else "%!" +:+ String verb "(string=" +:+ s +:+ ")" +:+ Sprintf r' args'
            | Int n =>
              if byte verb =? 0x64 then strconv.FormatInt n +:+ Sprintf r' args'
              else "%!" +:+ String verb "(int=" +:+ strconv.FormatInt n +:+ ")" +:+ Sprintf r' args'
            end
          end
      end
    else String c (Sprintf r args)
  end.

(** [fmt.Errorf] with a format that has no [%w]. *)
Definition Errorf (format : string) (args : list arg) : error :=
  errorString (Sprintf format args).
End Sprintf.
End fmt.

(** ** Package [github.com/pkg/errors] *)
Module errors.
Section errors.
Context {W : World}.

(** [errors.Wrap(err, message)] for an [err] that is not nil. *)
Definition Wrap (err : error) (message : string) : error :=
  withStack (withMessage err message).

(** [errors.Wrapf(err, format, args...)] for an [err] that is not nil. *)
Definition Wrapf (err : error) (format : string) (args : list fmt.arg) : error :=
  withStack (withMessage err (fmt.Sprintf format args)).
End errors.

(** [Unwrap()], the step of Go's error chains. *)
Definition Unwrap (err : error) : option error :=
  match err with
  | withMessage cause _ => Some cause
  | withStack e => Some e
  | _ => None
  end.

(** [errors.Cause(err)]: the innermost error that has no cause of its own. *)
Fixpoint Cause (err : error) : error :=
  match err with
  | withMessage cause _ => Cause cause
  | withStack e => Cause e
  | _ => err
  end.
End errors.

(** ** Package [ans] *)
Section ans.
Context {W : World}.

(** [ANS]: the setup of the token provider and the URL of the backend. *)
Record ANS : Type := mkANS {
  ans_XSUAA : XSUAA;
  URL : string
}.

(** [ServiceKey]. *)
Record ServiceKey : Type := mkServiceKey {
  Url : string;
  ClientId : string;
  ClientSecret : string;
  OauthUrl : string
}.

(** [Resource].  (Its field [Tags] is named [ResourceTags] here, the name
    [Tags] being taken by the field of [Event].) *)
Record Resource : Type := mkResource {
  ResourceName : string;
  ResourceType : string;
  ResourceInstance : string;
  ResourceTags : option (gmap string any)
}.

(** [Event].  (Its field [Resource] is named [EventResource] here.)  The
    pointer [*Resource] is [None] when nil and else holds the content of
    the variable it points to, which is taken to have no other owner. *)
Record Event : Type := mkEvent {
  EventType : string;
  EventTimestamp : Z;
  Severity : string;
  Category : string;
  Subject : string;
  Body : string;
  Priority : Z;
  Tags : option (gmap string any);
  EventResource : option Resource
}.

Definition zeroServiceKey : ServiceKey := mkServiceKey "" "" "" "".
Definition zeroResource : Resource := mkResource "" "" "" None.
Definition zeroEvent : Event := mkEvent "" 0 "" "" "" "" 0 None None.

(** *** The struct tags *)

Definition tagsCodec : json.Codec (option (gmap string any)) :=
  json.mapCodec anyCodec.

Definition ServiceKey_fields : list (json.field ServiceKey) :=
  [ json.Field "url" false string json.stringCodec Url
      (fun x k => mkServiceKey x (ClientId k) (ClientSecret k) (OauthUrl k));
    json.Field "client_id" false string json.stringCodec ClientId
      (fun x k => mkServiceKey (Url k) x (ClientSecret k) (OauthUrl k));
    json.Field "client_secret" false string json.stringCodec ClientSecret
      (fun x k => mkServiceKey (Url k) (ClientId k) x (OauthUrl k));
    json.Field "oauth_url" false string json.stringCodec OauthUrl
      (fun x k => mkServiceKey (Url k) (ClientId k) (ClientSecret k) x) ].

Definition Resource_fields : list (json.field Resource) :=
  [ json.Field "resourceName" true string json.stringCodec ResourceName
      (fun x r => mkResource x (ResourceType r) (ResourceInstance r) (ResourceTags r));
    json.Field "resourceType" true string json.stringCodec ResourceType
      (fun x r => mkResource (ResourceName r) x (ResourceInstance r) (ResourceTags r));
    json.Field "resourceInstance" true string json.stringCodec ResourceInstance
      (fun x r => mkResource (ResourceName r) (ResourceType r) x (ResourceTags r));
    json.Field "tags" true (option (gmap string any)) tagsCodec ResourceTags
      (fun x r => mkResource (ResourceName r) (ResourceType r) (ResourceInstance r) x) ].

#[export] Instance ServiceKey_codec : json.Codec ServiceKey :=
  json.structCodec "ans.ServiceKey" zeroServiceKey ServiceKey_fields.

#[export] Instance Resource_codec : json.Codec Resource :=
  json.structCodec "ans.Resource" zeroResource Resource_fields.

Definition Event_fields : list (json.field Event) :=
  [ json.Field "eventType" true string json.stringCodec EventType
      (fun x e => mkEvent x (EventTimestamp e) (Severity e) (Category e) (Subject e)
                    (Body e) (Priority e) (Tags e) (EventResource e));
    json.Field "eventTimestamp" true Z (json.intCodec "int64") EventTimestamp
      (fun x e => mkEvent (EventType e) x (Severity e) (Category e) (Subject e)
                    (Body e) (Priority e) (Tags e) (EventResource e));
    json.Field "severity" true string json.stringCodec Severity
      (fun x e => mkEvent (EventType e) (EventTimestamp e) x (Category e) (Subject e)
                    (Body e) (Priority e) (Tags e) (EventResource e));
    json.Field "category" true string json.stringCodec Category
      (fun x e => mkEvent (EventType e) (EventTimestamp e) (Severity e) x (Subject e)
                    (Body e) (Priority e) (Tags e) (EventResource e));
    json.Field "subject" true string json.stringCodec Subject
      (fun x e => mkEvent (EventType e) (EventTimestamp e) (Severity e) (Category e) x
                    (Body e) (Priority e) (Tags e) (EventResource e));
    json.Field "body" true string json.stringCodec Body
      (fun x e => mkEvent (EventType e) (EventTimestamp e) (Severity e) (Category e)
                    (Subject e) x (Priority e) (Tags e) (EventResource e));
    json.Field "priority" true Z (json.intCodec "int") Priority
      (fun x e => mkEvent (EventType e) (EventTimestamp e) (Severity e) (Category e)
                    (Subject e) (Body e) x (Tags e) (EventResource e));
    json.Field "tags" true (option (gmap string any)) tagsCodec Tags
      (fun x e => mkEvent (EventType e) (EventTimestamp e) (Severity e) (Category e)
                    (Subject e) (Body e) (Priority e) x (EventResource e));
    json.Field "resource" true (option Resource) (json.pointerCodec Resource_codec)
      EventResource
      (fun x e => mkEvent (EventType e) (EventTimestamp e) (Severity e) (Category e)
                    (Subject e) (Body e) (Priority e) (Tags e) x) ].

#[export] Instance Event_codec : json.Codec Event :=
  json.structCodec "ans.Event" zeroEvent Event_fields.

(** *** [UnmarshallServiceKeyJSON]

    The named results [ansServiceKey] and [err]. *)
Definition UnmarshallServiceKeyJSON (serviceKeyJSON : string)
  : ServiceKey * option error :=
  let ansServiceKey := zeroServiceKey in
  let '(ansServiceKey, err) := json.Unmarshal serviceKeyJSON ansServiceKey in
  match err with
  | Some err => (ansServiceKey, Some (errors.Wrap err "error unmarshalling ANS serviceKey"))
  | None => (ansServiceKey, None)
  end.

(** *** [MergeWithJSON]

    The receiver [event] is a pointer to the caller's [Event], so
    [json.Unmarshal] is given a [**Event].  The function is modelled by
    what it does to the caller's [Event]: after a [null] document the local
    pointer is nil and the caller's [Event] is as before. *)
Definition MergeWithJSON (event : Event) (eventJSON : string)
  : Event * option error :=
  let '(p, err) :=
    @json.Unmarshal _ (json.pointerCodec Event_codec) eventJSON (Some event) in
  let event := default event p in
  match err with
  | Some err =>
    (event,
     Some (errors.Wrapf err "error unmarshalling ANS event from JSON string %q"
             [fmt.Str eventJSON]))
  | None => (event, None)
  end.

(** *** [Send]

    [Send] talks to its collaborators; each call is recorded with its
    answer, in order, so that what a run of [Send] did can be stated. *)
Inductive Call : Type :=
| CallSetAuthHeaderIfNotPresent (x : XSUAA) (header : http.Header)
    (answer : error + http.Header)
| CallNewRequest (method url body : string) (answer : error + http.Request)
| CallDo (request : http.Request) (answer : error + http.Response)
| CallReadResponseBody (response : http.Response) (answer : error + string).

(** A computation that records calls. *)
Definition Run (A : Type) : Type := list Call -> A * list Call.

Definition ret {A : Type} (a : A) : Run A := fun log => (a, log).

Definition bind {A B : Type} (m : Run A) (k : A -> Run B) : Run B :=
  fun log => let '(a, log') := m log in k a log'.

Definition record {A : Type} (c : A -> Call) (answer : A) : Run A :=
  fun log => (answer, app log [c answer]).

(** [http.NewRequest(method, url, body)] for a valid method: it fails when
    the URL does not parse, and else gives a request with no header. *)
Definition NewRequest (method url body : string) : error + http.Request :=
  match url_Parse url with
  | Some err => inl err
  | None => inr (http.mkRequest method url http.makeHeader body)
  end.

Definition call_SetAuthHeaderIfNotPresent (x : XSUAA) (header : http.Header)
  : Run (error + http.Header) :=
  record (CallSetAuthHeaderIfNotPresent x header) (SetAuthHeaderIfNotPresent x header).

Definition call_NewRequest (method url body : string) : Run (error + http.Request) :=
  record (CallNewRequest method url body) (NewRequest method url body).

Definition call_Do (request : http.Request) : Run (error + http.Response) :=
  record (CallDo request) (client_Do request).

Definition call_ReadResponseBody (response : http.Response) : Run (error + string) :=
  record (CallReadResponseBody response) (ReadResponseBody response).
End ans.

(** [x, err := m; if err != nil { return err }; k]. *)
Notation "x '<-?' m ';;' k" :=
  (bind m (fun answer =>
     match answer with
     | inl err => ret (Some err)
     | inr x => k
     end))
  (at level 100, m at next level, right associativity).

Section Send.
Context {W : World}.

Definition eventPath : string := "/cf/producer/v1/resource-events".

Definition Send (ans : ANS) (event : Event) : Run (option error) :=
  requestBody <-? ret (json.Marshal event) ;;
  let header := http.makeHeader in
  header <-? call_SetAuthHeaderIfNotPresent (ans_XSUAA ans) header ;;
  let entireUrl := URL ans +:+ eventPath in
  request <-? call_NewRequest http.MethodPost entireUrl requestBody ;;
  let request :=
    http.withHeader request
      (http.Add (http.reqHeader request) authHeaderKey (http.Get header authHeaderKey)) in
  let request :=
    http.withHeader request
      (http.Add (http.reqHeader request) "Content-Type" "application/json") in
  response <-? call_Do request ;;
  if negb (http.StatusCode response =? http.StatusAccepted) then
    let statusCodeError :=
      fmt.Errorf
        "ANS http request to '%s' failed. Did not get expected status code %d; instead got %d"
        [fmt.Str entireUrl; fmt.Int http.StatusAccepted; fmt.Int (http.StatusCode response)] in
    bind (call_ReadResponseBody response) (fun answer =>
      match answer with
      | inl err =>
        ret (Some (errors.Wrapf err "%s; reading response body failed"
                     [fmt.Str (Error statusCodeError)]))
      | inr responseBody =>
        ret (Some (fmt.Errorf "%s; response body: %s"
                     [fmt.Str (Error statusCodeError); fmt.Str responseBody]))
      end)
  else ret None.

(** A run of [Send] from an empty record: what it returns and the calls it
    made. *)
Definition runSend (ans : ANS) (event : Event) : option error * list Call :=
  Send ans event [].
End Send.

(** ** Worlds to run the package in

    In these worlds an [interface{}] holds the JSON-shaped values that
    [encoding/json] itself stores there, each written as the document it
    encodes to. *)
Definition documentCodec : json.Codec json.value := {|
  json.typeName := "interface {}";
  json.zeroValue := json.JNull;
  json.isEmptyValue x := match x with json.JNull => true | _ => false end;
  json.encode x := inr x;
  json.decode x _ := (x, None)
|}.

(** A provider that holds a token, or fails with [tokenError] when it has
    none; a transport that answers every request with the status [status];
    a body reader that gives [body]. *)
Definition tokenError : error := errorString "fetching an access token failed".

Definition testWorld (token : option string) (status : Z) (body : error + string)
  : World := {|
  any := json.value;
  anyCodec := documentCodec;
  strconv_Quote s := String dquote (s +:+ String dquote "");
  XSUAA := unit;
  SetAuthHeaderIfNotPresent _ header :=
    match token with
    | None => inl tokenError
    | Some t =>
      match header !! authHeaderKey with
      | Some _ => inr header
      | None => inr (http.Add header authHeaderKey ("Bearer " +:+ t))
      end
    end;
  url_Parse _ := None;
  client_Do _ := inr (http.mkResponse status 0);
  ReadResponseBody _ := body
|}.

(** ** Statements about the level mapping *)

Definition maps_to (result : string * string) (level : logrus.Level) : Prop :=
  TranslateLogrusLogLevel level = result.

(** The counts the specification gives for the mapping: two levels listed
    with the default pair, two levels for (WARNING, ALERT), three levels for
    (FATAL, EXCEPTION). *)
Definition specified_counts : Prop :=
  (exists a b, a <> b /\ explicitly_listed a /\ explicitly_listed b /\
     maps_to (infoSeverity, notificationCategory) a /\
     maps_to (infoSeverity, notificationCategory) b /\
     forall c, explicitly_listed c ->
       maps_to (infoSeverity, notificationCategory) c -> c = a \/ c = b) /\
  (exists a b, a <> b /\
     maps_to (warningSeverity, alertCategory) a /\
     maps_to (warningSeverity, alertCategory) b /\
     forall c, maps_to (warningSeverity, alertCategory) c -> c = a \/ c = b) /\
  (exists a b c, a <> b /\ a <> c /\ b <> c /\
     maps_to (fatalSeverity, exceptionCategory) a /\
     maps_to (fatalSeverity, exceptionCategory) b /\
     maps_to (fatalSeverity, exceptionCategory) c /\
     forall d, maps_to (fatalSeverity, exceptionCategory) d ->
       d = a \/ d = b \/ d = c).

(** ** Runs of [Send] to illustrate its properties *)

(** The backend accepts; the backend answers 500 with a body; the backend
    answers 500 and its body cannot be read; the provider has no token. *)
Definition acceptingWorld : World := testWorld (Some "token") 202 (inr "").
Definition refusingWorld : World := testWorld (Some "token") 500 (inr "server error").
Definition unreadableWorld : World :=
  testWorld (Some "token") 500 (inl (errorString "unexpected EOF")).
Definition noTokenWorld : World := testWorld None 202 (inr "").

Definition exampleANS (token : option string) (status : Z) (body : error + string)
  : @ANS (testWorld token status body) :=
  @mkANS (testWorld token status body) tt "https://ans.example".

Definition exampleEvent (W : World) : @Event W :=
  @mkEvent W "Build" 0 "INFO" "NOTIFICATION" "build finished" "" 0 None None.

Definition quoted (s : string) : string := String dquote (s +:+ String dquote "").

Definition exampleBody : string :=
  "{" +:+ quoted "eventType" +:+ ":" +:+ quoted "Build" +:+ "," +:+
  quoted "severity" +:+ ":" +:+ quoted "INFO" +:+ "," +:+
  quoted "category" +:+ ":" +:+ quoted "NOTIFICATION" +:+ "," +:+
  quoted "subject" +:+ ":" +:+ quoted "build finished" +:+ "}".

Definition exampleRequest : http.Request :=
  http.mkRequest "POST" "https://ans.example/cf/producer/v1/resource-events"
    {[ "Authorization" := ["Bearer token"];
       "Content-Type" := ["application/json"] ]}
    exampleBody.

(** ** Vocabulary of the properties *)

Section Send_statements.
Context {W : World}.

(** The request [Send] hands to the client, given the header the provider
    left and the body. *)
Definition builtRequest (ans : ANS) (header : http.Header) (body : string)
  : http.Request :=
  http.mkRequest "POST" (URL ans +:+ "/cf/producer/v1/resource-events")
    {[ "Authorization" := [http.Get header "Authorization"];
       "Content-Type" := ["application/json"] ]}
    body.

(** The message of the error for an unexpected status. *)
Definition statusMessage (url : string) (status : Z) : string :=
  "ANS http request to '" +:+ url +:+
  "' failed. Did not get expected status code 202; instead got " +:+
  strconv.FormatInt status.

(** What a run of [Send] returns and records, by the answers it gets. *)
Inductive SendRun (ans : ANS) (event : Event) : option error -> list Call -> Prop :=
| RunMarshalFails err :
    json.Marshal event = inl err ->
    SendRun ans event (Some err) []
| RunAuthFails body err :
    json.Marshal event = inr body ->
    SetAuthHeaderIfNotPresent (ans_XSUAA ans) ∅ = inl err ->
    SendRun ans event (Some err)
      [CallSetAuthHeaderIfNotPresent (ans_XSUAA ans) ∅ (inl err)]
| RunNewRequestFails body header err :
    json.Marshal event = inr body ->
    SetAuthHeaderIfNotPresent (ans_XSUAA ans) ∅ = inr header ->
    url_Parse (URL ans +:+ eventPath) = Some err ->
    SendRun ans event (Some err)
      [CallSetAuthHeaderIfNotPresent (ans_XSUAA ans) ∅ (inr header);
       CallNewRequest "POST" (URL ans +:+ eventPath) body (inl err)]
| RunDoFails body header err :
    json.Marshal event = inr body ->
    SetAuthHeaderIfNotPresent (ans_XSUAA ans) ∅ = inr header ->
    url_Parse (URL ans +:+ eventPath) = None ->
    client_Do (builtRequest ans header body) = inl err ->
    SendRun ans event (Some err)
      [CallSetAuthHeaderIfNotPresent (ans_XSUAA ans) ∅ (inr header);
       CallNewRequest "POST" (URL ans +:+ eventPath) body
         (inr (http.mkRequest "POST" (URL ans +:+ eventPath) ∅ body));
       CallDo (builtRequest ans header body) (inl err)]
| RunAccepted body header response :
    json.Marshal event = inr body ->
    SetAuthHeaderIfNotPresent (ans_XSUAA ans) ∅ = inr header ->
    url_Parse (URL ans +:+ eventPath) = None ->
    client_Do (builtRequest ans header body) = inr response ->
    http.StatusCode response = 202 ->
    SendRun ans event None
      [CallSetAuthHeaderIfNotPresent (ans_XSUAA ans) ∅ (inr header);
       CallNewRequest "POST" (URL ans +:+ eventPath) body
         (inr (http.mkRequest "POST" (URL ans +:+ eventPath) ∅ body));
       CallDo (builtRequest ans header body) (inr response)]
| RunRefused body header response answer :
    json.Marshal event = inr body ->
    SetAuthHeaderIfNotPresent (ans_XSUAA ans) ∅ = inr header ->
    url_Parse (URL ans +:+ eventPath) = None ->
    client_Do (builtRequest ans header body) = inr response ->
    http.StatusCode response <> 202 ->
    ReadResponseBody response = answer ->
    SendRun ans event
      (Some
         match answer with
         | inl cause =>
           withStack (withMessage cause
             (statusMessage (URL ans +:+ eventPath) (http.StatusCode response)
              +:+ "; reading response body failed"))
         | inr responseBody =>
           errorString
             (statusMessage (URL ans +:+ eventPath) (http.StatusCode response)
              +:+ "; response body: " +:+ responseBody)
         end)
      [CallSetAuthHeaderIfNotPresent (ans_XSUAA ans) ∅ (inr header);
       CallNewRequest "POST" (URL ans +:+ eventPath) body
         (inr (http.mkRequest "POST" (URL ans +:+ eventPath) ∅ body));
       CallDo (builtRequest ans header body) (inr response);
       CallReadResponseBody response answer].
End Send_statements.


(** Properties of the list of fields of a struct type: every field is
    [omitempty]; no two fields have the same JSON name; the fields are the
    fields of a record, so that setting one is seen by its own getter and by
    no other. *)
Section field_lists.
Context {T : Type}.


Definition distinctNames (fields : list (json.field T)) : Prop :=
  forall f g, In f fields -> In g fields -> json.name f = json.name g -> f = g.

Definition fieldsOfRecord (fields : list (json.field T)) : Prop :=
  (forall f, In f fields -> forall (y : json.ftype f) (v : T),
     json.get f (json.set f y v) = y) /\
  (forall f g, In f fields -> In g fields -> json.name f <> json.name g ->
     forall (y : json.ftype g) (v : T), json.get f (json.set g y v) = json.get f v).
End field_lists.

(** ** Statements about [MergeWithJSON] *)

(** The members of a document that is an object. *)
Definition members (x : json.value) : list (string * json.value) :=
  match x with
  | json.JObject ms => ms
  | _ => []
  end.

Section merge_statements.
Context {W : World}.

(** The name of the field of [Event] that a key of the merge JSON selects. *)
Definition selected (key : string) : option string :=
  match json.findField Event_fields key with
  | Some f => Some (json.name f)
  | None => None
  end.

(** The merge JSON has a member for the field named [name]. *)
Definition present (name : string) (eventJSON : string) : Prop :=
  exists x key, json.parse eventJSON = Some x /\
    In key (map fst (members x)) /\ selected key = Some name.

(** The claim of the specification for one merge: a field the JSON has a
    member for is overwritten, so that it holds what the JSON says whatever
    it held before (what it holds when the JSON is merged into the zero
    [Event]), and a field the JSON has no member for is left as it is. *)
Definition overwrites_exactly (event : Event) (eventJSON : string) : Prop :=
  forall f, In f Event_fields ->
    (present (json.name f) eventJSON ->
     json.get f (fst (MergeWithJSON event eventJSON)) =
     json.get f (fst (MergeWithJSON zeroEvent eventJSON))) /\
    (~ present (json.name f) eventJSON ->
     json.get f (fst (MergeWithJSON event eventJSON)) = json.get f event).

(** The string fields and the integer fields of [Event], by JSON name. *)
Definition stringFields : list (string * (Event -> string)) :=
  [ ("eventType", EventType); ("severity", Severity); ("category", Category);
    ("subject", Subject); ("body", Body) ].

Definition intFields : list (string * (Event -> Z)) :=
  [ ("eventTimestamp", EventTimestamp); ("priority", Priority) ].
End merge_statements.

(** An [Event] with a tag, and a merge JSON with another tag. *)
Definition taggedEvent : @Event acceptingWorld :=
  @mkEvent acceptingWorld "" 0 "" "" "" "" 0
    (Some {[ "a" := json.JString "1" ]}) None.

Definition tagsJSON : string :=
  "{" +:+ quoted "tags" +:+ ":{" +:+ quoted "b" +:+ ":" +:+ quoted "2" +:+ "}}".

(** The example of the specification: A is [priority], B is
    [eventTimestamp]. *)
Definition eventAB (W : World) : @Event W :=
  @mkEvent W "" 2 "" "" "" "" 1 None None.

Definition priorityJSON : string := "{" +:+ quoted "priority" +:+ ":99}".

(** ** Vocabulary of UTF-8

    The rune that [DecodeRuneInString] computes from a sequence of two,
    three and four bytes, and the sequences that are valid (the table
    [first] with [acceptRanges], as ranges). *)
Definition rune2 (s0 s1 : Z) : Z :=
  Z.lor (Z.shiftl (Z.land s0 utf8.mask2) 6) (Z.land s1 utf8.maskx).

Definition rune3 (s0 s1 s2 : Z) : Z :=
  Z.lor (Z.lor (Z.shiftl (Z.land s0 utf8.mask3) 12) (Z.shiftl (Z.land s1 utf8.maskx) 6))
        (Z.land s2 utf8.maskx).

Definition rune4 (s0 s1 s2 s3 : Z) : Z :=
  Z.lor (Z.lor (Z.lor (Z.shiftl (Z.land s0 utf8.mask4) 18)
                      (Z.shiftl (Z.land s1 utf8.maskx) 12))
               (Z.shiftl (Z.land s2 utf8.maskx) 6))
        (Z.land s3 utf8.maskx).

Definition seq2 (b0 b1 : Z) : Prop :=
  0xC2 <= b0 <= 0xDF /\ 0x80 <= b1 <= 0xBF.

Definition seq3 (b0 b1 b2 : Z) : Prop :=
  0xE0 <= b0 <= 0xEF /\ 0x80 <= b1 <= 0xBF /\
  (b0 = 0xE0 -> 0xA0 <= b1) /\ (b0 = 0xED -> b1 <= 0x9F) /\
  0x80 <= b2 <= 0xBF.

Definition seq4 (b0 b1 b2 b3 : Z) : Prop :=
  0xF0 <= b0 <= 0xF4 /\ 0x80 <= b1 <= 0xBF /\
  (b0 = 0xF0 -> 0x90 <= b1) /\ (b0 = 0xF4 -> b1 <= 0x8F) /\
  0x80 <= b2 <= 0xBF /\ 0x80 <= b3 <= 0xBF.

(** A string read so far, put before the rest of a literal: what [unquote]
    does with each piece it reads. *)
Definition prepend (out : string) (rest : option (string * string))
  : option (string * string) :=
  match rest with
  | Some (body, after) => Some (out +:+ body, after)
  | None => None
  end.

(** ** Statements about [UnmarshallServiceKeyJSON] *)

(** A service key whose four strings are valid UTF-8: the strings JSON text
    can carry. *)
Definition validServiceKey (k : ServiceKey) : Prop :=
  utf8.ValidString (Url k) = true /\
  utf8.ValidString (ClientId k) = true /\
  utf8.ValidString (ClientSecret k) = true /\
  utf8.ValidString (OauthUrl k) = true.

(** The members of an object whose value is a string hold valid UTF-8. *)
Definition stringValuesValid (ms : list (string * json.value)) : Prop :=
  forall k s, In (k, json.JString s) ms -> utf8.ValidString s = true.

Definition exampleServiceKey : ServiceKey :=
  mkServiceKey "https://ans.example" "sb-client<1>" "secret&" "https://auth.example/oauth/token".

(** A service key whose URL is the byte 0xFF alone, which is not UTF-8. *)
Definition latin1ServiceKey : ServiceKey :=
  mkServiceKey (String (chr 0xFF) "") "" "" "".

(** ** Further worlds and runs

    A world whose collaborators give fixed answers: the provider leaves
    [auth], the check of the URL gives [parse], the transport [transport]
    and the body reader [body]. *)
Definition stubWorld (auth : error + http.Header) (parse : option error)
    (transport : error + http.Response) (body : error + string) : World := {|
  any := json.value;
  anyCodec := documentCodec;
  strconv_Quote s := String dquote (s +:+ String dquote "");
  XSUAA := unit;
  SetAuthHeaderIfNotPresent _ _ := auth;
  url_Parse _ := parse;
  client_Do _ := transport;
  ReadResponseBody _ := body
|}.

Definition urlError : error := errorString "invalid URL escape".
Definition transportError : error := errorString "dial tcp: connection refused".

(** The URL does not parse; the transport fails; the provider leaves the
    header as it found it. *)
Definition badURLWorld : World :=
  stubWorld (inr ∅) (Some urlError) (inr (http.mkResponse 202 0)) (inr "").
Definition offlineWorld : World :=
  stubWorld (inr ∅) None (inl transportError) (inr "").
Definition silentProviderWorld : World :=
  stubWorld (inr ∅) None (inr (http.mkResponse 202 0)) (inr "").

Definition stubANS (auth : error + http.Header) (parse : option error)
    (transport : error + http.Response) (body : error + string)
  : @ANS (stubWorld auth parse transport body) :=
  @mkANS (stubWorld auth parse transport body) tt "https://ans.example".

(** A world in which an [interface{}] holds a document or a channel
    ([None]), which [encoding/json] refuses to encode. *)
Definition unsupportedChan : error := errorString "json: unsupported type: chan int".

Definition channelCodec : json.Codec (option json.value) := {|
  json.typeName := "interface {}";
  json.zeroValue := Some json.JNull;
  json.isEmptyValue x := match x with Some json.JNull => true | _ => false end;
  json.encode x := match x with Some j => inr j | None => inl unsupportedChan end;
  json.decode x _ := (Some x, None)
|}.

Definition channelWorld : World := {|
  any := option json.value;
  anyCodec := channelCodec;
  strconv_Quote s := String dquote (s +:+ String dquote "");
  XSUAA := unit;
  SetAuthHeaderIfNotPresent _ header := inr header;
  url_Parse _ := None;
  client_Do _ := inr (http.mkResponse 202 0);
  ReadResponseBody _ := inr ""
|}.

(** An event with a channel among its tags. *)
Definition channelEvent : @Event channelWorld :=
  @mkEvent channelWorld "Build" 0 "" "" "" "" 0 (Some {[ "done" := None ]}) None.

(** The four calls [Send] can make, in the order of its text. *)
Inductive CallKind : Type :=
| AskProvider
| BuildRequest
| DoRequest
| ReadBody.

Definition kindOf {W : World} (c : Call) : CallKind :=
  match c with
  | CallSetAuthHeaderIfNotPresent _ _ _ => AskProvider
  | CallNewRequest _ _ _ _ => BuildRequest
  | CallDo _ _ => DoRequest
  | CallReadResponseBody _ _ => ReadBody
  end.

Definition callOrder : list CallKind := [AskProvider; BuildRequest; DoRequest; ReadBody].

(** ** Vocabulary of decoding *)

(** No two fields of the list have the same folded name. *)
Definition distinctFolded {T : Type} (fields : list (json.field T)) : Prop :=
  forall f g, In f fields -> In g fields ->
    json.foldName (json.name f) = json.foldName (json.name g) -> f = g.

(** The error of decoding with the codec depends on the document only, not
    on what the variable holds. *)
Definition errorByDocument {T : Type} (C : json.Codec T) : Prop :=
  forall (x : json.value) (v v' : T),
    snd (@json.decode T C x v) = snd (@json.decode T C x v').

(** The string a field of [ServiceKey] holds after the members [ms] of an
    object have been stored, when it held [init] before: the string of the
    last member that selects the field and is a JSON string. *)
Definition lastString (name : string) (ms : list (string * json.value)) (init : string)
  : string :=
  fold_left
    (fun acc m =>
       match json.findField ServiceKey_fields (fst m), snd m with
       | Some f, json.JString s => if String.eqb (json.name f) name then s else acc
       | _, _ => acc
       end) ms init.

(** A service key JSON with a key in upper case, a number where a string
    is expected, and a member that [ServiceKey] has no field for. *)
Definition mixedServiceKeyJSON : string :=
  "{" +:+ quoted "URL" +:+ ":" +:+ quoted "https://ans.example" +:+ "," +:+
  quoted "url" +:+ ":7," +:+
  quoted "client_id" +:+ ":" +:+ quoted "sb-client" +:+ "," +:+
  quoted "region" +:+ ":" +:+ quoted "eu10" +:+ "}".

(** ** Vocabulary of merging *)

(** What a variable holds after the documents [xs] have been stored into
    it, one after the other. *)
Definition storeAll {T : Type} (C : json.Codec T) (xs : list json.value) (v : T) : T :=
  fold_left (fun u x => fst (@json.decode T C x u)) xs v.

(** Storing the same documents a second time changes nothing. *)
Definition idempotentCodec {T : Type} (C : json.Codec T) : Prop :=
  forall (xs : list json.value) (v : T), storeAll C xs (storeAll C xs v) = storeAll C xs v.

(** A document either replaces what the variable holds, whatever that is,
    or leaves it as it is. *)
Definition replaceOrKeep {T : Type} (C : json.Codec T) : Prop :=
  forall x : json.value,
    (forall u, fst (@json.decode T C x u) = u) \/
    (exists c, forall u, fst (@json.decode T C x u) = c).

(** The values of the members of [ms] that select the field [f], in the
    order of the text. *)
Definition selecting {T : Type} (fields : list (json.field T)) (f : json.field T)
    (ms : list (string * json.value)) : list json.value :=
  map snd
    (List.filter (fun m =>
               match json.findField fields (fst m) with
               | Some g => String.eqb (json.name g) (json.name f)
               | None => false
               end) ms).

(** Two values of the struct type with the same fields are the same. *)
Definition recordExtensional {T : Type} (fields : list (json.field T)) : Prop :=
  forall v v' : T, (forall f, In f fields -> json.get f v = json.get f v') -> v = v'.

(** The entries that the members [es] of an object put into a map. *)
Definition insertAll {T : Type} (C : json.Codec T) (es : list (string * json.value))
    (m : gmap string T) : gmap string T :=
  fold_left (fun m e => <[fst e := fst (@json.decode T C (snd e) (@json.zeroValue T C))]> m)
    es m.

Definition isObject (x : json.value) : bool :=
  match x with json.JObject _ => true | _ => false end.

(** Two merge texts and the text with the members of both. *)
Definition subjectJSON : string := "{" +:+ quoted "subject" +:+ ":" +:+ quoted "deploy" +:+ "}".
Definition subjectPriorityJSON : string :=
  "{" +:+ quoted "priority" +:+ ":99," +:+ quoted "subject" +:+ ":" +:+ quoted "deploy" +:+ "}".

Section resource_statements.
Context {W : World}.

(** The string fields of [Resource], by JSON name. *)
Definition resourceStringFields : list (string * (Resource -> string)) :=
  [ ("resourceName", ResourceName); ("resourceType", ResourceType);
    ("resourceInstance", ResourceInstance) ].
End resource_statements.

(** A merge JSON that gives [tags] twice, first as [null]. *)
Definition tagsTwiceJSON : string :=
  "{" +:+ quoted "tags" +:+ ":null," +:+
  quoted "tags" +:+ ":{" +:+ quoted "b" +:+ ":" +:+ quoted "2" +:+ "}}".

(** ** Vocabulary of JSON text *)

Definition isDigit (b : Z) : bool := (0x30 <=? b) && (b <=? 0x39).

Fixpoint allDigits (s : string) : bool :=
  match s with
  | EmptyString => true
  | String c r => isDigit (byte c) && allDigits r
  end.

(** The literal of an integer as JSON has it: an optional minus sign, then
    a zero alone or digits that do not start with a zero. *)
Definition intLiteral (lit : string) : bool :=
  let digits :=
    match lit with
    | String c r => if byte c =? 0x2D then r else lit
    | EmptyString => lit
    end in
  match digits with
  | String c r =>
    if byte c =? 0x30 then match r with EmptyString => true | String _ _ => false end
    else (0x31 <=? byte c) && (byte c <=? 0x39) && allDigits r
  | EmptyString => false
  end.

(** A text at which a number ends: the end of the text, or a byte that
    cannot continue a number. *)
Definition endsNumber (tail : string) : bool :=
  match tail with
  | EmptyString => true
  | String c _ =>
    negb (isDigit (byte c) || (byte c =? 0x2E) || (byte c =? 0x65) || (byte c =? 0x45))
  end.

(** The documents whose text is read back as written: strings and keys
    are valid UTF-8 and numbers are integer literals. *)
Fixpoint wellFormed (v : json.value) : Prop :=
  match v with
  | json.JNull => True
  | json.JBool _ => True
  | json.JNumber lit => intLiteral lit = true
  | json.JString s => utf8.ValidString s = true
  | json.JArray xs =>
    (fix all (l : list json.value) : Prop :=
       match l with
       | [] => True
       | x :: l' => wellFormed x /\ all l'
       end) xs
  | json.JObject ms =>
    (fix all (l : list (string * json.value)) : Prop :=
       match l with
       | [] => True
       | m :: l' => utf8.ValidString (fst m) = true /\ wellFormed (snd m) /\ all l'
       end) ms
  end.

Definition wellFormedElements : list json.value -> Prop :=
  fix all (l : list json.value) : Prop :=
    match l with
    | [] => True
    | x :: l' => wellFormed x /\ all l'
    end.

Definition wellFormedMembers : list (string * json.value) -> Prop :=
  fix all (l : list (string * json.value)) : Prop :=
    match l with
    | [] => True
    | m :: l' => utf8.ValidString (fst m) = true /\ wellFormed (snd m) /\ all l'
    end.

(** How deep arrays and objects are nested in a document. *)
Fixpoint nesting (v : json.value) : Z :=
  match v with
  | json.JArray xs =>
    1 + (fix deepest (l : list json.value) : Z :=
           match l with
           | [] => 0
           | x :: l' => Z.max (nesting x) (deepest l')
           end) xs
  | json.JObject ms =>
    1 + (fix deepest (l : list (string * json.value)) : Z :=
           match l with
           | [] => 0
           | m :: l' => Z.max (nesting (snd m)) (deepest l')
           end) ms
  | _ => 0
  end.

Definition nestingElements : list json.value -> Z :=
  fix deepest (l : list json.value) : Z :=
    match l with
    | [] => 0
    | x :: l' => Z.max (nesting x) (deepest l')
    end.

Definition nestingMembers : list (string * json.value) -> Z :=
  fix deepest (l : list (string * json.value)) : Z :=
    match l with
    | [] => 0
    | m :: l' => Z.max (nesting (snd m)) (deepest l')
    end.

(** The text of the elements of an array and of the members of an object,
    as [render] writes them between the brackets. *)
Definition renderElements : list json.value -> string :=
  fix go (l : list json.value) : string :=
    match l with
    | [] => ""
    | x :: l' =>
      json.render x +:+ match l' with [] => "" | _ => "," +:+ go l' end
    end.

Definition renderMembers : list (string * json.value) -> string :=
  fix go (l : list (string * json.value)) : string :=
    match l with
    | [] => ""
    | (k, x) :: l' =>
      json.appendString k +:+ ":" +:+ json.render x +:+
      match l' with [] => "" | _ => "," +:+ go l' end
    end.

(** ** Vocabulary of the round trip of an [Event] *)

(** The documents a field contributes to the object of its struct: none
    when the field is omitted, else the encoding of what it holds. *)
Definition fieldDocuments {T : Type} (f : json.field T) (v : T) : list json.value :=
  if json.omitEmpty f && @json.isEmptyValue _ (json.fcodec f) (json.get f v) then []
  else
    match @json.encode _ (json.fcodec f) (json.get f v) with
    | inr j => [j]
    | inl _ => []
    end.

(** Storing the documents of the field into a zero variable gives back
    what the field holds, without error. *)
Definition fieldRoundTrip {T : Type} (f : json.field T) (v : T) : Prop :=
  (forall e, @json.encode _ (json.fcodec f) (json.get f v) <> inl e) /\
  storeAll (json.fcodec f) (fieldDocuments f v) (@json.zeroValue _ (json.fcodec f)) =
    json.get f v /\
  forall x u, In x (fieldDocuments f v) -> snd (@json.decode _ (json.fcodec f) x u) = None.

Definition int64 (n : Z) : Prop := - 2 ^ 63 <= n <= 2 ^ 63 - 1.

Section round_trip_statements.
Context {W : World}.

(** A resource and an event without tags, whose strings are valid UTF-8
    and whose integers are integers of 64 bits. *)
Definition plainResource (r : Resource) : Prop :=
  utf8.ValidString (ResourceName r) = true /\
  utf8.ValidString (ResourceType r) = true /\
  utf8.ValidString (ResourceInstance r) = true /\
  ResourceTags r = None.

Definition plainEvent (e : Event) : Prop :=
  utf8.ValidString (EventType e) = true /\
  int64 (EventTimestamp e) /\
  utf8.ValidString (Severity e) = true /\
  utf8.ValidString (Category e) = true /\
  utf8.ValidString (Subject e) = true /\
  utf8.ValidString (Body e) = true /\
  int64 (Priority e) /\
  Tags e = None /\
  match EventResource e with
  | Some r => plainResource r
  | None => True
  end.
End round_trip_statements.

(** An event with a resource, and with characters that [json.Marshal]
    escapes. *)
Definition deployEvent (W : World) : @Event W :=
  @mkEvent W "Deploy" 1700000000 "WARNING" "ALERT" "deploy <failed> & rolled back" "" (-3)
    None (Some (@mkResource W "pipeline" "job" "" None)).

(** * Properties *)

(** ** The level mapping *)

Lemma TranslateLogrusLogLevel_unfold (level : logrus.Level) :
  TranslateLogrusLogLevel level =
  if level =? logrus.InfoLevel then (infoSeverity, notificationCategory)
  else if level =? logrus.DebugLevel then (infoSeverity, notificationCategory)
  else if level =? logrus.WarnLevel then (warningSeverity, alertCategory)
  else if level =? logrus.ErrorLevel then (errorSeverity, exceptionCategory)
  else if level =? logrus.FatalLevel then (fatalSeverity, exceptionCategory)
  else if level =? logrus.PanicLevel then (fatalSeverity, exceptionCategory)
  else (infoSeverity, notificationCategory).
Proof. reflexivity. Qed.

Ltac level_cases level :=
  rewrite ?TranslateLogrusLogLevel_unfold in *;
  unfold logrus.InfoLevel, logrus.DebugLevel, logrus.WarnLevel, logrus.ErrorLevel,
    logrus.FatalLevel, logrus.PanicLevel, logrus.TraceLevel in *;
  repeat match goal with
         | |- context [level =? ?c] => destruct (Z.eqb_spec level c)
         | H : context [level =? ?c] |- _ => destruct (Z.eqb_spec level c)
         end.

(** C3: [TranslateLogrusLogLevel] is a function of the level alone, defined
    on every level: Info and Debug give (INFO, NOTIFICATION), Warn gives
    (WARNING, ALERT), Error gives (ERROR, EXCEPTION), Fatal and Panic give
    (FATAL, EXCEPTION), and every level (every value of the underlying
    integer type, Trace included) is one of these six or gives the default
    (INFO, NOTIFICATION). *)
Theorem TranslateLogrusLogLevel_table :
  TranslateLogrusLogLevel logrus.InfoLevel = (infoSeverity, notificationCategory) /\
  TranslateLogrusLogLevel logrus.DebugLevel = (infoSeverity, notificationCategory) /\
  TranslateLogrusLogLevel logrus.WarnLevel = (warningSeverity, alertCategory) /\
  TranslateLogrusLogLevel logrus.ErrorLevel = (errorSeverity, exceptionCategory) /\
  TranslateLogrusLogLevel logrus.FatalLevel = (fatalSeverity, exceptionCategory) /\
  TranslateLogrusLogLevel logrus.PanicLevel = (fatalSeverity, exceptionCategory) /\
  TranslateLogrusLogLevel logrus.TraceLevel = (infoSeverity, notificationCategory) /\
  forall level : logrus.Level,
    explicitly_listed level \/
    TranslateLogrusLogLevel level = (infoSeverity, notificationCategory).
Proof.
  repeat split; try reflexivity.
  intros level. unfold explicitly_listed. cbn [map fst switch_arms].
  level_cases level; subst; simpl; auto 10.
Qed.

(** C10: no level is given the severity NOTICE: the result is always one of
    the four pairs (INFO, NOTIFICATION), (WARNING, ALERT), (ERROR,
    EXCEPTION), (FATAL, EXCEPTION), and each of the four is the result for
    some level. *)
Theorem TranslateLogrusLogLevel_never_notice :
  (forall level : logrus.Level,
     fst (TranslateLogrusLogLevel level) <> noticeSeverity /\
     (TranslateLogrusLogLevel level = (infoSeverity, notificationCategory) \/
      TranslateLogrusLogLevel level = (warningSeverity, alertCategory) \/
      TranslateLogrusLogLevel level = (errorSeverity, exceptionCategory) \/
      TranslateLogrusLogLevel level = (fatalSeverity, exceptionCategory))) /\
  maps_to (infoSeverity, notificationCategory) logrus.InfoLevel /\
  maps_to (warningSeverity, alertCategory) logrus.WarnLevel /\
  maps_to (errorSeverity, exceptionCategory) logrus.ErrorLevel /\
  maps_to (fatalSeverity, exceptionCategory) logrus.FatalLevel.
Proof.
  split; [| repeat split; reflexivity].
  intros level. level_cases level; (split; [discriminate | auto]).
Qed.

(** The levels behind each result of the mapping. *)
Lemma maps_to_warning (level : logrus.Level) :
  maps_to (warningSeverity, alertCategory) level <-> level = logrus.WarnLevel.
Proof.
  unfold maps_to. split; [| intros ->; reflexivity].
  level_cases level; intros H; try discriminate H; assumption.
Qed.

Lemma maps_to_error (level : logrus.Level) :
  maps_to (errorSeverity, exceptionCategory) level <-> level = logrus.ErrorLevel.
Proof.
  unfold maps_to. split; [| intros ->; reflexivity].
  level_cases level; intros H; try discriminate H; assumption.
Qed.

Lemma maps_to_fatal (level : logrus.Level) :
  maps_to (fatalSeverity, exceptionCategory) level <->
  level = logrus.FatalLevel \/ level = logrus.PanicLevel.
Proof.
  unfold maps_to. split; [| intros [-> | ->]; reflexivity].
  level_cases level; intros H; try discriminate H; auto.
Qed.

Lemma listed_maps_to_info (level : logrus.Level) :
  explicitly_listed level /\ maps_to (infoSeverity, notificationCategory) level <->
  level = logrus.InfoLevel \/ level = logrus.DebugLevel.
Proof.
  unfold maps_to, explicitly_listed. cbn [map fst switch_arms]. split.
  - intros [Hin H]. level_cases level; try discriminate H; auto.
    simpl in Hin. unfold logrus.InfoLevel, logrus.DebugLevel, logrus.WarnLevel,
      logrus.ErrorLevel, logrus.FatalLevel, logrus.PanicLevel in Hin. lia.
  - intros [-> | ->]; (split; [simpl; auto | reflexivity]).
Qed.

(** C9, as the specification counts the levels: refuted.  Only one level
    gives (WARNING, ALERT), so there are no two. *)
Lemma specified_counts_fail : ~ specified_counts.
Proof.
  intros (_ & (a & b & Hab & Ha & Hb & _) & _).
  apply maps_to_warning in Ha, Hb. congruence.
Qed.

(** C9, amended: the levels listed in the [switch] with the default pair
    (INFO, NOTIFICATION) are exactly the two levels Info and Debug; exactly
    one level, Warn, gives (WARNING, ALERT); exactly one level, Error, gives
    (ERROR, EXCEPTION); exactly the two levels Fatal and Panic give (FATAL,
    EXCEPTION). *)
Theorem mapping_counts :
  (forall level, explicitly_listed level /\
                 maps_to (infoSeverity, notificationCategory) level <->
                 level = logrus.InfoLevel \/ level = logrus.DebugLevel) /\
  logrus.InfoLevel <> logrus.DebugLevel /\
  (forall level, maps_to (warningSeverity, alertCategory) level <->
                 level = logrus.WarnLevel) /\
  (forall level, maps_to (errorSeverity, exceptionCategory) level <->
                 level = logrus.ErrorLevel) /\
  (forall level, maps_to (fatalSeverity, exceptionCategory) level <->
                 level = logrus.FatalLevel \/ level = logrus.PanicLevel) /\
  logrus.FatalLevel <> logrus.PanicLevel.
Proof.
  split; [exact listed_maps_to_info |].
  split; [discriminate |].
  split; [exact maps_to_warning |].
  split; [exact maps_to_error |].
  split; [exact maps_to_fatal | discriminate].
Qed.

(** ** Strings *)

Lemma append_assoc (a b c : string) : (a +:+ b) +:+ c = a +:+ (b +:+ c).
Proof. induction a as [| x a IH]; simpl; [reflexivity | f_equal; exact IH]. Qed.

Lemma append_nil_r (a : string) : a +:+ "" = a.
Proof. induction a as [| x a IH]; simpl; [reflexivity | f_equal; exact IH]. Qed.

Lemma Contains_here (sub after : string) : Contains (sub +:+ after) sub.
Proof. exists "", after. reflexivity. Qed.

Lemma Contains_end (sub : string) : Contains sub sub.
Proof. exists "", "". simpl. now rewrite append_nil_r. Qed.

Lemma Contains_app_r (a b sub : string) : Contains b sub -> Contains (a +:+ b) sub.
Proof.
  intros (before & after & ->). exists (a +:+ before), after.
  now rewrite append_assoc.
Qed.

Lemma Contains_app_l (a b sub : string) : Contains a sub -> Contains (a +:+ b) sub.
Proof.
  intros (before & after & ->). exists before, (after +:+ b).
  now rewrite !append_assoc.
Qed.

Create HintDb contains.
#[local] Hint Resolve Contains_here Contains_end Contains_app_r Contains_app_l : contains.

(** ** [Send] *)
Section Send_properties.
Context {W : World}.

Lemma statusCodeError_message (url : string) (status : Z) :
  Error (fmt.Errorf
    "ANS http request to '%s' failed. Did not get expected status code %d; instead got %d"
    [fmt.Str url; fmt.Int http.StatusAccepted; fmt.Int status]) =
  statusMessage url status.
Proof.
  unfold statusMessage, fmt.Errorf. cbn [Error].
  transitivity
    ("ANS http request to '" +:+ url +:+
     "' failed. Did not get expected status code 202; instead got " +:+
     strconv.FormatInt status +:+ ""); [reflexivity |].
  now rewrite append_nil_r.
Qed.

Lemma responseBody_message (a b : string) :
  fmt.Errorf "%s; response body: %s" [fmt.Str a; fmt.Str b] =
  errorString (a +:+ "; response body: " +:+ b).
Proof.
  unfold fmt.Errorf. f_equal.
  transitivity (a +:+ "; response body: " +:+ b +:+ ""); [reflexivity |].
  now rewrite append_nil_r.
Qed.

Lemma readingFailed_message (cause : error) (a : string) :
  errors.Wrapf cause "%s; reading response body failed" [fmt.Str a] =
  withStack (withMessage cause (a +:+ "; reading response body failed")).
Proof. reflexivity. Qed.

Lemma built_header (header : http.Header) :
  http.Add (http.Add http.makeHeader authHeaderKey (http.Get header authHeaderKey))
    "Content-Type" "application/json" =
  {[ "Authorization" := [http.Get header "Authorization"];
     "Content-Type" := ["application/json"] ]}.
Proof.
  unfold http.Add, http.makeHeader, authHeaderKey.
  change (http.CanonicalMIMEHeaderKey "Authorization") with "Authorization".
  change (http.CanonicalMIMEHeaderKey "Content-Type") with "Content-Type".
  rewrite lookup_empty. simpl.
  rewrite lookup_insert_ne by discriminate. rewrite lookup_empty. simpl.
  rewrite insert_insert_ne by discriminate. now rewrite insert_empty.
Qed.

#[local] Arguments fmt.Sprintf : simpl never.
#[local] Arguments fmt.Errorf : simpl never.
#[local] Arguments Error : simpl never.
#[local] Arguments errors.Wrapf : simpl never.
#[local] Arguments statusMessage : simpl never.

Lemma Error_wrapped (cause : error) (msg : string) :
  Error (withStack (withMessage cause msg)) = msg +:+ ": " +:+ Error cause.
Proof. reflexivity. Qed.

Lemma Error_errorString (msg : string) : Error (errorString msg) = msg.
Proof. reflexivity. Qed.

Lemma runSend_cases (ans : ANS) (event : Event) :
  SendRun ans event (fst (runSend ans event)) (snd (runSend ans event)).
Proof.
  unfold runSend, Send, bind, ret, call_SetAuthHeaderIfNotPresent, call_NewRequest,
    call_Do, call_ReadResponseBody, record, NewRequest.
  destruct (json.Marshal event) as [err | body] eqn:HM; simpl.
  { now apply RunMarshalFails. }
  change http.makeHeader with (∅ : http.Header).
  destruct (SetAuthHeaderIfNotPresent (ans_XSUAA ans) ∅) as [err | header] eqn:HA; simpl.
  { now apply RunAuthFails with body. }
  change http.MethodPost with "POST".
  destruct (url_Parse (URL ans +:+ eventPath)) as [err |] eqn:HU; simpl.
  { now apply RunNewRequestFails. }
  unfold http.withHeader; simpl.
  change (∅ : http.Header) with http.makeHeader at 3.
  rewrite built_header.
  change (http.mkRequest "POST" (URL ans +:+ eventPath)
            {[ "Authorization" := [http.Get header "Authorization"];
               "Content-Type" := ["application/json"] ]} body)
    with (builtRequest ans header body).
  destruct (client_Do (builtRequest ans header body)) as [err | response] eqn:HD; simpl.
  { now apply RunDoFails. }
  destruct (Z.eqb_spec (http.StatusCode response) http.StatusAccepted) as [Heq | Hne]; simpl.
  { now apply RunAccepted. }
  rewrite statusCodeError_message.
  pose proof (RunRefused ans event body header response
                (ReadResponseBody response) HM HA HU HD Hne eq_refl) as R.
  destruct (ReadResponseBody response) as [cause | responseBody]; simpl.
  - rewrite readingFailed_message. exact R.
  - rewrite responseBody_message. exact R.
Qed.

Ltac send_cases ans event :=
  destruct (runSend_cases ans event); cbn [In] in *;
  repeat match goal with
         | H : _ \/ _ |- _ => destruct H
         | H : False |- _ => destruct H
         | H : @eq Call _ _ |- _ => first [discriminate H | injection H as ? ?; subst]
         end.

(** C1: when the POST of a call to [Send] received a response, [Send]
    returns nil exactly when the status code of the response is 202, and
    returns an error for any other status code. *)
Theorem Send_nil_iff_accepted (ans : ANS) (event : Event)
    (request : http.Request) (response : http.Response) :
  In (CallDo request (inr response)) (snd (runSend ans event)) ->
  (fst (runSend ans event) = None <-> http.StatusCode response = 202) /\
  (http.StatusCode response <> 202 -> exists err, fst (runSend ans event) = Some err).
Proof.
  intros Hin. send_cases ans event.
  - split; [tauto | congruence].
  - split; [split; [discriminate | congruence] | eauto].
Qed.

(** C4: when the response of a call to [Send] has a status other than 202,
    [Send] reads the body of the response.  If that gives the body, the
    message of the returned error holds the URL of the request, the expected
    status 202, the status received and the body.  If that fails, the message
    holds the URL, 202, the status received and the note that reading the
    body failed, and the returned error wraps the error of the read as its
    cause. *)
Theorem Send_refused_message (ans : ANS) (event : Event)
    (request : http.Request) (response : http.Response) :
  In (CallDo request (inr response)) (snd (runSend ans event)) ->
  http.StatusCode response <> 202 ->
  http.reqURL request = URL ans +:+ "/cf/producer/v1/resource-events" /\
  In (CallReadResponseBody response (ReadResponseBody response))
     (snd (runSend ans event)) /\
  exists err, fst (runSend ans event) = Some err /\
    Contains (Error err) (http.reqURL request) /\
    Contains (Error err) "202" /\
    Contains (Error err) (strconv.FormatInt (http.StatusCode response)) /\
    match ReadResponseBody response with
    | inr responseBody =>
      Error err =
        statusMessage (http.reqURL request) (http.StatusCode response) +:+
        "; response body: " +:+ responseBody /\
      Contains (Error err) responseBody
    | inl cause =>
      Error err =
        statusMessage (http.reqURL request) (http.StatusCode response) +:+
        "; reading response body failed" +:+ ": " +:+ Error cause /\
      Contains (Error err) "reading response body failed" /\
      Contains (Error err) (Error cause) /\
      (exists inner, errors.Unwrap err = Some inner /\ errors.Unwrap inner = Some cause) /\
      errors.Cause err = errors.Cause cause
    end.
Proof.
  intros Hin Hstatus. send_cases ans event; [congruence |].
  split; [reflexivity |]. split; [auto 6 |].
  eexists. split; [reflexivity |].
  set (url := URL ans +:+ eventPath).
  set (code := strconv.FormatInt (http.StatusCode response)).
  assert (Hurl : forall rest,
    Contains (statusMessage url (http.StatusCode response) +:+ rest) url).
  { intros rest. exists "ANS http request to '". eexists.
    unfold statusMessage. rewrite !append_assoc. reflexivity. }
  assert (H202 : forall rest,
    Contains (statusMessage url (http.StatusCode response) +:+ rest) "202").
  { intros rest.
    exists ("ANS http request to '" +:+ url +:+
            "' failed. Did not get expected status code "). eexists.
    unfold statusMessage. rewrite !append_assoc. reflexivity. }
  assert (Hcode : forall rest,
    Contains (statusMessage url (http.StatusCode response) +:+ rest) code).
  { intros rest.
    exists ("ANS http request to '" +:+ url +:+
            "' failed. Did not get expected status code 202; instead got ").
    exists rest. unfold statusMessage. rewrite !append_assoc. reflexivity. }
  change (http.reqURL (builtRequest ans header body)) with url.
  destruct (ReadResponseBody response) as [cause | responseBody];
    rewrite ?Error_wrapped, ?Error_errorString; cbn [errors.Unwrap errors.Cause];
    rewrite ?append_assoc.
  - split; [apply Hurl |]. split; [apply H202 |]. split; [apply Hcode |].
    split; [reflexivity |].
    split.
    { exists (statusMessage url (http.StatusCode response) +:+ "; "), (": " +:+ Error cause).
      now rewrite !append_assoc. }
    split.
    { exists (statusMessage url (http.StatusCode response) +:+
              "; reading response body failed: "), "".
      now rewrite !append_assoc, append_nil_r. }
    split; [eauto | reflexivity].
  - split; [apply Hurl |]. split; [apply H202 |]. split; [apply Hcode |].
    split; [reflexivity |].
    exists (statusMessage url (http.StatusCode response) +:+ "; response body: "), "".
    now rewrite !append_assoc, append_nil_r.
Qed.

(** C5: when the provider of the authorization header fails in a call to
    [Send], [Send] returns the provider's error, and the call to the
    provider is the only call made: no request is built and none is
    sent. *)
Theorem Send_auth_failure (ans : ANS) (event : Event)
    (x : XSUAA) (header : http.Header) (err : error) :
  In (CallSetAuthHeaderIfNotPresent x header (inl err)) (snd (runSend ans event)) ->
  fst (runSend ans event) = Some err /\
  snd (runSend ans event) = [CallSetAuthHeaderIfNotPresent x header (inl err)] /\
  (forall method url body answer,
     ~ In (CallNewRequest method url body answer) (snd (runSend ans event))) /\
  (forall request answer, ~ In (CallDo request answer) (snd (runSend ans event))).
Proof.
  intros Hin. send_cases ans event.
  repeat split; try reflexivity; intros; simpl; intros [H' | []]; discriminate H'.
Qed.

(** C7: in a call to [Send] that reaches the construction of the request,
    the request is built for the method POST, the URL made of the configured
    URL followed by "/cf/producer/v1/resource-events", and the JSON text of
    the event as body; the provider has been asked first and has given a
    header; and the request handed to the client, which is handed over as
    soon as the construction succeeds, carries exactly an Authorization
    header with the value of the provider's header and a Content-Type header
    "application/json". *)
Theorem Send_request (ans : ANS) (event : Event)
    (method url body : string) (answer : error + http.Request) :
  In (CallNewRequest method url body answer) (snd (runSend ans event)) ->
  method = "POST" /\
  url = URL ans +:+ "/cf/producer/v1/resource-events" /\
  json.Marshal event = inr body /\
  exists header,
    SetAuthHeaderIfNotPresent (ans_XSUAA ans) http.makeHeader = inr header /\
    (forall request, answer = inr request ->
       exists doAnswer,
         In (CallDo
               (http.mkRequest "POST" (URL ans +:+ "/cf/producer/v1/resource-events")
                  {[ "Authorization" := [http.Get header "Authorization"];
                     "Content-Type" := ["application/json"] ]}
                  body)
               doAnswer)
            (snd (runSend ans event))) /\
    (forall request doAnswer,
       In (CallDo request doAnswer) (snd (runSend ans event)) ->
       http.reqMethod request = "POST" /\
       http.reqURL request = URL ans +:+ "/cf/producer/v1/resource-events" /\
       http.reqHeader request =
         {[ "Authorization" := [http.Get header "Authorization"];
            "Content-Type" := ["application/json"] ]} /\
       http.reqBody request = body).
Proof.
  intros Hin. send_cases ans event;
    (split; [reflexivity |]; split; [reflexivity |]; split; [assumption |];
     exists header; split; [assumption |]; split;
     [ intros request Hr; first [discriminate Hr | eexists; unfold builtRequest; simpl; eauto 6]
     | intros request doAnswer Hdo; simpl in Hdo;
       repeat match goal with
              | H : _ \/ _ |- _ => destruct H
              | H : False |- _ => destruct H
              | H : @eq Call _ _ |- _ => first [discriminate H | injection H as ? ?; subst]
              end; repeat split ]).
Qed.
End Send_properties.

(** The backend answers 202: [Send] returns nil. *)
Lemma Send_nil_iff_accepted_witness :
  In (CallDo exampleRequest (inr (http.mkResponse 202 0)))
     (snd (@runSend acceptingWorld (exampleANS _ _ _) (exampleEvent _))) /\
  ((fst (@runSend acceptingWorld (exampleANS _ _ _) (exampleEvent _)) = None <->
    http.StatusCode (http.mkResponse 202 0) = 202) /\
   (http.StatusCode (http.mkResponse 202 0) <> 202 ->
    exists err, fst (@runSend acceptingWorld (exampleANS _ _ _) (exampleEvent _)) = Some err)).
Proof.
  assert (H : In (CallDo exampleRequest (inr (http.mkResponse 202 0)))
                (snd (@runSend acceptingWorld (exampleANS _ _ _) (exampleEvent _)))).
  { do 2 right; left; reflexivity. }
  split; [exact H |].
  exact (@Send_nil_iff_accepted acceptingWorld _ _ _ _ H).
Defined.

(** The backend answers 500 with the body "server error"; and the same
    with a body that cannot be read. *)
Lemma Send_refused_message_witness :
  (In (CallDo exampleRequest (inr (http.mkResponse 500 0)))
      (snd (@runSend refusingWorld (exampleANS _ _ _) (exampleEvent _))) /\
   http.StatusCode (http.mkResponse 500 0) <> 202) /\
  (exists err,
     fst (@runSend refusingWorld (exampleANS _ _ _) (exampleEvent _)) = Some err /\
     Contains (Error err) "https://ans.example/cf/producer/v1/resource-events" /\
     Contains (Error err) "202" /\
     Contains (Error err) "500" /\
     Contains (Error err) "server error") /\
  In (CallDo exampleRequest (inr (http.mkResponse 500 0)))
     (snd (@runSend unreadableWorld (exampleANS _ _ _) (exampleEvent _))) /\
  (exists err,
     fst (@runSend unreadableWorld (exampleANS _ _ _) (exampleEvent _)) = Some err /\
     Contains (Error err) "500" /\
     Contains (Error err) "reading response body failed" /\
     errors.Cause err = errorString "unexpected EOF").
Proof.
  assert (H : In (CallDo exampleRequest (inr (http.mkResponse 500 0)))
                (snd (@runSend refusingWorld (exampleANS _ _ _) (exampleEvent _)))).
  { do 2 right; left; reflexivity. }
  assert (H' : In (CallDo exampleRequest (inr (http.mkResponse 500 0)))
                 (snd (@runSend unreadableWorld (exampleANS _ _ _) (exampleEvent _)))).
  { do 2 right; left; reflexivity. }
  assert (S : http.StatusCode (http.mkResponse 500 0) <> 202) by discriminate.
  split; [split; [exact H | exact S] |].
  split.
  - destruct (@Send_refused_message refusingWorld _ _ _ _ H S)
      as (_ & _ & err & He & Hu & H2 & Hc & _ & Hb).
    exists err. repeat split; assumption.
  - split; [exact H' |].
    destruct (@Send_refused_message unreadableWorld _ _ _ _ H' S)
      as (_ & _ & err & He & _ & _ & Hc & _ & Hr & _ & _ & Hcause).
    exists err. repeat split; assumption.
Defined.

(** The provider has no token: its error comes back and nothing is sent. *)
Lemma Send_auth_failure_witness :
  In (CallSetAuthHeaderIfNotPresent (tt : @XSUAA noTokenWorld) ∅ (inl tokenError))
     (snd (@runSend noTokenWorld (exampleANS _ _ _) (exampleEvent _))) /\
  fst (@runSend noTokenWorld (exampleANS _ _ _) (exampleEvent _)) = Some tokenError /\
  (forall request answer,
     ~ In (CallDo request answer)
          (snd (@runSend noTokenWorld (exampleANS _ _ _) (exampleEvent _)))).
Proof.
  assert (H : In (CallSetAuthHeaderIfNotPresent (tt : @XSUAA noTokenWorld) ∅ (inl tokenError))
                (snd (@runSend noTokenWorld (exampleANS _ _ _) (exampleEvent _)))).
  { left; reflexivity. }
  split; [exact H |].
  destruct (@Send_auth_failure noTokenWorld _ _ _ _ _ H) as (Hr & _ & _ & Hd).
  split; [exact Hr | exact Hd].
Defined.

(** The request for the example event. *)
Lemma Send_request_witness :
  In (CallNewRequest "POST" "https://ans.example/cf/producer/v1/resource-events"
        exampleBody
        (inr (http.mkRequest "POST" "https://ans.example/cf/producer/v1/resource-events"
                ∅ exampleBody)))
     (snd (@runSend acceptingWorld (exampleANS _ _ _) (exampleEvent _))) /\
  @json.Marshal _ (@Event_codec acceptingWorld) (exampleEvent _) = inr exampleBody /\
  forall request doAnswer,
    In (CallDo request doAnswer)
       (snd (@runSend acceptingWorld (exampleANS _ _ _) (exampleEvent _))) ->
    request = exampleRequest.
Proof.
  assert (H : In (CallNewRequest "POST" "https://ans.example/cf/producer/v1/resource-events"
                    exampleBody
                    (inr (http.mkRequest "POST"
                            "https://ans.example/cf/producer/v1/resource-events"
                            ∅ exampleBody)))
                (snd (@runSend acceptingWorld (exampleANS _ _ _) (exampleEvent _)))).
  { right; left; reflexivity. }
  split; [exact H |].
  destruct (@Send_request acceptingWorld _ _ _ _ _ _ H)
    as (_ & _ & Hm & header & Hh & _ & Hdo).
  split; [exact Hm |].
  intros request doAnswer Hin.
  destruct (Hdo request doAnswer Hin) as (H1 & H2 & H3 & H4).
  assert (Hheader : header = {[ "Authorization" := ["Bearer token"] ]}).
  { assert (Hs : @SetAuthHeaderIfNotPresent acceptingWorld
                   (ans_XSUAA (exampleANS _ _ _)) http.makeHeader =
                 inr {[ "Authorization" := ["Bearer token"] ]}) by reflexivity.
    pose proof (eq_trans (eq_sym Hs) Hh) as E. injection E as <-. reflexivity. }
  subst header. destruct request as [m u h b]. simpl in *. subst.
  reflexivity.
Defined.

(** ** Encoding of structs *)
Section encoding.
Context {T : Type}.
Implicit Types (fields : list (json.field T)) (v : T).



End encoding.






Ltac in_cases H :=
  simpl in H;
  repeat match type of H with
         | _ \/ _ => destruct H as [H | H]; [subst |]
         | False => destruct H
         end.

(** ** Serialization of [Event] and [Resource] *)
Section serialization.
Context {W : World}.



Lemma Event_fields_distinct : distinctNames Event_fields.
Proof.
  intros f g Hf Hg. unfold Event_fields in Hf, Hg.
  in_cases Hf; in_cases Hg; intros E; first [reflexivity | discriminate E].
Qed.

Lemma Resource_fields_distinct : distinctNames Resource_fields.
Proof.
  intros f g Hf Hg. unfold Resource_fields in Hf, Hg.
  in_cases Hf; in_cases Hg; intros E; first [reflexivity | discriminate E].
Qed.







End serialization.


(** ** Decoding into structs *)
Section decoding.
Context {T : Type}.
Implicit Types (fields : list (json.field T)) (v : T).

Lemma findField_In fields key f :
  json.findField fields key = Some f -> In f fields.
Proof.
  unfold json.findField.
  destruct (find _ fields) as [g |] eqn:E1.
  - intros [= <-]. now apply find_some in E1.
  - intros E2. now apply find_some in E2.
Qed.

(** A field that no member selects is left as it is. *)
Lemma decodeMembers_absent fields ms v saved f :
  fieldsOfRecord fields -> In f fields ->
  (forall key g, In key (map fst ms) -> json.findField fields key = Some g ->
     json.name g <> json.name f) ->
  json.get f (fst (json.decodeMembers fields ms v saved)) = json.get f v.
Proof.
  intros [_ Hother] Hf. revert v saved.
  induction ms as [| [key x] ms IH]; intros v saved Habs; [reflexivity |].
  cbn [json.decodeMembers].
  assert (Habs' : forall key g, In key (map fst ms) ->
                   json.findField fields key = Some g -> json.name g <> json.name f).
  { intros key' g Hin. apply Habs. now right. }
  destruct (json.findField fields key) as [g |] eqn:Hg.
  - destruct (json.decode x (json.get g v)) as [y err].
    rewrite IH by exact Habs'.
    apply Hother; [exact Hf | now apply findField_In in Hg |].
    intros E. apply (Habs key g); [now left | exact Hg | now symmetry].
  - now apply IH.
Qed.

(** A field holds what its last member stored into it. *)
Lemma decodeMembers_last fields ms1 key x ms2 v saved f :
  fieldsOfRecord fields ->
  json.findField fields key = Some f ->
  (forall key' g, In key' (map fst ms2) -> json.findField fields key' = Some g ->
     json.name g <> json.name f) ->
  json.get f (fst (json.decodeMembers fields (ms1 ++ (key, x) :: ms2) v saved)) =
  fst (@json.decode _ (json.fcodec f) x
         (json.get f (fst (json.decodeMembers fields ms1 v saved)))).
Proof.
  intros Hrec Hkey Habs. revert v saved.
  induction ms1 as [| [key1 x1] ms1 IH]; intros v saved.
  - cbn [app json.decodeMembers fst]. rewrite Hkey.
    destruct (json.decode x (json.get f v)) as [y err] eqn:Hd.
    rewrite decodeMembers_absent;
      [| exact Hrec | now apply findField_In in Hkey | exact Habs].
    cbn [fst]. apply (proj1 Hrec). now apply findField_In in Hkey.
  - cbn [app json.decodeMembers].
    destruct (json.findField fields key1) as [g |].
    + destruct (json.decode x1 (json.get g v)) as [y err]. apply IH.
    + apply IH.
Qed.
End decoding.

Lemma decodeEntries_lookup {T : Type} (C : json.Codec T) ms (m : gmap string T) saved key :
  (~ In key (map fst ms) ->
   fst (json.decodeEntries C ms m saved) !! key = m !! key) /\
  (In key (map fst ms) ->
   is_Some (fst (json.decodeEntries C ms m saved) !! key)).
Proof.
  revert m saved. induction ms as [| [k x] ms IH]; intros m saved.
  - split; [reflexivity | intros []].
  - cbn [json.decodeEntries].
    destruct (json.decode x json.zeroValue) as [y err].
    destruct (IH (<[k := y]> m) (json.saveError saved err)) as [IHout IHin].
    destruct (in_dec string_dec key (map fst ms)) as [Hin | Hout].
    + split; [intros Hn; exfalso; apply Hn; now right | intros _; now apply IHin].
    + split.
      * intros Hn. rewrite IHout by exact Hout.
        apply lookup_insert_ne. intros ->. apply Hn. now left.
      * intros [Hk | Hin]; [| contradiction]. simpl in Hk. subst k.
        rewrite IHout by exact Hout. rewrite lookup_insert_eq. eauto.
Qed.

(** ** [MergeWithJSON] *)
Section merge.
Context {W : World}.

Lemma Event_fields_record : fieldsOfRecord Event_fields.
Proof.
  split.
  - intros f Hf. unfold Event_fields in Hf. in_cases Hf; reflexivity.
  - intros f g Hf Hg. unfold Event_fields in Hf, Hg.
    in_cases Hf; in_cases Hg; intros Hne y v; first [reflexivity | now destruct Hne].
Qed.

Lemma Resource_fields_record : fieldsOfRecord Resource_fields.
Proof.
  split.
  - intros f Hf. unfold Resource_fields in Hf. in_cases Hf; reflexivity.
  - intros f g Hf Hg. unfold Resource_fields in Hf, Hg.
    in_cases Hf; in_cases Hg; intros Hne y v; first [reflexivity | now destruct Hne].
Qed.

(** What [MergeWithJSON] leaves in the caller's [Event]. *)
Lemma MergeWithJSON_event (event : Event) (eventJSON : string) :
  fst (MergeWithJSON event eventJSON) =
  match json.parse eventJSON with
  | Some (json.JObject ms) => fst (json.decodeMembers Event_fields ms event None)
  | _ => event
  end.
Proof.
  unfold MergeWithJSON, json.Unmarshal.
  destruct (json.parse eventJSON) as [x |]; [| reflexivity].
  cbn [json.decode json.pointerCodec].
  destruct x; try reflexivity.
  cbn [json.decode Event_codec json.structCodec default]. unfold id.
  destruct (json.decodeMembers Event_fields members0 event None) as [e [err |]]; reflexivity.
Qed.

Lemma selected_name key f :
  json.findField Event_fields key = Some f -> selected key = Some (json.name f).
Proof. unfold selected. now intros ->. Qed.

Lemma selected_field key name :
  selected key = Some name ->
  exists f, json.findField Event_fields key = Some f /\ json.name f = name.
Proof.
  unfold selected. destruct (json.findField Event_fields key) as [f |]; [| discriminate].
  intros [= <-]. eauto.
Qed.

Lemma not_selected (ms : list (string * json.value)) name :
  (forall key, In key (map fst ms) -> selected key <> Some name) ->
  forall key g, In key (map fst ms) -> json.findField Event_fields key = Some g ->
    json.name g <> name.
Proof.
  intros H key g Hin Hg E. apply (H key Hin). rewrite (selected_name _ _ Hg). now rewrite E.
Qed.

Lemma members_object (x : json.value) ms1 m ms2 :
  members x = (ms1 ++ m :: ms2)%list -> x = json.JObject (ms1 ++ m :: ms2).
Proof.
  destruct x; simpl; intros H; try (now destruct ms1); now subst.
Qed.

Lemma merged_absent (event : Event) (eventJSON : string) (x : json.value) f :
  json.parse eventJSON = Some x -> In f Event_fields ->
  (forall key, In key (map fst (members x)) -> selected key <> Some (json.name f)) ->
  json.get f (fst (MergeWithJSON event eventJSON)) = json.get f event.
Proof.
  intros Hparse Hf Habs. rewrite MergeWithJSON_event, Hparse.
  destruct x; try reflexivity. simpl in Habs.
  apply decodeMembers_absent; [apply Event_fields_record | exact Hf |].
  now apply not_selected.
Qed.

Lemma merged_last (event : Event) (eventJSON : string) (x : json.value)
    ms1 key y ms2 f :
  json.parse eventJSON = Some x ->
  members x = (ms1 ++ (key, y) :: ms2)%list ->
  json.findField Event_fields key = Some f ->
  (forall key', In key' (map fst ms2) -> selected key' <> Some (json.name f)) ->
  json.get f (fst (MergeWithJSON event eventJSON)) =
  fst (@json.decode _ (json.fcodec f) y
         (json.get f (fst (json.decodeMembers Event_fields ms1 event None)))).
Proof.
  intros Hparse Hmem Hf Hlater. apply members_object in Hmem. subst x.
  rewrite MergeWithJSON_event, Hparse.
  apply decodeMembers_last; [apply Event_fields_record | exact Hf |].
  now apply not_selected.
Qed.

End merge.

(** C2, as the specification states it: refuted.  The event has the tag
    "a", the merge JSON is an object whose only member is [tags] with the
    only entry "b".  [MergeWithJSON] returns no error and the event then
    has both tags: the field [tags], for which the JSON has a member, is not
    overwritten by the JSON's value but merged with it. *)
Lemma merge_keeps_other_tags :
  json.Valid tagsJSON = true /\
  MergeWithJSON taggedEvent tagsJSON =
    (@mkEvent acceptingWorld "" 0 "" "" "" "" 0
       (Some {[ "a" := json.JString "1"; "b" := json.JString "2" ]}) None, None) /\
  Tags (fst (MergeWithJSON (@zeroEvent acceptingWorld) tagsJSON)) =
    Some {[ "b" := json.JString "2" ]} /\
  ~ overwrites_exactly taggedEvent tagsJSON.
Proof.
  split; [reflexivity |]. split; [reflexivity |]. split; [reflexivity |].
  intros H. unfold overwrites_exactly, Event_fields in H.
  specialize (H _ (or_intror (or_intror (or_intror (or_intror (or_intror (or_intror
                     (or_intror (or_introl eq_refl))))))))).
  destruct H as [H _].
  assert (P : @present acceptingWorld "tags" tagsJSON).
  { exists (json.JObject [("tags", json.JObject [("b", json.JString "2")])]), "tags".
    split; [reflexivity |]. split; [simpl; auto | reflexivity]. }
  specialize (H P). vm_compute in H. discriminate H.
Qed.

(** ** Bytes and UTF-8 *)

Lemma byte_range (c : ascii) : 0 <= byte c < 256.
Proof.
  unfold byte. pose proof (N_ascii_bounded c). lia.
Qed.

Lemma chr_byte (c : ascii) : chr (byte c) = c.
Proof.
  unfold chr, byte. rewrite Z.mod_small by (pose proof (N_ascii_bounded c); lia).
  rewrite N2Z.id. apply ascii_N_embedding.
Qed.

Lemma chr_eq (c : ascii) (b : Z) : b = byte c -> chr b = c.
Proof. intros ->. apply chr_byte. Qed.

Lemma lor_add (a b n : Z) :
  0 <= n -> 0 <= b < 2 ^ n -> Z.lor (a * 2 ^ n) b = a * 2 ^ n + b.
Proof.
  intros Hn Hb. symmetry.
  assert (L : Z.land (a * 2 ^ n) b = 0).
  { apply Z.bits_inj'. intros i Hi. rewrite Z.land_spec, Z.bits_0.
    destruct (Z.lt_ge_cases i n) as [Hlt | Hge].
    - now rewrite Z.mul_pow2_bits_low.
    - rewrite <- (Z.mod_small b (2 ^ n)) by exact Hb.
      rewrite Z.mod_pow2_bits_high by lia. apply andb_false_r. }
  rewrite Z.add_nocarry_lxor by exact L. now apply Z.lxor_lor.
Qed.

(** The bit operations of [unicode/utf8] as arithmetic. *)
Lemma land_maskx (x : Z) : Z.land x utf8.maskx = x mod 64.
Proof. apply (Z.land_ones x 6). lia. Qed.

Lemma land_mask2 (x : Z) : Z.land x utf8.mask2 = x mod 32.
Proof. apply (Z.land_ones x 5). lia. Qed.

Lemma land_mask3 (x : Z) : Z.land x utf8.mask3 = x mod 16.
Proof. apply (Z.land_ones x 4). lia. Qed.

Lemma land_mask4 (x : Z) : Z.land x utf8.mask4 = x mod 8.
Proof. apply (Z.land_ones x 3). lia. Qed.

Lemma lor_tx (x : Z) : Z.lor utf8.tx (x mod 64) = 128 + x mod 64.
Proof.
  change utf8.tx with (2 * 2 ^ 6). rewrite lor_add; [reflexivity | lia |].
  change (2 ^ 6) with 64. apply Z.mod_pos_bound. lia.
Qed.

Lemma lor_t2 (x : Z) : 0 <= x < 64 -> Z.lor utf8.t2 x = 192 + x.
Proof. intros H. change utf8.t2 with (3 * 2 ^ 6). now rewrite lor_add. Qed.

Lemma lor_t3 (x : Z) : 0 <= x < 32 -> Z.lor utf8.t3 x = 224 + x.
Proof. intros H. change utf8.t3 with (7 * 2 ^ 5). now rewrite lor_add. Qed.

Lemma lor_t4 (x : Z) : 0 <= x < 16 -> Z.lor utf8.t4 x = 240 + x.
Proof. intros H. change utf8.t4 with (15 * 2 ^ 4). now rewrite lor_add. Qed.

Lemma rune2_arith (s0 s1 : Z) : rune2 s0 s1 = (s0 mod 32) * 64 + s1 mod 64.
Proof.
  unfold rune2. rewrite land_mask2, land_maskx, Z.shiftl_mul_pow2 by lia.
  apply lor_add; [lia |]. change (2 ^ 6) with 64. apply Z.mod_pos_bound. lia.
Qed.

Lemma rune3_arith (s0 s1 s2 : Z) :
  rune3 s0 s1 s2 = (s0 mod 16) * 4096 + (s1 mod 64) * 64 + s2 mod 64.
Proof.
  unfold rune3. rewrite land_mask3, !land_maskx, !Z.shiftl_mul_pow2 by lia.
  pose proof (Z.mod_pos_bound s1 64 ltac:(lia)).
  pose proof (Z.mod_pos_bound s2 64 ltac:(lia)).
  rewrite (lor_add (s0 mod 16) (s1 mod 64 * 2 ^ 6) 12) by lia.
  replace (s0 mod 16 * 2 ^ 12 + s1 mod 64 * 2 ^ 6)
    with ((s0 mod 16 * 64 + s1 mod 64) * 2 ^ 6) by lia.
  rewrite lor_add by lia. lia.
Qed.

Lemma rune4_arith (s0 s1 s2 s3 : Z) :
  rune4 s0 s1 s2 s3 =
  (s0 mod 8) * 262144 + (s1 mod 64) * 4096 + (s2 mod 64) * 64 + s3 mod 64.
Proof.
  unfold rune4. rewrite land_mask4, !land_maskx, !Z.shiftl_mul_pow2 by lia.
  pose proof (Z.mod_pos_bound s1 64 ltac:(lia)).
  pose proof (Z.mod_pos_bound s2 64 ltac:(lia)).
  pose proof (Z.mod_pos_bound s3 64 ltac:(lia)).
  rewrite (lor_add (s0 mod 8) (s1 mod 64 * 2 ^ 12) 18) by lia.
  replace (s0 mod 8 * 2 ^ 18 + s1 mod 64 * 2 ^ 12)
    with ((s0 mod 8 * 64 + s1 mod 64) * 2 ^ 12) by lia.
  rewrite (lor_add _ (s2 mod 64 * 2 ^ 6) 12) by lia.
  replace ((s0 mod 8 * 64 + s1 mod 64) * 2 ^ 12 + s2 mod 64 * 2 ^ 6)
    with (((s0 mod 8 * 64 + s1 mod 64) * 64 + s2 mod 64) * 2 ^ 6) by lia.
  rewrite lor_add by lia. lia.
Qed.

Ltac ztest :=
  repeat match goal with
         | |- context [?a <? ?b] => destruct (Z.ltb_spec a b); try lia
         | |- context [?a <=? ?b] => destruct (Z.leb_spec a b); try lia
         | |- context [?a =? ?b] => destruct (Z.eqb_spec a b); try lia
         end.

Ltac ztest_in H :=
  repeat match type of H with
         | context [?a <? ?b] => destruct (Z.ltb_spec a b); try lia
         | context [?a <=? ?b] => destruct (Z.leb_spec a b); try lia
         | context [?a =? ?b] => destruct (Z.eqb_spec a b); try lia
         end.

Lemma Decode1 (c0 : ascii) (tail : string) :
  byte c0 < 0x80 ->
  utf8.DecodeRuneInString (String c0 tail) = (byte c0, 1%nat).
Proof.
  intros H. unfold utf8.DecodeRuneInString, utf8.first. cbv zeta. ztest. reflexivity.
Qed.

Lemma Decode2 (c0 c1 : ascii) (tail : string) :
  seq2 (byte c0) (byte c1) ->
  utf8.DecodeRuneInString (String c0 (String c1 tail)) =
  (rune2 (byte c0) (byte c1), 2%nat).
Proof.
  intros (H0 & H1). unfold utf8.DecodeRuneInString, utf8.first, utf8.locb, utf8.hicb.
  cbv zeta. ztest. reflexivity.
Qed.

Lemma Decode3 (c0 c1 c2 : ascii) (tail : string) :
  seq3 (byte c0) (byte c1) (byte c2) ->
  utf8.DecodeRuneInString (String c0 (String c1 (String c2 tail))) =
  (rune3 (byte c0) (byte c1) (byte c2), 3%nat).
Proof.
  intros (H0 & H1 & HE0 & HED & H2).
  unfold utf8.DecodeRuneInString, utf8.first, utf8.locb, utf8.hicb.
  cbv zeta. ztest; reflexivity.
Qed.

Lemma Decode4 (c0 c1 c2 c3 : ascii) (tail : string) :
  seq4 (byte c0) (byte c1) (byte c2) (byte c3) ->
  utf8.DecodeRuneInString (String c0 (String c1 (String c2 (String c3 tail)))) =
  (rune4 (byte c0) (byte c1) (byte c2) (byte c3), 4%nat).
Proof.
  intros (H0 & H1 & HF0 & HF4 & H2 & H3).
  unfold utf8.DecodeRuneInString, utf8.first, utf8.locb, utf8.hicb.
  cbv zeta. ztest; reflexivity.
Qed.

Lemma AppendRune2 (c0 c1 : ascii) :
  seq2 (byte c0) (byte c1) ->
  utf8.AppendRune (rune2 (byte c0) (byte c1)) = String c0 (String c1 "") /\
  0x80 <= rune2 (byte c0) (byte c1) < 0x800.
Proof.
  intros (H0 & H1). rewrite rune2_arith.
  set (r := byte c0 mod 32 * 64 + byte c1 mod 64).
  assert (R0 : r / 64 = byte c0 - 192) by (subst r; Z.div_mod_to_equations; lia).
  assert (R1 : r mod 64 = byte c1 - 128) by (subst r; Z.div_mod_to_equations; lia).
  assert (R : 0x80 <= r < 0x800) by (subst r; Z.div_mod_to_equations; lia).
  split; [| exact R].
  unfold utf8.AppendRune, utf8.rune1Max, utf8.rune2Max. ztest; cbn [andb].
  all: rewrite land_maskx, lor_tx, Z.shiftr_div_pow2 by lia; change (2 ^ 6) with 64;
    rewrite lor_t2 by lia;
    (f_equal; [apply chr_eq; lia |]); f_equal; apply chr_eq; lia.
Qed.

Lemma AppendRune3 (c0 c1 c2 : ascii) :
  seq3 (byte c0) (byte c1) (byte c2) ->
  utf8.AppendRune (rune3 (byte c0) (byte c1) (byte c2)) =
  String c0 (String c1 (String c2 "")).
Proof.
  intros (H0 & H1 & HE0 & HED & H2). rewrite rune3_arith.
  set (r := byte c0 mod 16 * 4096 + byte c1 mod 64 * 64 + byte c2 mod 64).
  assert (R0 : r / 4096 = byte c0 - 224) by (subst r; Z.div_mod_to_equations; lia).
  assert (R1 : (r / 64) mod 64 = byte c1 - 128) by (subst r; Z.div_mod_to_equations; lia).
  assert (R2 : r mod 64 = byte c2 - 128) by (subst r; Z.div_mod_to_equations; lia).
  assert (R : 0x800 <= r <= 0xFFFF /\ (r < 0xD800 \/ 0xDFFF < r)).
  { subst r. Z.div_mod_to_equations. lia. }
  unfold utf8.AppendRune, utf8.rune1Max, utf8.rune2Max, utf8.rune3Max,
    utf8.surrogateMin, utf8.surrogateMax.
  ztest; cbn [andb orb].
  all: rewrite !land_maskx, !lor_tx, !Z.shiftr_div_pow2 by lia;
    change (2 ^ 6) with 64; change (2 ^ 12) with 4096;
    rewrite lor_t3 by lia;
    (f_equal; [apply chr_eq; lia |]); (f_equal; [apply chr_eq; lia |]);
    f_equal; apply chr_eq; lia.
Qed.

Lemma AppendRune4 (c0 c1 c2 c3 : ascii) :
  seq4 (byte c0) (byte c1) (byte c2) (byte c3) ->
  utf8.AppendRune (rune4 (byte c0) (byte c1) (byte c2) (byte c3)) =
  String c0 (String c1 (String c2 (String c3 ""))) /\
  0x10000 <= rune4 (byte c0) (byte c1) (byte c2) (byte c3).
Proof.
  intros (H0 & H1 & HF0 & HF4 & H2 & H3). rewrite rune4_arith.
  set (r := byte c0 mod 8 * 262144 + byte c1 mod 64 * 4096 + byte c2 mod 64 * 64
            + byte c3 mod 64).
  assert (R0 : r / 262144 = byte c0 - 240) by (subst r; Z.div_mod_to_equations; lia).
  assert (R1 : (r / 4096) mod 64 = byte c1 - 128) by (subst r; Z.div_mod_to_equations; lia).
  assert (R2 : (r / 64) mod 64 = byte c2 - 128) by (subst r; Z.div_mod_to_equations; lia).
  assert (R3 : r mod 64 = byte c3 - 128) by (subst r; Z.div_mod_to_equations; lia).
  assert (R : 0x10000 <= r <= 0x10FFFF) by (subst r; Z.div_mod_to_equations; lia).
  split; [| lia].
  unfold utf8.AppendRune, utf8.rune1Max, utf8.rune2Max, utf8.rune3Max,
    utf8.surrogateMin, utf8.surrogateMax, utf8.MaxRune.
  ztest; cbn [andb orb].
  all: rewrite !land_maskx, !lor_tx, !Z.shiftr_div_pow2 by lia;
    change (2 ^ 6) with 64; change (2 ^ 12) with 4096; change (2 ^ 18) with 262144;
    rewrite lor_t4 by lia;
    (f_equal; [apply chr_eq; lia |]); (f_equal; [apply chr_eq; lia |]);
    (f_equal; [apply chr_eq; lia |]); f_equal; apply chr_eq; lia.
Qed.

Lemma ValidString_cons (c : ascii) (r0 : string) :
  utf8.ValidString (String c r0) =
  match utf8.DecodeRuneInString (String c r0) with
  | (_, 2%nat) =>
    match r0 with String _ r1 => utf8.ValidString r1 | _ => false end
  | (_, 3%nat) =>
    match r0 with String _ (String _ r2) => utf8.ValidString r2 | _ => false end
  | (_, 4%nat) =>
    match r0 with String _ (String _ (String _ r3)) => utf8.ValidString r3 | _ => false end
  | (r, _) => negb (r =? utf8.RuneError) && utf8.ValidString r0
  end.
Proof. reflexivity. Qed.

Lemma ValidString_inv (c : ascii) (r0 : string) :
  utf8.ValidString (String c r0) = true ->
  (byte c < 0x80 /\ utf8.ValidString r0 = true) \/
  (exists c1 r1, r0 = String c1 r1 /\ seq2 (byte c) (byte c1) /\
     utf8.ValidString r1 = true) \/
  (exists c1 c2 r2, r0 = String c1 (String c2 r2) /\
     seq3 (byte c) (byte c1) (byte c2) /\ utf8.ValidString r2 = true) \/
  (exists c1 c2 c3 r3, r0 = String c1 (String c2 (String c3 r3)) /\
     seq4 (byte c) (byte c1) (byte c2) (byte c3) /\ utf8.ValidString r3 = true).
Proof.
  rewrite ValidString_cons.
  unfold utf8.DecodeRuneInString, utf8.first, utf8.locb, utf8.hicb. cbv zeta.
  pose proof (byte_range c) as Bc.
  intros H.
  repeat first
    [ discriminate H
    | match type of H with
      | context [match ?s with EmptyString => _ | String _ _ => _ end] =>
        is_var s; destruct s
      | context [?a <? ?b] => destruct (Z.ltb_spec a b)
      | context [?a =? ?b] => destruct (Z.eqb_spec a b)
      | context [(?a <=? ?b)%nat] => change (a <=? b)%nat with true in H
      | context [(?a <=? ?b)%nat] => change (a <=? b)%nat with false in H
      end
    | progress cbn [orb negb andb] in H ].
  all: try (left; split; [lia | exact (proj2 (andb_prop _ _ H))]).
  all: try (right; left; do 2 eexists; split; [reflexivity |];
            split; [unfold seq2; lia | exact H]).
  all: try (right; right; left; do 3 eexists; split; [reflexivity |];
            split; [unfold seq3; lia | exact H]).
  all: try (right; right; right; do 4 eexists; split; [reflexivity |];
            split; [unfold seq4; lia | exact H]).
  all: left; split; [lia | exact H].
Qed.

(** ** Reading back what [appendString] writes *)

Lemma unquote_escapeByte (c : ascii) (tail : string) :
  byte c < 0x80 -> json.htmlSafeSet (byte c) = false ->
  json.unquote (json.escapeByte (byte c) +:+ tail) =
  prepend (String c "") (json.unquote tail).
Proof.
  destruct c as [[] [] [] [] [] [] [] []]; intros H1 H2;
    try discriminate H2; try (exfalso; vm_compute in H1; discriminate H1);
    reflexivity.
Qed.

Lemma unquote_safe (c : ascii) (tail : string) :
  byte c < 0x80 -> json.htmlSafeSet (byte c) = true ->
  json.unquote (String c tail) = prepend (String c "") (json.unquote tail).
Proof.
  intros H1 H2. unfold json.htmlSafeSet in H2.
  cbn [json.unquote]. cbv zeta. unfold utf8.RuneSelf.
  repeat match type of H2 with
         | context [?a <? ?b] => destruct (Z.ltb_spec a b)
         | context [?a <=? ?b] => destruct (Z.leb_spec a b)
         | context [?a =? ?b] => destruct (Z.eqb_spec a b)
         end; cbn in H2; try discriminate H2.
  ztest; reflexivity.
Qed.

Lemma appendStringBody_ascii (c : ascii) (r0 : string) :
  byte c < 0x80 ->
  json.appendStringBody (String c r0) =
  (if json.htmlSafeSet (byte c) then String c "" else json.escapeByte (byte c))
  +:+ json.appendStringBody r0.
Proof.
  intros H. cbn [json.appendStringBody]. cbv zeta. unfold utf8.RuneSelf.
  destruct (Z.ltb_spec (byte c) 128); [reflexivity | lia].
Qed.

Lemma unquote_2 (c0 c1 : ascii) (tail : string) :
  seq2 (byte c0) (byte c1) ->
  json.unquote (String c0 (String c1 tail)) =
  prepend (String c0 (String c1 "")) (json.unquote tail).
Proof.
  intros H. pose proof H as (H0 & H1).
  cbn [json.unquote]. cbv zeta. rewrite (Decode2 _ _ _ H).
  rewrite (proj1 (AppendRune2 _ _ H)). unfold utf8.RuneSelf.
  ztest; reflexivity.
Qed.

Lemma unquote_3 (c0 c1 c2 : ascii) (tail : string) :
  seq3 (byte c0) (byte c1) (byte c2) ->
  json.unquote (String c0 (String c1 (String c2 tail))) =
  prepend (String c0 (String c1 (String c2 ""))) (json.unquote tail).
Proof.
  intros H. pose proof H as (H0 & H1 & _).
  cbn [json.unquote]. cbv zeta. rewrite (Decode3 _ _ _ _ H).
  rewrite (AppendRune3 _ _ _ H). unfold utf8.RuneSelf.
  ztest; reflexivity.
Qed.

Lemma unquote_4 (c0 c1 c2 c3 : ascii) (tail : string) :
  seq4 (byte c0) (byte c1) (byte c2) (byte c3) ->
  json.unquote (String c0 (String c1 (String c2 (String c3 tail)))) =
  prepend (String c0 (String c1 (String c2 (String c3 "")))) (json.unquote tail).
Proof.
  intros H. pose proof H as (H0 & H1 & _).
  cbn [json.unquote]. cbv zeta. rewrite (Decode4 _ _ _ _ _ H).
  rewrite (proj1 (AppendRune4 _ _ _ _ H)). unfold utf8.RuneSelf.
  ztest; reflexivity.
Qed.

Lemma appendStringBody_2 (c0 c1 : ascii) (r1 : string) :
  seq2 (byte c0) (byte c1) ->
  json.appendStringBody (String c0 (String c1 r1)) =
  String c0 (String c1 (json.appendStringBody r1)).
Proof.
  intros H. pose proof H as (H0 & H1).
  pose proof (proj2 (AppendRune2 _ _ H)) as R.
  cbn [json.appendStringBody]. cbv zeta. rewrite (Decode2 _ _ _ H).
  unfold utf8.RuneSelf. ztest. reflexivity.
Qed.

Lemma appendStringBody_4 (c0 c1 c2 c3 : ascii) (r3 : string) :
  seq4 (byte c0) (byte c1) (byte c2) (byte c3) ->
  json.appendStringBody (String c0 (String c1 (String c2 (String c3 r3)))) =
  String c0 (String c1 (String c2 (String c3 (json.appendStringBody r3)))).
Proof.
  intros H. pose proof H as (H0 & H1 & _).
  pose proof (proj2 (AppendRune4 _ _ _ _ H)) as R.
  cbn [json.appendStringBody]. cbv zeta. rewrite (Decode4 _ _ _ _ _ H).
  unfold utf8.RuneSelf. ztest. reflexivity.
Qed.

(** A rune of three bytes is written as it is, or as an escape when it is
    U+2028 or U+2029; either way it is read back as the three bytes. *)
Lemma unquote_appendStringBody_3 (c0 c1 c2 : ascii) (r2 tail : string) :
  seq3 (byte c0) (byte c1) (byte c2) ->
  json.unquote (json.appendStringBody (String c0 (String c1 (String c2 r2))) +:+ tail) =
  prepend (String c0 (String c1 (String c2 "")))
    (json.unquote (json.appendStringBody r2 +:+ tail)).
Proof.
  intros H. pose proof H as (H0 & H1 & _).
  pose proof (AppendRune3 _ _ _ H) as A.
  cbn [json.appendStringBody]. cbv zeta. rewrite (Decode3 _ _ _ _ H).
  unfold utf8.RuneSelf.
  destruct (Z.ltb_spec (byte c0) 128); [lia |].
  destruct (Z.eqb_spec (rune3 (byte c0) (byte c1) (byte c2)) 0x2028) as [E | NE].
  - rewrite E in *. cbn [orb]. rewrite <- A. reflexivity.
  - destruct (Z.eqb_spec (rune3 (byte c0) (byte c1) (byte c2)) 0x2029) as [E | NE'].
    + rewrite E in *. cbn [orb]. rewrite <- A. reflexivity.
    + cbn [orb]. change (String c0 (String c1 (String c2 "")) +:+ json.appendStringBody r2)
        with (String c0 (String c1 (String c2 (json.appendStringBody r2)))).
      cbn [String.append]. now apply unquote_3.
Qed.

Lemma unquote_end (tail : string) : json.unquote (String dquote tail) = Some ("", tail).
Proof. reflexivity. Qed.

(** What [appendString] writes for a string that is valid UTF-8 is read
    back as the string. *)
Lemma unquote_appendStringBody (s tail : string) :
  utf8.ValidString s = true ->
  json.unquote (json.appendStringBody s +:+ String dquote tail) = Some (s, tail).
Proof.
  remember (String.length s) as n eqn:Hn. revert s Hn.
  induction n as [n IH] using lt_wf_ind. intros s Hn Hvalid.
  destruct s as [| c r0]; [apply unquote_end |].
  destruct (ValidString_inv c r0 Hvalid)
    as [(Hc & Hv) | [(c1 & r1 & -> & Hs & Hv) | [(c1 & c2 & r2 & -> & Hs & Hv)
       | (c1 & c2 & c3 & r3 & -> & Hs & Hv)]]].
  - rewrite appendStringBody_ascii by exact Hc. rewrite append_assoc.
    destruct (json.htmlSafeSet (byte c)) eqn:Hsafe.
    + cbn [String.append]. rewrite unquote_safe by assumption.
      rewrite (IH (String.length r0)); [reflexivity | | reflexivity | exact Hv].
      subst n. cbn [String.length]. lia.
    + rewrite unquote_escapeByte by assumption.
      rewrite (IH (String.length r0)); [reflexivity | | reflexivity | exact Hv].
      subst n. cbn [String.length]. lia.
  - rewrite appendStringBody_2 by exact Hs. cbn [String.append].
    rewrite unquote_2 by exact Hs.
    rewrite (IH (String.length r1)); [reflexivity | | reflexivity | exact Hv].
    subst n. cbn [String.length]. lia.
  - rewrite unquote_appendStringBody_3 by exact Hs.
    rewrite (IH (String.length r2)); [reflexivity | | reflexivity | exact Hv].
    subst n. cbn [String.length]. lia.
  - rewrite appendStringBody_4 by exact Hs. cbn [String.append].
    rewrite unquote_4 by exact Hs.
    rewrite (IH (String.length r3)); [reflexivity | | reflexivity | exact Hv].
    subst n. cbn [String.length]. lia.
Qed.

Lemma appendString_app (s rest : string) :
  json.appendString s +:+ rest =
  String dquote (json.appendStringBody s +:+ String dquote rest).
Proof.
  unfold json.appendString. cbn [String.append]. f_equal. now rewrite append_assoc.
Qed.

Lemma parseValue_string (fuel : nat) (depth : Z) (s tail : string) :
  utf8.ValidString s = true ->
  json.parseValue (S fuel) depth (json.appendString s +:+ tail) =
  Some (json.JString s, tail).
Proof.
  intros Hs. rewrite appendString_app. cbn [json.parseValue].
  change (json.skipSpace (String dquote ?x)) with (String dquote x).
  cbv beta iota zeta.
  change (byte dquote =? 123) with false. change (byte dquote =? 91) with false.
  change (byte dquote =? 34) with true. cbv iota.
  now rewrite unquote_appendStringBody.
Qed.

(** A member whose value is a string, followed by a comma and more members
    or by the closing brace. *)
Lemma parseMembers_string (fuel : nat) (depth : Z) (k s : string) (sep : ascii)
    (tail : string) :
  utf8.ValidString k = true -> utf8.ValidString s = true ->
  json.isSpace (byte sep) = false ->
  json.parseMembers (S (S fuel)) depth
    (json.appendString k +:+ ":" +:+ json.appendString s +:+ String sep tail) =
  if byte sep =? 0x2C then
    match json.parseMembers (S fuel) depth tail with
    | Some (ms, rest) => Some ((k, json.JString s) :: ms, rest)
    | None => None
    end
  else if byte sep =? 0x7D then Some ([(k, json.JString s)], tail)
  else None.
Proof.
  intros Hk Hs Hsep. rewrite appendString_app.
  cbn [json.parseMembers].
  change (json.skipSpace (String dquote ?x)) with (String dquote x).
  cbv beta iota zeta. change (byte dquote =? 34) with true. cbv iota.
  rewrite unquote_appendStringBody by exact Hk.
  change (json.skipSpace (":" +:+ ?x)) with (":" +:+ x).
  cbn [String.append]. cbv beta iota zeta.
  change (byte ":" =? 58) with true. cbv iota.
  rewrite parseValue_string by exact Hs.
  cbn [json.skipSpace]. rewrite Hsep. reflexivity.
Qed.

(** ** [UnmarshallServiceKeyJSON] *)

Lemma length_append (a b : string) :
  String.length (a +:+ b) = (String.length a + String.length b)%nat.
Proof. induction a as [| c a IH]; cbn; [reflexivity | now rewrite IH]. Qed.

Lemma ServiceKey_document (k : ServiceKey) :
  json.encode k =
  inr (json.JObject [ ("url", json.JString (Url k));
                      ("client_id", json.JString (ClientId k));
                      ("client_secret", json.JString (ClientSecret k));
                      ("oauth_url", json.JString (OauthUrl k)) ]).
Proof. reflexivity. Qed.

Lemma ServiceKey_text (k : ServiceKey) :
  json.render (json.JObject [ ("url", json.JString (Url k));
                              ("client_id", json.JString (ClientId k));
                              ("client_secret", json.JString (ClientSecret k));
                              ("oauth_url", json.JString (OauthUrl k)) ]) =
  String "{"
    (json.appendString "url" +:+ ":" +:+ json.appendString (Url k) +:+ String ","
    (json.appendString "client_id" +:+ ":" +:+ json.appendString (ClientId k) +:+ String ","
    (json.appendString "client_secret" +:+ ":" +:+ json.appendString (ClientSecret k) +:+ String ","
    (json.appendString "oauth_url" +:+ ":" +:+ json.appendString (OauthUrl k) +:+ String "}" "")))).
Proof.
  cbn [json.render]. cbn [String.append]. f_equal.
  repeat (rewrite append_assoc; cbn [String.append]). reflexivity.
Qed.

Lemma ServiceKey_parse (k : ServiceKey) :
  validServiceKey k ->
  json.parse (json.render
    (json.JObject [ ("url", json.JString (Url k));
                    ("client_id", json.JString (ClientId k));
                    ("client_secret", json.JString (ClientSecret k));
                    ("oauth_url", json.JString (OauthUrl k)) ])) =
  Some (json.JObject [ ("url", json.JString (Url k));
                       ("client_id", json.JString (ClientId k));
                       ("client_secret", json.JString (ClientSecret k));
                       ("oauth_url", json.JString (OauthUrl k)) ]).
Proof.
  intros (Hu & Hc & Hs & Ho). rewrite ServiceKey_text. unfold json.parse.
  set (body := json.appendString "url" +:+ _).
  assert (Hlen : exists fuel, String.length (String "{" body) = S (S (S (S (S fuel))))).
  { subst body. cbn [String.length]. rewrite length_append.
    change (String.length (json.appendString "url")) with 5%nat.
    cbn [Nat.add]. eauto. }
  destruct Hlen as (fuel & ->).
  cbn [json.parseValue].
  change (json.skipSpace (String "{" body)) with (String "{" body).
  cbv beta iota zeta.
  change (byte "{" =? 123) with true. cbv iota.
  change (json.maxNestingDepth <=? 0) with false. cbv iota.
  assert (Hb : json.skipSpace body =
               String dquote (string_drop 1 (json.skipSpace body))).
  { subst body. rewrite appendString_app. reflexivity. }
  rewrite Hb. cbv beta iota zeta.
  change (byte dquote =? 125) with false. cbv iota.
  subst body.
  do 3 (rewrite parseMembers_string by (reflexivity || assumption);
        change (byte "," =? 44) with true; cbv iota).
  rewrite parseMembers_string by (reflexivity || assumption).
  change (byte "}" =? 44) with false. change (byte "}" =? 125) with true.
  reflexivity.
Qed.

(** ** What [unquote] gives is valid UTF-8 *)

Lemma byte_chr (b : Z) : 0 <= b < 256 -> byte (chr b) = b.
Proof.
  intros H. unfold byte, chr. rewrite Z.mod_small by exact H.
  rewrite N_ascii_embedding by lia. lia.
Qed.

Lemma ValidString_1 (c : ascii) (body : string) :
  byte c < 0x80 -> utf8.ValidString (String c body) = utf8.ValidString body.
Proof.
  intros H. rewrite ValidString_cons, Decode1 by exact H.
  unfold utf8.RuneError. destruct (Z.eqb_spec (byte c) 65533); [lia | reflexivity].
Qed.

Lemma ValidString_2 (c0 c1 : ascii) (body : string) :
  seq2 (byte c0) (byte c1) ->
  utf8.ValidString (String c0 (String c1 body)) = utf8.ValidString body.
Proof. intros H. now rewrite ValidString_cons, Decode2. Qed.

Lemma ValidString_3 (c0 c1 c2 : ascii) (body : string) :
  seq3 (byte c0) (byte c1) (byte c2) ->
  utf8.ValidString (String c0 (String c1 (String c2 body))) = utf8.ValidString body.
Proof. intros H. now rewrite ValidString_cons, Decode3. Qed.

Lemma ValidString_4 (c0 c1 c2 c3 : ascii) (body : string) :
  seq4 (byte c0) (byte c1) (byte c2) (byte c3) ->
  utf8.ValidString (String c0 (String c1 (String c2 (String c3 body)))) =
  utf8.ValidString body.
Proof. intros H. now rewrite ValidString_cons, Decode4. Qed.

(** Whatever the rune, [AppendRune] writes a valid sequence. *)
Lemma AppendRune_valid (r : Z) (body : string) :
  utf8.ValidString (utf8.AppendRune r +:+ body) = utf8.ValidString body.
Proof.
  unfold utf8.AppendRune, utf8.rune1Max, utf8.rune2Max, utf8.rune3Max,
    utf8.surrogateMin, utf8.surrogateMax, utf8.MaxRune.
  destruct (Z.leb_spec 0 r); cbn [andb].
  - destruct (Z.leb_spec r 127).
    { cbn [String.append]. apply ValidString_1. rewrite byte_chr; lia. }
    destruct (Z.leb_spec r 2047).
    { cbn [String.append].
      rewrite Z.shiftr_div_pow2, land_maskx, lor_tx by lia. change (2 ^ 6) with 64.
      rewrite lor_t2 by (Z.div_mod_to_equations; lia).
      apply ValidString_2. unfold seq2.
      rewrite !byte_chr by (Z.div_mod_to_equations; lia).
      Z.div_mod_to_equations; lia. }
    destruct (Z.ltb_spec r 55296); [| destruct (Z.ltb_spec 57343 r);
      [destruct (Z.leb_spec r 65535) |]]; cbn [andb orb].
    1, 2: cbn [String.append];
      rewrite !Z.shiftr_div_pow2, !land_maskx, !lor_tx by lia;
      change (2 ^ 6) with 64; change (2 ^ 12) with 4096;
      rewrite lor_t3 by (Z.div_mod_to_equations; lia);
      apply ValidString_3; unfold seq3;
      rewrite !byte_chr by (Z.div_mod_to_equations; lia);
      Z.div_mod_to_equations; lia.
    + destruct (Z.ltb_spec 65535 r); [| lia]. destruct (Z.leb_spec r 1114111); cbn [andb].
      * cbn [String.append].
        rewrite !Z.shiftr_div_pow2, !land_maskx, !lor_tx by lia.
        change (2 ^ 6) with 64; change (2 ^ 12) with 4096; change (2 ^ 18) with 262144.
        rewrite lor_t4 by (Z.div_mod_to_equations; lia).
        apply ValidString_4; unfold seq4.
        rewrite !byte_chr by (Z.div_mod_to_equations; lia).
        Z.div_mod_to_equations; lia.
      * reflexivity.
    + destruct (Z.ltb_spec 65535 r); [lia |]. reflexivity.
  - destruct (Z.ltb_spec 65535 r); [lia |]. reflexivity.
Qed.

Lemma prepend_Some (out : string) (r : option (string * string)) body rest :
  prepend out r = Some (body, rest) ->
  exists body', r = Some (body', rest) /\ body = out +:+ body'.
Proof.
  destruct r as [[body' after] |]; [| discriminate].
  intros [= <- <-]. eauto.
Qed.

Lemma unquote_valid (s body rest : string) :
  json.unquote s = Some (body, rest) -> utf8.ValidString body = true.
Proof.
  remember (String.length s) as n eqn:Hn. revert s body rest Hn.
  induction n as [n IH] using lt_wf_ind. intros s body rest Hn H.
  destruct s as [| c r0]; [discriminate H |].
  cbn [json.unquote] in H. cbv zeta in H.
  cbn [String.length] in Hn. subst n.
  repeat match type of H with
         | None = Some _ => discriminate H
         | Some _ = Some _ => injection H as <- <-
         | (match json.unquote ?t with Some _ => _ | None => _ end) = Some _ =>
           let Hu := fresh "Hu" in
           destruct (json.unquote t) as [[body' after'] |] eqn:Hu;
           [apply IH with (m := String.length t) in Hu;
            [| cbn [String.length]; lia | reflexivity]
           | discriminate H]
         | context [if ?b then _ else _] => destruct b eqn:?
         | context [match ?x with EmptyString => _ | String _ _ => _ end] =>
           is_var x; destruct x
         | context [match utf8.DecodeRuneInString ?x with _ => _ end] =>
           destruct (utf8.DecodeRuneInString x) as [rr [| [| [| [| [| size]]]]]]
         end.
  all: try reflexivity.
  all: try (rewrite AppendRune_valid; assumption).
  all: try exact (eq_trans (AppendRune_valid json.replacementChar _) Hu).
  all: rewrite ValidString_1; [assumption |]; rewrite ?byte_chr by lia;
    repeat match goal with
           | E : _ || _ = true |- _ => apply orb_prop in E; destruct E
           | E : (_ =? _) = true |- _ => apply Z.eqb_eq in E
           | E : (_ <? _) = true |- _ => apply Z.ltb_lt in E
           end;
    unfold utf8.RuneSelf in *; lia.
Qed.

Lemma parseValue_string_valid (fuel : nat) (depth : Z) (s str rest : string) :
  json.parseValue fuel depth s = Some (json.JString str, rest) ->
  utf8.ValidString str = true.
Proof.
  destruct fuel as [| fuel]; [discriminate |].
  cbn [json.parseValue]. intros H.
  repeat match type of H with
         | None = Some _ => discriminate H
         | Some (json.JString _, _) = Some _ => injection H as <- <-
         | Some _ = Some _ => discriminate H
         | context [match json.unquote ?t with _ => _ end] =>
           let Hu := fresh "Hu" in
           destruct (json.unquote t) as [[str' rest'] |] eqn:Hu;
           [apply unquote_valid in Hu |]
         | context [if ?b then _ else _] => destruct b
         | context [match ?x with Some _ => _ | None => _ end] => destruct x as [[? ?] |]
         | context [match ?x with Some _ => _ | None => _ end] => destruct x
         | context [match ?x with EmptyString => _ | String _ _ => _ end] => destruct x
         end.
  all: try assumption.
Qed.

Lemma parseMembers_valid (fuel : nat) :
  forall (depth : Z) (s : string) ms rest,
    json.parseMembers fuel depth s = Some (ms, rest) -> stringValuesValid ms.
Proof.
  induction fuel as [| fuel IH]; intros depth s ms rest H; [discriminate H |].
  cbn [json.parseMembers] in H.
  repeat match type of H with
         | None = Some _ => discriminate H
         | context [match json.parseValue ?f ?d ?t with _ => _ end] =>
           let Hv := fresh "Hv" in
           destruct (json.parseValue f d t) as [[x r3] |] eqn:Hv
         | context [match json.parseMembers ?f ?d ?t with _ => _ end] =>
           let Hm := fresh "Hm" in
           destruct (json.parseMembers f d t) as [[ms' rest'] |] eqn:Hm;
           [apply IH in Hm |]
         | context [match json.unquote ?t with _ => _ end] =>
           destruct (json.unquote t) as [[key r1] |]
         | context [if ?b then _ else _] => destruct b
         | context [match ?x with EmptyString => _ | String _ _ => _ end] => destruct x
         end.
  all: injection H as <- <-; intros k str [E | Hin];
    [injection E as _ ->; now apply parseValue_string_valid in Hv | auto].
  now apply (Hm k).
Qed.

Lemma parse_object_valid (text : string) ms :
  json.parse text = Some (json.JObject ms) -> stringValuesValid ms.
Proof.
  unfold json.parse. intros H.
  destruct (json.parseValue (S (String.length text)) 0 text) as [[x rest] |] eqn:Hv;
    [| discriminate H].
  destruct (json.skipSpace rest); [| discriminate H]. injection H as ->.
  cbn [json.parseValue] in Hv.
  repeat match type of Hv with
         | None = Some _ => discriminate Hv
         | Some (json.JObject _, _) = Some _ => injection Hv as <- <-
         | Some _ = Some _ => discriminate Hv
         | context [match json.parseMembers ?f ?d ?t with _ => _ end] =>
           let Hm := fresh "Hm" in
           destruct (json.parseMembers f d t) as [[ms' rest'] |] eqn:Hm;
           [apply parseMembers_valid in Hm |]
         | context [if ?b then _ else _] => destruct b
         | context [match ?x with Some _ => _ | None => _ end] => destruct x as [[? ?] |]
         | context [match ?x with Some _ => _ | None => _ end] => destruct x
         | context [match ?x with EmptyString => _ | String _ _ => _ end] => destruct x
         end.
  all: first [assumption | intros ? ? []].
Qed.

Lemma ServiceKey_decode_valid (ms : list (string * json.value)) :
  stringValuesValid ms ->
  forall (k : ServiceKey) (saved : option error),
    validServiceKey k ->
    validServiceKey (fst (json.decodeMembers ServiceKey_fields ms k saved)).
Proof.
  induction ms as [| [key x] ms IH]; intros Hms k saved Hk; [exact Hk |].
  assert (Hms' : stringValuesValid ms) by (intros k' s' Hin; apply (Hms k'); now right).
  cbn [json.decodeMembers].
  destruct (json.findField ServiceKey_fields key) as [f |] eqn:Hf; [| now apply IH].
  apply findField_In in Hf. unfold ServiceKey_fields in Hf.
  destruct Hk as (H1 & H2 & H3 & H4).
  in_cases Hf; cbn [json.fcodec json.get json.set json.decode json.stringCodec];
    (destruct x; cbn [fst]; apply IH; try exact Hms'; cbn;
     repeat split; try assumption; apply (Hms key); now left).
Qed.

(** Every key that [UnmarshallServiceKeyJSON] returns holds valid UTF-8. *)
Lemma UnmarshallServiceKeyJSON_valid (text : string) :
  validServiceKey (fst (UnmarshallServiceKeyJSON text)).
Proof.
  unfold UnmarshallServiceKeyJSON, json.Unmarshal.
  destruct (json.parse text) as [x |] eqn:Hp; [| repeat split].
  cbn [json.decode ServiceKey_codec json.structCodec].
  destruct x as [| b | lit | s | l | ms]; try (repeat split; fail).
  apply parse_object_valid in Hp.
  pose proof (ServiceKey_decode_valid ms Hp zeroServiceKey None) as V.
  destruct (json.decodeMembers ServiceKey_fields ms zeroServiceKey None)
    as [k [err |]]; apply V; repeat split.
Qed.

(** C6: for every valid service key, one whose strings are valid UTF-8,
    the JSON text that [json.Marshal] writes for the key is read back by
    [UnmarshallServiceKeyJSON] as the key itself, without error.  The valid
    keys include every key that JSON text can give: a key that
    [UnmarshallServiceKeyJSON] returns is valid, and so is read back from
    its own JSON text.  And for every text that is not valid JSON,
    [UnmarshallServiceKeyJSON] returns an error: the syntax error of the
    parser, wrapped with the message "error unmarshalling ANS serviceKey"
    (the key returned with it is the zero key). *)
Theorem ServiceKey_round_trip :
  (forall k : ServiceKey,
     validServiceKey k ->
     exists text, json.Marshal k = inr text /\
       UnmarshallServiceKeyJSON text = (k, None)) /\
  (forall (input : string) (k : ServiceKey) (err : option error),
     UnmarshallServiceKeyJSON input = (k, err) ->
     validServiceKey k /\
     exists text, json.Marshal k = inr text /\
       UnmarshallServiceKeyJSON text = (k, None)) /\
  (forall text : string,
     json.Valid text = false ->
     exists err,
       UnmarshallServiceKeyJSON text = (zeroServiceKey, Some err) /\
       err = errors.Wrap SyntaxError "error unmarshalling ANS serviceKey" /\
       errors.Cause err = SyntaxError /\
       Error err = "error unmarshalling ANS serviceKey: " +:+ Error SyntaxError).
Proof.
  assert (R : forall k : ServiceKey,
     validServiceKey k ->
     exists text, json.Marshal k = inr text /\
       UnmarshallServiceKeyJSON text = (k, None)).
  { intros k Hk. eexists. split.
    + unfold json.Marshal. rewrite ServiceKey_document. reflexivity.
    + unfold UnmarshallServiceKeyJSON, json.Unmarshal.
      rewrite (ServiceKey_parse k Hk). destruct k. reflexivity. }
  split; [exact R |]. split.
  - intros input k err H.
    pose proof (UnmarshallServiceKeyJSON_valid input) as V. rewrite H in V.
    split; [exact V | exact (R k V)].
  - intros text Hv. unfold json.Valid in Hv.
    destruct (json.parse text) as [x |] eqn:Hp; [discriminate Hv |].
    eexists. split; [| repeat split].
    unfold UnmarshallServiceKeyJSON, json.Unmarshal. rewrite Hp. reflexivity.
Qed.

(** A key with characters that [json.Marshal] escapes. *)
Lemma ServiceKey_round_trip_witness :
  validServiceKey exampleServiceKey /\
  exists text, json.Marshal exampleServiceKey = inr text /\
    UnmarshallServiceKeyJSON text = (exampleServiceKey, None).
Proof.
  assert (H : validServiceKey exampleServiceKey) by (repeat split).
  split; [exact H |].
  exact (proj1 ServiceKey_round_trip exampleServiceKey H).
Defined.

(** The condition on the strings is needed: [json.Marshal] writes a byte
    that is not UTF-8 as the replacement character U+FFFD, which is what is
    read back. *)
Example round_trip_needs_utf8 :
  ~ validServiceKey latin1ServiceKey /\
  exists text, json.Marshal latin1ServiceKey = inr text /\
    UnmarshallServiceKeyJSON text =
      (mkServiceKey (String (chr 0xEF) (String (chr 0xBF) (String (chr 0xBD) ""))) "" "" "",
       None).
Proof.
  split.
  - intros (H & _). discriminate H.
  - eexists. split; reflexivity.
Qed.

(** A text that is cut short is not valid JSON. *)
Example truncated_text_is_invalid :
  json.Valid ("{" +:+ quoted "url" +:+ ":") = false.
Proof. reflexivity. Qed.

(** ** Runs of [Send]: failures and the order of the calls *)
Section Send_runs.
Context {W : World}.

#[local] Arguments fmt.Sprintf : simpl never.
#[local] Arguments fmt.Errorf : simpl never.
#[local] Arguments Error : simpl never.
#[local] Arguments errors.Wrapf : simpl never.
#[local] Arguments statusMessage : simpl never.

Ltac run_cases ans event :=
  destruct (runSend_cases ans event); cbn [In] in *;
  repeat match goal with
         | H : _ \/ _ |- _ => destruct H
         | H : False |- _ => destruct H
         | H : @eq Call _ _ |- _ => first [discriminate H | injection H as ? ?; subst]
         | H : @eq (list Call) _ _ |- _ => discriminate H
         end.

(** X1: when the event cannot be marshalled, [Send] returns the error of
    [json.Marshal] as it is and calls none of its collaborators. *)
Theorem Send_marshal_failure (ans : ANS) (event : Event) (err : error) :
  json.Marshal event = inl err ->
  runSend ans event = (Some err, []).
Proof.
  intros H. unfold runSend, Send, bind, ret. now rewrite H.
Qed.

(** X2: the calls of a run of [Send] are an initial part of: asking the
    provider, building the request, sending it, reading the body of the
    response; each is made at most once.  The provider is asked with an
    empty header, and no call at all is made exactly when the event cannot
    be marshalled. *)
Theorem Send_call_order (ans : ANS) (event : Event) :
  map kindOf (snd (runSend ans event)) =
    firstn (length (snd (runSend ans event))) callOrder /\
  (snd (runSend ans event) = [] <-> exists err, json.Marshal event = inl err) /\
  (forall x header answer,
     In (CallSetAuthHeaderIfNotPresent x header answer) (snd (runSend ans event)) ->
     x = ans_XSUAA ans /\ header = ∅ /\ answer = SetAuthHeaderIfNotPresent x header).
Proof.
  destruct (runSend_cases ans event); (split; [reflexivity |]); split;
    try (split; [intros Hnil; try discriminate Hnil; eauto
                | intros [e He]; first [reflexivity | congruence]]).
  all: intros ? ? ? Hin; cbn [In] in Hin;
    repeat match goal with
           | H : _ \/ _ |- _ => destruct H
           | H : False |- _ => destruct H
           | H : @eq Call _ _ |- _ => first [discriminate H | injection H as ? ? ?; subst]
           end; auto.
Qed.

(** X3: when the request cannot be built, [Send] returns the error of
    [http.NewRequest] as it is; the provider has been asked before, and
    nothing is sent and nothing read. *)
Theorem Send_request_failure (ans : ANS) (event : Event)
    (method url body : string) (err : error) :
  In (CallNewRequest method url body (inl err)) (snd (runSend ans event)) ->
  fst (runSend ans event) = Some err /\
  url_Parse (URL ans +:+ "/cf/producer/v1/resource-events") = Some err /\
  (exists header,
     snd (runSend ans event) =
       [CallSetAuthHeaderIfNotPresent (ans_XSUAA ans) ∅ (inr header);
        CallNewRequest method url body (inl err)]) /\
  (forall request answer, ~ In (CallDo request answer) (snd (runSend ans event))) /\
  (forall response answer,
     ~ In (CallReadResponseBody response answer) (snd (runSend ans event))).
Proof.
  intros Hin. run_cases ans event.
  split; [reflexivity |]. split; [assumption |]. split; [eauto |].
  split; intros; simpl; intros [H' | [H' | []]]; discriminate H'.
Qed.

(** X4: when the transport fails, [Send] returns its error as it is, and
    the body of no response is read: the failed call is the last one. *)
Theorem Send_transport_failure (ans : ANS) (event : Event)
    (request : http.Request) (err : error) :
  In (CallDo request (inl err)) (snd (runSend ans event)) ->
  fst (runSend ans event) = Some err /\
  last (snd (runSend ans event)) = Some (CallDo request (inl err)) /\
  length (snd (runSend ans event)) = 3%nat /\
  (forall response answer,
     ~ In (CallReadResponseBody response answer) (snd (runSend ans event))).
Proof.
  intros Hin. run_cases ans event.
  repeat split. intros; simpl; intros [H' | [H' | [H' | []]]]; discriminate H'.
Qed.

(** X5: [Send] reads the body of a response exactly when the response it
    received has a status other than 202, and then it reads the body of
    that response, once, as its last call. *)
Theorem Send_reads_body_iff_refused (ans : ANS) (event : Event) :
  ((exists response answer,
      In (CallReadResponseBody response answer) (snd (runSend ans event))) <->
   (exists request response,
      In (CallDo request (inr response)) (snd (runSend ans event)) /\
      http.StatusCode response <> 202)) /\
  (forall response answer,
     In (CallReadResponseBody response answer) (snd (runSend ans event)) ->
     answer = ReadResponseBody response /\
     (exists request, In (CallDo request (inr response)) (snd (runSend ans event))) /\
     exists before,
       snd (runSend ans event) = (before ++ [CallReadResponseBody response answer])%list /\
       forall response' answer', ~ In (CallReadResponseBody response' answer') before).
Proof.
  split.
  - split.
    + intros (response & answer & Hin). run_cases ans event.
      eexists _, _. split; [right; right; left; reflexivity | assumption].
    + intros (request & response & Hin & Hstatus). run_cases ans event; [congruence |].
      eexists _, _. do 3 right. left. reflexivity.
  - intros response answer Hin. run_cases ans event.
    split; [reflexivity |]. split; [eexists; right; right; left; reflexivity |].
    eexists [_; _; _]. split; [reflexivity |].
    intros r a [H' | [H' | [H' | []]]]; discriminate H'.
Qed.

(** X6: when [Send] returns nil, the event was marshalled, the provider
    gave a header, the request was built and sent, and the response had the
    status 202: these three calls are all the calls made, and the body of
    the request is the JSON text of the event. *)
Theorem Send_nil_means_accepted (ans : ANS) (event : Event) :
  fst (runSend ans event) = None ->
  exists body header response,
    json.Marshal event = inr body /\
    http.StatusCode response = 202 /\
    snd (runSend ans event) =
      [CallSetAuthHeaderIfNotPresent (ans_XSUAA ans) ∅ (inr header);
       CallNewRequest "POST" (URL ans +:+ "/cf/producer/v1/resource-events") body
         (inr (http.mkRequest "POST" (URL ans +:+ "/cf/producer/v1/resource-events") ∅ body));
       CallDo (builtRequest ans header body) (inr response)].
Proof.
  intros Hnil. destruct (runSend_cases ans event); try discriminate Hnil.
  eexists _, _, _. repeat split; eassumption.
Qed.

(** X7: [Send] does not check that the provider has set the Authorization
    header.  When the header the provider leaves has no value under
    "Authorization", the request is sent all the same, with an Authorization
    header whose only value is the empty string. *)
Theorem Send_missing_authorization (ans : ANS) (event : Event)
    (header : http.Header) (request : http.Request) (answer : error + http.Response) :
  SetAuthHeaderIfNotPresent (ans_XSUAA ans) http.makeHeader = inr header ->
  header !! "Authorization" = None \/ header !! "Authorization" = Some [] ->
  In (CallDo request answer) (snd (runSend ans event)) ->
  http.reqHeader request !! "Authorization" = Some [""] /\
  http.reqHeader request !! "Content-Type" = Some ["application/json"] /\
  size (http.reqHeader request) = 2%nat.
Proof.
  intros Hauth Hnone Hin.
  assert (G : http.Get header "Authorization" = "").
  { unfold http.Get. change (http.CanonicalMIMEHeaderKey "Authorization") with "Authorization".
    destruct Hnone as [-> | ->]; reflexivity. }
  change http.makeHeader with (∅ : http.Header) in Hauth.
  run_cases ans event;
    match goal with
    | H : SetAuthHeaderIfNotPresent _ _ = inr ?h |- _ =>
      rewrite Hauth in H; injection H as <-
    end;
    unfold builtRequest; cbn [http.reqHeader]; rewrite G;
    (split; [reflexivity |]); (split; [reflexivity |]); reflexivity.
Qed.
End Send_runs.

(** An event with a channel among its tags is not marshalled. *)
Lemma Send_marshal_failure_witness :
  @json.Marshal _ (@Event_codec channelWorld) channelEvent = inl unsupportedChan /\
  @runSend channelWorld (@mkANS channelWorld tt "https://ans.example") channelEvent =
    (Some unsupportedChan, []).
Proof.
  assert (H : @json.Marshal _ (@Event_codec channelWorld) channelEvent = inl unsupportedChan)
    by reflexivity.
  split; [exact H |].
  exact (@Send_marshal_failure channelWorld _ _ _ H).
Defined.

(** The URL of the backend does not parse. *)
Lemma Send_request_failure_witness :
  In (CallNewRequest "POST" "https://ans.example/cf/producer/v1/resource-events"
        exampleBody (inl urlError))
     (snd (@runSend badURLWorld (stubANS _ _ _ _) (exampleEvent _))) /\
  fst (@runSend badURLWorld (stubANS _ _ _ _) (exampleEvent _)) = Some urlError /\
  (forall request answer,
     ~ In (CallDo request answer)
          (snd (@runSend badURLWorld (stubANS _ _ _ _) (exampleEvent _)))).
Proof.
  assert (H : In (CallNewRequest "POST" "https://ans.example/cf/producer/v1/resource-events"
                    exampleBody (inl urlError))
                 (snd (@runSend badURLWorld (stubANS _ _ _ _) (exampleEvent _)))).
  { right; left; reflexivity. }
  split; [exact H |].
  destruct (@Send_request_failure badURLWorld _ _ _ _ _ _ H) as (Hr & _ & _ & Hd & _).
  split; [exact Hr | exact Hd].
Defined.

(** The backend cannot be reached. *)
Lemma Send_transport_failure_witness :
  In (CallDo (http.mkRequest "POST" "https://ans.example/cf/producer/v1/resource-events"
                {[ "Authorization" := [""]; "Content-Type" := ["application/json"] ]}
                exampleBody)
        (inl transportError))
     (snd (@runSend offlineWorld (stubANS _ _ _ _) (exampleEvent _))) /\
  fst (@runSend offlineWorld (stubANS _ _ _ _) (exampleEvent _)) = Some transportError /\
  (forall response answer,
     ~ In (CallReadResponseBody response answer)
          (snd (@runSend offlineWorld (stubANS _ _ _ _) (exampleEvent _)))).
Proof.
  assert (H : In (CallDo (http.mkRequest "POST"
                            "https://ans.example/cf/producer/v1/resource-events"
                            {[ "Authorization" := [""];
                               "Content-Type" := ["application/json"] ]}
                            exampleBody)
                    (inl transportError))
                 (snd (@runSend offlineWorld (stubANS _ _ _ _) (exampleEvent _)))).
  { do 2 right; left; reflexivity. }
  split; [exact H |].
  destruct (@Send_transport_failure offlineWorld _ _ _ _ H) as (Hr & _ & _ & Hd).
  split; [exact Hr | exact Hd].
Defined.

(** The backend answers 202. *)
Lemma Send_nil_means_accepted_witness :
  fst (@runSend acceptingWorld (exampleANS _ _ _) (exampleEvent _)) = None /\
  exists body header response,
    @json.Marshal _ (@Event_codec acceptingWorld) (exampleEvent _) = inr body /\
    http.StatusCode response = 202 /\
    snd (@runSend acceptingWorld (exampleANS _ _ _) (exampleEvent _)) =
      [CallSetAuthHeaderIfNotPresent (tt : @XSUAA acceptingWorld) ∅ (inr header);
       CallNewRequest "POST" "https://ans.example/cf/producer/v1/resource-events" body
         (inr (http.mkRequest "POST" "https://ans.example/cf/producer/v1/resource-events"
                 ∅ body));
       CallDo (@builtRequest acceptingWorld (exampleANS _ _ _) header body) (inr response)].
Proof.
  assert (H : fst (@runSend acceptingWorld (exampleANS _ _ _) (exampleEvent _)) = None)
    by reflexivity.
  split; [exact H |].
  exact (@Send_nil_means_accepted acceptingWorld _ _ H).
Defined.

(** The provider leaves the header empty. *)
Lemma Send_missing_authorization_witness :
  @SetAuthHeaderIfNotPresent silentProviderWorld tt http.makeHeader = inr ∅ /\
  In (CallDo (http.mkRequest "POST" "https://ans.example/cf/producer/v1/resource-events"
                {[ "Authorization" := [""]; "Content-Type" := ["application/json"] ]}
                exampleBody)
        (inr (http.mkResponse 202 0)))
     (snd (@runSend silentProviderWorld (stubANS _ _ _ _) (exampleEvent _))) /\
  fst (@runSend silentProviderWorld (stubANS _ _ _ _) (exampleEvent _)) = None /\
  size ({[ "Authorization" := [""]; "Content-Type" := ["application/json"] ]}
          : http.Header) = 2%nat.
Proof.
  assert (A : @SetAuthHeaderIfNotPresent silentProviderWorld tt http.makeHeader = inr ∅)
    by reflexivity.
  assert (H : In (CallDo (http.mkRequest "POST"
                            "https://ans.example/cf/producer/v1/resource-events"
                            {[ "Authorization" := [""];
                               "Content-Type" := ["application/json"] ]}
                            exampleBody)
                    (inr (http.mkResponse 202 0)))
                 (snd (@runSend silentProviderWorld (stubANS _ _ _ _) (exampleEvent _)))).
  { do 2 right; left; reflexivity. }
  split; [exact A |]. split; [exact H |]. split; [reflexivity |].
  exact (proj2 (proj2 (@Send_missing_authorization silentProviderWorld
                         (stubANS _ _ _ _) (exampleEvent _) ∅ _ _ A
                         (or_introl (lookup_empty _)) H))).
Defined.

(** ** When [json.Marshal] fails *)

Lemma insertSorted_In {A : Type} (k : string) (x : A) (l : list (string * A)) p :
  In p (json.insertSorted k x l) <-> p = (k, x) \/ In p l.
Proof.
  induction l as [| [k' x'] l IH]; cbn [json.insertSorted].
  - simpl. intuition.
  - destruct (String.leb k k'); cbn [In]; [intuition | rewrite IH; intuition].
Qed.

Lemma sortedEntries_In {A : Type} (m : gmap string A) (k : string) (x : A) :
  In (k, x) (json.sortedEntries m) <-> m !! k = Some x.
Proof.
  assert (H : forall l : list (string * A),
            In (k, x) (foldr (fun kx acc => json.insertSorted (fst kx) (snd kx) acc) [] l) <->
            In (k, x) l).
  { induction l as [| [k' x'] l IH]; [reflexivity |].
    cbn [foldr fst snd]. rewrite insertSorted_In. cbn [In]. rewrite IH.
    split; intros [E | E]; auto. }
  unfold json.sortedEntries. rewrite H, <- list_elem_of_In.
  apply elem_of_map_to_list.
Qed.

Lemma encodeEntries_error {T : Type} (C : json.Codec T) (l : list (string * T)) :
  (exists e, json.encodeEntries C l = inl e) <->
  (exists k x e, In (k, x) l /\ @json.encode T C x = inl e).
Proof.
  induction l as [| [k x] l IH]; cbn [json.encodeEntries].
  - split; [intros [e H]; discriminate H | intros (k & x & e & [] & _)].
  - destruct (json.encode x) as [e | j] eqn:Hx.
    + split; [intros _; exists k, x, e; split; [now left | exact Hx] | eauto].
    + destruct (json.encodeEntries C l) as [e | js].
      * split; [intros _ | eauto].
        destruct (proj1 IH) as (k' & x' & e' & Hin & He); [eauto |].
        exists k', x', e'. split; [now right | exact He].
      * split; [intros [e H]; discriminate H |].
        intros (k' & x' & e' & [Hin | Hin] & He).
        { injection Hin as <- <-. congruence. }
        destruct (proj2 IH) as [e H]; [eauto |]. discriminate H.
Qed.

Lemma encodeEntries_inl {T : Type} (C : json.Codec T) (l : list (string * T)) e :
  json.encodeEntries C l = inl e ->
  exists k x, In (k, x) l /\ @json.encode T C x = inl e.
Proof.
  induction l as [| [k x] l IH]; cbn [json.encodeEntries]; [discriminate |].
  destruct (json.encode x) as [e' | j] eqn:Hx.
  - intros [= <-]. exists k, x. split; [now left | exact Hx].
  - destruct (json.encodeEntries C l) as [e' | js]; [| discriminate].
    intros [= <-]. destruct IH as (k' & x' & Hin & He); [reflexivity |].
    exists k', x'. split; [now right | exact He].
Qed.

Section encoding_errors.
Context {T : Type}.
Implicit Types (fields : list (json.field T)) (v : T).

Lemma encodeFields_inl fields v e :
  json.encodeFields fields v = inl e ->
  exists f, In f fields /\
    (json.omitEmpty f && @json.isEmptyValue _ (json.fcodec f) (json.get f v)) = false /\
    @json.encode _ (json.fcodec f) (json.get f v) = inl e.
Proof.
  induction fields as [| f fields IH]; cbn [json.encodeFields]; [discriminate |].
  destruct (json.omitEmpty f && json.isEmptyValue (json.get f v)) eqn:Hempty.
  - intros H. destruct (IH H) as (g & Hg & R). exists g. split; [now right | exact R].
  - destruct (json.encode (json.get f v)) as [e' | j] eqn:Hf.
    + intros [= <-]. exists f. split; [now left | split; [exact Hempty | exact Hf]].
    + destruct (json.encodeFields fields v) as [e' | js]; [| discriminate].
      intros [= <-]. destruct IH as (g & Hg & R); [reflexivity |].
      exists g. split; [now right | exact R].
Qed.

Lemma encodeFields_fails fields v f e :
  In f fields ->
  (json.omitEmpty f && @json.isEmptyValue _ (json.fcodec f) (json.get f v)) = false ->
  @json.encode _ (json.fcodec f) (json.get f v) = inl e ->
  exists e', json.encodeFields fields v = inl e'.
Proof.
  intros Hin Hempty He.
  induction fields as [| g fields IH]; [destruct Hin |].
  cbn [json.encodeFields].
  destruct Hin as [-> | Hin].
  - rewrite Hempty, He. eauto.
  - destruct (IH Hin) as [e' IH'].
    destruct (json.omitEmpty g && json.isEmptyValue (json.get g v)); [eauto |].
    destruct (json.encode (json.get g v)); [eauto |].
    rewrite IH'. eauto.
Qed.
End encoding_errors.

Section Marshal_errors.
Context {W : World}.

Lemma tags_encode_inl (t : option (gmap string any)) e :
  @json.encode _ tagsCodec t = inl e ->
  exists m k v, t = Some m /\ m !! k = Some v /\ @json.encode _ anyCodec v = inl e.
Proof.
  destruct t as [m |]; cbn; [| discriminate].
  destruct (json.encodeEntries anyCodec (json.sortedEntries m)) as [e' | js] eqn:H;
    [| discriminate].
  intros [= <-]. apply encodeEntries_inl in H. destruct H as (k & v & Hin & He).
  apply sortedEntries_In in Hin. eauto 6.
Qed.

Lemma tags_encode_fails (m : gmap string any) k v e :
  m !! k = Some v -> @json.encode _ anyCodec v = inl e ->
  @json.isEmptyValue _ tagsCodec (Some m) = false /\
  exists e', @json.encode _ tagsCodec (Some m) = inl e'.
Proof.
  intros Hk He. split.
  - cbn. apply Nat.eqb_neq. intros Hsize. apply map_size_empty_inv in Hsize.
    subst m. now rewrite lookup_empty in Hk.
  - cbn. destruct (proj2 (encodeEntries_error anyCodec (json.sortedEntries m))) as [e' H].
    { exists k, v, e. split; [now apply sortedEntries_In | exact He]. }
    rewrite H. eauto.
Qed.

(** X8: [json.Marshal] of an [Event] fails exactly when some value among
    the tags of the event, or among the tags of its resource, cannot be
    encoded; the error returned is then the error of the encoding of such
    a value. *)
Theorem Marshal_Event_error (event : Event) :
  ((exists err, json.Marshal event = inl err) <->
   (exists m k v e,
      (Tags event = Some m \/
       exists r, EventResource event = Some r /\ ResourceTags r = Some m) /\
      m !! k = Some v /\ @json.encode _ anyCodec v = inl e)) /\
  (forall err, json.Marshal event = inl err ->
     exists m k v,
       (Tags event = Some m \/
        exists r, EventResource event = Some r /\ ResourceTags r = Some m) /\
       m !! k = Some v /\ @json.encode _ anyCodec v = inl err).
Proof.
  assert (Hinl : forall err, json.Marshal event = inl err ->
     exists m k v,
       (Tags event = Some m \/
        exists r, EventResource event = Some r /\ ResourceTags r = Some m) /\
       m !! k = Some v /\ @json.encode _ anyCodec v = inl err).
  { intros err. unfold json.Marshal. cbn [json.encode Event_codec json.structCodec].
    destruct (json.encodeFields Event_fields event) as [e |] eqn:H; [| discriminate].
    intros [= ->]. apply encodeFields_inl in H. destruct H as (f & Hf & _ & He).
    unfold Event_fields in Hf. in_cases Hf; cbn [json.get json.fcodec json.ftype] in He;
      try discriminate He.
    - apply tags_encode_inl in He. destruct He as (m & k & v & Ht & Hk & He).
      exists m, k, v. auto.
    - destruct (EventResource event) as [r |] eqn:Hr; [| discriminate He].
      cbn [json.encode json.pointerCodec Resource_codec json.structCodec] in He.
      destruct (json.encodeFields Resource_fields r) as [e |] eqn:H; [| discriminate].
      injection He as ->. apply encodeFields_inl in H. destruct H as (f & Hf & _ & He).
      unfold Resource_fields in Hf. in_cases Hf; cbn [json.get json.fcodec json.ftype] in He;
        try discriminate He.
      apply tags_encode_inl in He. destruct He as (m & k & v & Ht & Hk & He).
      exists m, k, v. eauto 6. }
  split; [| exact Hinl].
  split.
  - intros [err H]. destruct (Hinl err H) as (m & k & v & R). eauto 6.
  - intros (m & k & v & e & Hwhere & Hk & He).
    destruct (tags_encode_fails m k v e Hk He) as [Hempty [e' Henc]].
    assert (Hres : forall r, ResourceTags r = Some m ->
              exists e1, json.encodeFields Resource_fields r = inl e1).
    { intros r Hr.
      apply (encodeFields_fails Resource_fields r
               (json.Field "tags" true (option (gmap string any)) tagsCodec ResourceTags
                  (fun x r => mkResource (ResourceName r) (ResourceType r)
                                (ResourceInstance r) x)) e').
      - simpl; auto.
      - cbn [json.omitEmpty json.get json.fcodec json.ftype]. rewrite Hr. rewrite Hempty. reflexivity.
      - cbn [json.get json.fcodec json.ftype]. now rewrite Hr. }
    unfold json.Marshal. cbn [json.encode Event_codec json.structCodec].
    destruct Hwhere as [Ht | (r & Hr & Ht)].
    + destruct (encodeFields_fails Event_fields event
               (json.Field "tags" true (option (gmap string any)) tagsCodec Tags
                  (fun x e => mkEvent (EventType e) (EventTimestamp e) (Severity e)
                                (Category e) (Subject e) (Body e) (Priority e) x
                                (EventResource e))) e') as [e1 H1].
      * simpl; auto 10.
      * cbn [json.omitEmpty json.get json.fcodec json.ftype]. rewrite Ht, Hempty. reflexivity.
      * cbn [json.get json.fcodec json.ftype]. now rewrite Ht.
      * rewrite H1. eauto.
    + destruct (Hres r Ht) as [e1 H1].
      destruct (encodeFields_fails Event_fields event
               (json.Field "resource" true (option Resource)
                  (json.pointerCodec Resource_codec) EventResource
                  (fun x e => mkEvent (EventType e) (EventTimestamp e) (Severity e)
                                (Category e) (Subject e) (Body e) (Priority e) (Tags e) x))
               e1) as [e2 H2].
      * simpl; auto 10.
      * cbn [json.omitEmpty json.get json.fcodec json.ftype]. rewrite Hr. reflexivity.
      * cbn [json.get json.fcodec json.ftype]. rewrite Hr.
        cbn [json.encode json.pointerCodec Resource_codec json.structCodec].
        now rewrite H1.
      * rewrite H2. eauto.
Qed.
End Marshal_errors.

(** The channel among the tags of [channelEvent] is what [json.Marshal]
    fails on. *)
Lemma Marshal_Event_error_witness :
  @json.Marshal _ (@Event_codec channelWorld) channelEvent = inl unsupportedChan /\
  exists m k v,
    (Tags channelEvent = Some m \/
     exists r, EventResource channelEvent = Some r /\ ResourceTags r = Some m) /\
    m !! k = Some v /\ @json.encode _ (@anyCodec channelWorld) v = inl unsupportedChan.
Proof.
  assert (H : @json.Marshal _ (@Event_codec channelWorld) channelEvent = inl unsupportedChan)
    by reflexivity.
  split; [exact H |].
  exact (proj2 (@Marshal_Event_error channelWorld channelEvent) _ H).
Defined.

(** ** [MergeWithJSON]: documents that are not merged *)
Section merge_errors.
Context {W : World}.

Lemma Wrapf_merge_message (cause : error) (eventJSON : string) :
  errors.Wrapf cause "error unmarshalling ANS event from JSON string %q" [fmt.Str eventJSON] =
  withStack (withMessage cause
    ("error unmarshalling ANS event from JSON string " +:+ strconv_Quote eventJSON)).
Proof.
  unfold errors.Wrapf. do 2 f_equal.
  transitivity ("error unmarshalling ANS event from JSON string " +:+
                strconv_Quote eventJSON +:+ ""); [reflexivity |].
  now rewrite append_nil_r.
Qed.

(** What [MergeWithJSON] returns, by the error of [json.Unmarshal]. *)
Lemma MergeWithJSON_error (event : Event) (eventJSON : string) :
  snd (MergeWithJSON event eventJSON) =
  match snd (@json.Unmarshal _ (json.pointerCodec Event_codec) eventJSON (Some event)) with
  | Some cause =>
    Some (withStack (withMessage cause
      ("error unmarshalling ANS event from JSON string " +:+ strconv_Quote eventJSON)))
  | None => None
  end.
Proof.
  unfold MergeWithJSON.
  destruct (json.Unmarshal eventJSON (Some event)) as [p [cause |]]; cbn [snd];
    [| reflexivity].
  now rewrite Wrapf_merge_message.
Qed.

(** X9: for a text that is not valid JSON, [MergeWithJSON] leaves the
    event as it is and returns an error whose cause is the syntax error of
    [encoding/json] and whose message holds the text, quoted. *)
Theorem MergeWithJSON_invalid_JSON (event : Event) (eventJSON : string) :
  json.Valid eventJSON = false ->
  fst (MergeWithJSON event eventJSON) = event /\
  exists err, snd (MergeWithJSON event eventJSON) = Some err /\
    Error err =
      "error unmarshalling ANS event from JSON string " +:+ strconv_Quote eventJSON +:+
      ": " +:+ Error SyntaxError /\
    errors.Cause err = SyntaxError /\
    Contains (Error err) (strconv_Quote eventJSON).
Proof.
  unfold json.Valid. intros Hvalid.
  destruct (json.parse eventJSON) as [x |] eqn:Hparse; [discriminate |].
  split.
  - now rewrite MergeWithJSON_event, Hparse.
  - rewrite MergeWithJSON_error. unfold json.Unmarshal. rewrite Hparse. cbn [snd].
    eexists. split; [reflexivity |].
    split; [cbn [Error]; now rewrite append_assoc |].
    split; [reflexivity |].
    exists "error unmarshalling ANS event from JSON string ", (": " +:+ Error SyntaxError).
    cbn [Error]. now rewrite !append_assoc.
Qed.

(** X10: for a JSON document that is not an object, [MergeWithJSON] leaves
    the event as it is; it returns nil for [null], and for any other
    document an error whose cause says that a document of that kind cannot
    be stored into an [ans.Event]. *)
Theorem MergeWithJSON_not_an_object (event : Event) (eventJSON : string) (x : json.value) :
  json.parse eventJSON = Some x ->
  (forall ms, x <> json.JObject ms) ->
  fst (MergeWithJSON event eventJSON) = event /\
  (x = json.JNull -> snd (MergeWithJSON event eventJSON) = None) /\
  (x <> json.JNull ->
   exists err, snd (MergeWithJSON event eventJSON) = Some err /\
     errors.Cause err = UnmarshalTypeError (json.describe x) "ans.Event" /\
     Contains (Error err) (strconv_Quote eventJSON)).
Proof.
  intros Hparse Hobj.
  split.
  { rewrite MergeWithJSON_event, Hparse.
    destruct x as [| b | lit | s | elems | ms]; try reflexivity.
    now destruct (Hobj ms). }
  rewrite MergeWithJSON_error. unfold json.Unmarshal. rewrite Hparse.
  split.
  - intros ->. reflexivity.
  - intros Hnull.
    assert (E : snd (@json.decode _ (json.pointerCodec Event_codec) x (Some event)) =
                Some (UnmarshalTypeError (json.describe x) "ans.Event")).
    { destruct x as [| b | lit | s | elems | ms]; try reflexivity;
        [now destruct Hnull | now destruct (Hobj ms)]. }
    rewrite E. eexists. split; [reflexivity |]. split; [reflexivity |].
    cbn [Error].
    exists "error unmarshalling ANS event from JSON string ",
      (": " +:+ Error (UnmarshalTypeError (json.describe x) "ans.Event")).
    now rewrite !append_assoc.
Qed.

Lemma decodeMembers_unknown {T : Type} (fields : list (json.field T))
    (ms : list (string * json.value)) (v : T) (saved : option error) :
  (forall key, In key (map fst ms) -> json.findField fields key = None) ->
  json.decodeMembers fields ms v saved = (v, saved).
Proof.
  induction ms as [| [key x] ms IH]; intros H; [reflexivity |].
  cbn [json.decodeMembers]. rewrite (H key) by now left.
  apply IH. intros key' Hin. apply H. now right.
Qed.

Lemma selected_None (key : string) :
  selected key = None <-> json.findField Event_fields key = None.
Proof.
  unfold selected. destruct (json.findField Event_fields key); split; congruence.
Qed.

(** X11: members of the JSON object whose key selects no field of [Event]
    are ignored: an object with such members only leaves the event as it is,
    and no error is returned. *)
Theorem MergeWithJSON_unknown_members (event : Event) (eventJSON : string)
    (ms : list (string * json.value)) :
  json.parse eventJSON = Some (json.JObject ms) ->
  (forall key, In key (map fst ms) -> selected key = None) ->
  MergeWithJSON event eventJSON = (event, None).
Proof.
  intros Hparse Hnone.
  unfold MergeWithJSON, json.Unmarshal. rewrite Hparse.
  cbn [json.decode json.pointerCodec Event_codec json.structCodec default].
  rewrite decodeMembers_unknown; [reflexivity |].
  intros key Hin. apply selected_None. now apply Hnone.
Qed.
End merge_errors.

(** A text that breaks off; an array; [null]; an object with a member that
    [Event] has no field for. *)
Lemma MergeWithJSON_invalid_JSON_witness :
  json.Valid "{" = false /\
  fst (MergeWithJSON (eventAB acceptingWorld) "{") = eventAB acceptingWorld /\
  exists err, snd (MergeWithJSON (eventAB acceptingWorld) "{") = Some err /\
    errors.Cause err = SyntaxError.
Proof.
  assert (H : json.Valid "{" = false) by reflexivity.
  split; [exact H |].
  destruct (@MergeWithJSON_invalid_JSON acceptingWorld (eventAB _) "{" H)
    as (Hevent & err & Herr & _ & Hcause & _).
  split; [exact Hevent |]. exists err. split; [exact Herr | exact Hcause].
Defined.

Lemma MergeWithJSON_not_an_object_witness :
  json.parse "[1]" = Some (json.JArray [json.JNumber "1"]) /\
  (forall ms, json.JArray [json.JNumber "1"] <> json.JObject ms) /\
  fst (MergeWithJSON (eventAB acceptingWorld) "[1]") = eventAB acceptingWorld /\
  exists err, snd (MergeWithJSON (eventAB acceptingWorld) "[1]") = Some err /\
    errors.Cause err = UnmarshalTypeError "array" "ans.Event".
Proof.
  assert (P : json.parse "[1]" = Some (json.JArray [json.JNumber "1"])) by reflexivity.
  assert (O : forall ms, json.JArray [json.JNumber "1"] <> json.JObject ms) by discriminate.
  split; [exact P |]. split; [exact O |].
  destruct (@MergeWithJSON_not_an_object acceptingWorld (eventAB _) "[1]" _ P O)
    as (Hevent & _ & Herr).
  split; [exact Hevent |].
  destruct Herr as (err & Herr & Hcause & _); [discriminate |].
  exists err. split; [exact Herr | exact Hcause].
Defined.

Lemma MergeWithJSON_unknown_members_witness :
  json.parse ("{" +:+ quoted "colour" +:+ ":1}") =
    Some (json.JObject [("colour", json.JNumber "1")]) /\
  (forall key, In key (map fst [("colour", json.JNumber "1")]) ->
     @selected acceptingWorld key = None) /\
  MergeWithJSON (eventAB acceptingWorld) ("{" +:+ quoted "colour" +:+ ":1}") =
    (eventAB acceptingWorld, None).
Proof.
  assert (P : json.parse ("{" +:+ quoted "colour" +:+ ":1}") =
              Some (json.JObject [("colour", json.JNumber "1")])) by reflexivity.
  assert (U : forall key, In key (map fst [("colour", json.JNumber "1")]) ->
                @selected acceptingWorld key = None).
  { intros key [<- | []]. reflexivity. }
  split; [exact P |]. split; [exact U |].
  exact (@MergeWithJSON_unknown_members acceptingWorld (eventAB _) _ _ P U).
Defined.


(** ** Keys and fields *)
Section keys.
Context {T : Type}.
Implicit Types (fields : list (json.field T)).

Lemma findField_foldName fields key f :
  json.findField fields key = Some f ->
  json.foldName (json.name f) = json.foldName key.
Proof.
  unfold json.findField.
  destruct (find _ fields) as [g |] eqn:E1.
  - intros [= <-]. apply find_some in E1. destruct E1 as [_ E1].
    apply String.eqb_eq in E1. now rewrite E1.
  - intros E2. apply find_some in E2. destruct E2 as [_ E2].
    now apply String.eqb_eq in E2.
Qed.

(** A key selects the field whose folded name is the folded key. *)
Lemma findField_iff fields key f :
  distinctFolded fields ->
  json.findField fields key = Some f <->
  In f fields /\ json.foldName (json.name f) = json.foldName key.
Proof.
  intros Hdistinct. split.
  - intros H. split; [now apply findField_In in H | now apply findField_foldName in H].
  - intros [Hin Hfold]. unfold json.findField.
    destruct (find (fun f0 => String.eqb (json.name f0) key) fields) as [g |] eqn:E1.
    + apply find_some in E1. destruct E1 as [Hg E1]. apply String.eqb_eq in E1.
      f_equal. apply Hdistinct; [exact Hg | exact Hin |]. now rewrite E1, Hfold.
    + destruct (find (fun f0 => String.eqb (json.foldName (json.name f0)) (json.foldName key))
                  fields) as [g |] eqn:E2.
      * apply find_some in E2. destruct E2 as [Hg E2]. apply String.eqb_eq in E2.
        f_equal. apply Hdistinct; [exact Hg | exact Hin |]. now rewrite E2, Hfold.
      * exfalso. pose proof (find_none _ _ E2 f Hin) as E. cbn beta in E.
        rewrite Hfold, String.eqb_refl in E. discriminate E.
Qed.
End keys.

Section keys_of_the_package.
Context {W : World}.

Lemma Event_fields_folded : distinctFolded Event_fields.
Proof.
  intros f g Hf Hg. unfold Event_fields in Hf, Hg.
  in_cases Hf; in_cases Hg; intros H; first [reflexivity | discriminate H].
Qed.

Lemma Resource_fields_folded : distinctFolded Resource_fields.
Proof.
  intros f g Hf Hg. unfold Resource_fields in Hf, Hg.
  in_cases Hf; in_cases Hg; intros H; first [reflexivity | discriminate H].
Qed.

Lemma ServiceKey_fields_folded : distinctFolded ServiceKey_fields.
Proof.
  intros f g Hf Hg. unfold ServiceKey_fields in Hf, Hg.
  in_cases Hf; in_cases Hg; intros H; first [reflexivity | discriminate H].
Qed.

(** X12: the key of a member of a JSON object selects the field of
    [Event], of [Resource] and of [ServiceKey] whose name is the key up to
    the folding of letter case, and no field when there is none; so a key
    selects at most one field, and the exact spelling of the key is of no
    consequence. *)
Theorem keys_select_by_folded_name :
  (forall key f, json.findField Event_fields key = Some f <->
     In f Event_fields /\ json.foldName (json.name f) = json.foldName key) /\
  (forall key f, json.findField Resource_fields key = Some f <->
     In f Resource_fields /\ json.foldName (json.name f) = json.foldName key) /\
  (forall key f, json.findField ServiceKey_fields key = Some f <->
     In f ServiceKey_fields /\ json.foldName (json.name f) = json.foldName key) /\
  (forall key name, selected key = Some name <->
     In name (map json.name Event_fields) /\ json.foldName name = json.foldName key) /\
  (forall key key', json.foldName key = json.foldName key' -> selected key = selected key').
Proof.
  assert (E : forall key f, json.findField Event_fields key = Some f <->
     In f Event_fields /\ json.foldName (json.name f) = json.foldName key).
  { intros. apply findField_iff, Event_fields_folded. }
  assert (S : forall key name, selected key = Some name <->
     In name (map json.name Event_fields) /\ json.foldName name = json.foldName key).
  { intros key name. split.
    - intros H. apply selected_field in H. destruct H as (f & Hf & <-).
      apply E in Hf. destruct Hf as [Hin Hfold]. split; [now apply in_map | exact Hfold].
    - intros [Hin Hfold]. apply in_map_iff in Hin. destruct Hin as (f & <- & Hin).
      apply selected_name. apply E. auto. }
  split; [exact E |].
  split; [intros; apply findField_iff, Resource_fields_folded |].
  split; [intros; apply findField_iff, ServiceKey_fields_folded |].
  split; [exact S |].
  intros key key' Hfold.
  destruct (selected key) as [name |] eqn:H1.
  - apply S in H1. symmetry. apply S. now rewrite <- Hfold.
  - destruct (selected key') as [name |] eqn:H2; [| reflexivity].
    apply S in H2. rewrite <- Hfold in H2. apply S in H2. congruence.
Qed.
End keys_of_the_package.

(** ** The error of a merge *)

Lemma stringCodec_errorByDocument : errorByDocument json.stringCodec.
Proof. intros x v v'. now destruct x. Qed.

Lemma intCodec_errorByDocument (name : string) : errorByDocument (json.intCodec name).
Proof.
  intros x v v'. destruct x as [| b | lit | s | elems | ms]; try reflexivity.
  cbn. now destruct (strconv.ParseInt lit).
Qed.

Lemma mapCodec_errorByDocument {T : Type} (C : json.Codec T) :
  errorByDocument (json.mapCodec C).
Proof.
  assert (H : forall ms (m m' : gmap string T) saved,
            snd (json.decodeEntries C ms m saved) = snd (json.decodeEntries C ms m' saved)).
  { induction ms as [| [k x] ms IH]; intros m m' saved; [reflexivity |].
    cbn [json.decodeEntries]. destruct (json.decode x json.zeroValue) as [y err].
    apply IH. }
  intros x v v'. destruct x as [| b | lit | s | elems | ms]; try reflexivity.
  cbn [json.decode json.mapCodec].
  specialize (H ms (default ∅ v) (default ∅ v') None).
  destruct (json.decodeEntries C ms (default ∅ v) None),
           (json.decodeEntries C ms (default ∅ v') None).
  exact H.
Qed.

Lemma decodeMembers_error {T : Type} (fields : list (json.field T))
    (ms : list (string * json.value)) :
  (forall f, In f fields -> errorByDocument (json.fcodec f)) ->
  forall (v v' : T) (saved : option error),
    snd (json.decodeMembers fields ms v saved) = snd (json.decodeMembers fields ms v' saved).
Proof.
  intros Hfields. induction ms as [| [key x] ms IH]; intros v v' saved; [reflexivity |].
  cbn [json.decodeMembers].
  destruct (json.findField fields key) as [f |] eqn:Hf; [| apply IH].
  pose proof (Hfields f (findField_In _ _ _ Hf) x (json.get f v) (json.get f v')) as E.
  destruct (json.decode x (json.get f v)) as [y err],
           (json.decode x (json.get f v')) as [y' err'].
  cbn [snd] in E. subst err'. apply IH.
Qed.

Lemma structCodec_errorByDocument {T : Type} (tname : string) (zero : T)
    (fields : list (json.field T)) :
  (forall f, In f fields -> errorByDocument (json.fcodec f)) ->
  errorByDocument (json.structCodec tname zero fields).
Proof.
  intros Hfields x v v'. destruct x; try reflexivity.
  cbn [json.decode json.structCodec]. now apply decodeMembers_error.
Qed.

Lemma pointerCodec_errorByDocument {T : Type} (C : json.Codec T) :
  errorByDocument C -> errorByDocument (json.pointerCodec C).
Proof.
  intros HC x p p'.
  pose proof (HC x (default json.zeroValue p) (default json.zeroValue p')) as E.
  destruct x; try reflexivity; cbn [json.decode json.pointerCodec];
    match goal with
    | |- context [@json.decode T C ?d (default json.zeroValue p)] =>
      destruct (@json.decode T C d (default json.zeroValue p)),
               (@json.decode T C d (default json.zeroValue p'))
    end; exact E.
Qed.

Section merge_error.
Context {W : World}.

Lemma Resource_errorByDocument : errorByDocument Resource_codec.
Proof.
  apply structCodec_errorByDocument. intros f Hf. unfold Resource_fields in Hf.
  in_cases Hf; cbn [json.fcodec];
    first [apply stringCodec_errorByDocument | apply mapCodec_errorByDocument].
Qed.

Lemma Event_errorByDocument : errorByDocument Event_codec.
Proof.
  apply structCodec_errorByDocument. intros f Hf. unfold Event_fields in Hf.
  in_cases Hf; cbn [json.fcodec];
    first [ apply stringCodec_errorByDocument | apply intCodec_errorByDocument
          | apply mapCodec_errorByDocument
          | apply pointerCodec_errorByDocument, Resource_errorByDocument ].
Qed.

(** X13: whether [MergeWithJSON] returns an error, and which, depends on
    the JSON text only, not on the event it is merged into. *)
Theorem MergeWithJSON_error_by_JSON (event event' : Event) (eventJSON : string) :
  snd (MergeWithJSON event eventJSON) = snd (MergeWithJSON event' eventJSON).
Proof.
  rewrite !MergeWithJSON_error. unfold json.Unmarshal.
  destruct (json.parse eventJSON) as [x |]; [| reflexivity].
  now rewrite (pointerCodec_errorByDocument _ Event_errorByDocument x (Some event) (Some event')).
Qed.
End merge_error.

(** ** [UnmarshallServiceKeyJSON]: what is stored, and when it fails *)

Lemma ServiceKey_field_error f (x : json.value) (u : json.ftype f) :
  In f ServiceKey_fields ->
  (snd (@json.decode _ (json.fcodec f) x u) = None <->
   x = json.JNull \/ exists s, x = json.JString s).
Proof.
  intros Hf. unfold ServiceKey_fields in Hf.
  in_cases Hf; cbn in u |- *; destruct x; cbn [snd];
    (split; [intros H; first [discriminate H | now left | right; eauto]
            | intros [H | [s' H]]; first [discriminate H | reflexivity]]).
Qed.

Lemma ServiceKey_decode_error (ms : list (string * json.value)) :
  forall (k : ServiceKey) (saved : option error),
    snd (json.decodeMembers ServiceKey_fields ms k saved) = None <->
    saved = None /\
    forall key v, In (key, v) ms -> is_Some (json.findField ServiceKey_fields key) ->
      v = json.JNull \/ exists s, v = json.JString s.
Proof.
  induction ms as [| [key x] ms IH]; intros k saved.
  - cbn. split; [intros ->; split; [reflexivity | intros ? ? []] | now intros [-> _]].
  - cbn [json.decodeMembers].
    destruct (json.findField ServiceKey_fields key) as [f |] eqn:Hf.
    + pose proof (ServiceKey_field_error f x (json.get f k) (findField_In _ _ _ Hf)) as E.
      destruct (json.decode x (json.get f k)) as [y err]. cbn [snd] in E.
      rewrite IH. split.
      * intros [Hsaved Hms]. destruct saved; [discriminate Hsaved |].
        cbn in Hsaved. subst err. split; [reflexivity |].
        intros key' v [[= <- <-] | Hin] Hsel; [now apply E | exact (Hms _ _ Hin Hsel)].
      * intros [-> Hms]. split.
        { cbn. apply E. apply (Hms key); [now left | rewrite Hf; eauto]. }
        intros key' v Hin. apply (Hms key'). now right.
    + rewrite IH. split.
      * intros [-> Hms]. split; [reflexivity |].
        intros key' v [[= <- <-] | Hin] Hsel; [| exact (Hms _ _ Hin Hsel)].
        rewrite Hf in Hsel. now destruct Hsel.
      * intros [-> Hms]. split; [reflexivity |].
        intros key' v Hin. apply (Hms key'). now right.
Qed.

(** X14: [UnmarshallServiceKeyJSON] returns nil exactly for a text that is
    valid JSON and is [null] or an object in which every member that
    selects a field of [ServiceKey] is a JSON string or [null].  A missing
    member is no error, and neither is a member that selects no field. *)
Theorem UnmarshallServiceKeyJSON_nil_iff (text : string) :
  snd (UnmarshallServiceKeyJSON text) = None <->
  exists x, json.parse text = Some x /\
    (x = json.JNull \/
     exists ms, x = json.JObject ms /\
       forall key v, In (key, v) ms -> is_Some (json.findField ServiceKey_fields key) ->
         v = json.JNull \/ exists s, v = json.JString s).
Proof.
  unfold UnmarshallServiceKeyJSON, json.Unmarshal.
  destruct (json.parse text) as [x |].
  2: { cbn. split; [discriminate | intros (x & H & _); discriminate H]. }
  cbn [json.decode ServiceKey_codec json.structCodec].
  destruct x as [| b | lit | s | elems | ms]; cbn [snd].
  1-5: split;
    [ intros H; first [discriminate H | eexists; split; [reflexivity | now left]]
    | intros (x & [= <-] & [H | (ms & H & _)]); first [discriminate H | reflexivity] ].
  pose proof (ServiceKey_decode_error ms zeroServiceKey None) as E.
  destruct (json.decodeMembers ServiceKey_fields ms zeroServiceKey None) as [k o].
  cbn [snd] in E. destruct o as [err |]; cbn [snd].
  - split; [discriminate |].
    intros (x & [= <-] & [H | (ms' & [= <-] & H)]); [discriminate H |].
    assert (D : Some err = None) by (apply E; split; [reflexivity | exact H]).
    discriminate D.
  - split; [| reflexivity]. intros _. eexists. split; [reflexivity |].
    right. eexists. split; [reflexivity |]. now apply E.
Qed.

Lemma ServiceKey_decode_fields (ms : list (string * json.value)) :
  forall (k : ServiceKey) (saved : option error),
    fst (json.decodeMembers ServiceKey_fields ms k saved) =
    mkServiceKey (lastString "url" ms (Url k)) (lastString "client_id" ms (ClientId k))
      (lastString "client_secret" ms (ClientSecret k))
      (lastString "oauth_url" ms (OauthUrl k)).
Proof.
  induction ms as [| [key x] ms IH]; intros k saved; [now destruct k |].
  cbn [json.decodeMembers]. unfold lastString. cbn [fold_left fst snd].
  fold (lastString "url" ms). fold (lastString "client_id" ms).
  fold (lastString "client_secret" ms). fold (lastString "oauth_url" ms).
  destruct (json.findField ServiceKey_fields key) as [f |] eqn:Hf; [| apply IH].
  apply findField_In in Hf. unfold ServiceKey_fields in Hf.
  in_cases Hf; cbn [json.fcodec json.get json.set json.decode json.stringCodec json.name];
    destruct x; rewrite IH; reflexivity.
Qed.

(** X15: for a JSON object, each field of the key that
    [UnmarshallServiceKeyJSON] returns holds the string of the last member
    that selects the field and is a JSON string, and the empty string when
    there is no such member; this is so also when an error is returned.
    For any other text the key returned is the zero key. *)
Theorem UnmarshallServiceKeyJSON_fields (text : string) :
  (forall ms, json.parse text = Some (json.JObject ms) ->
     fst (UnmarshallServiceKeyJSON text) =
     mkServiceKey (lastString "url" ms "") (lastString "client_id" ms "")
       (lastString "client_secret" ms "") (lastString "oauth_url" ms "")) /\
  ((forall ms, json.parse text <> Some (json.JObject ms)) ->
   fst (UnmarshallServiceKeyJSON text) = zeroServiceKey).
Proof.
  unfold UnmarshallServiceKeyJSON, json.Unmarshal. split.
  - intros ms ->. cbn [json.decode ServiceKey_codec json.structCodec].
    pose proof (ServiceKey_decode_fields ms zeroServiceKey None) as E.
    destruct (json.decodeMembers ServiceKey_fields ms zeroServiceKey None) as [k [err |]];
      exact E.
  - intros H. destruct (json.parse text) as [x |]; [| reflexivity].
    destruct x as [| b | lit | s | elems | ms]; try reflexivity.
    now destruct (H ms).
Qed.

(** The key in upper case selects [url]; the number that follows under
    [url] is an error and leaves the field as it is; [region] is ignored. *)
Lemma UnmarshallServiceKeyJSON_fields_witness :
  json.parse mixedServiceKeyJSON =
    Some (json.JObject [("URL", json.JString "https://ans.example");
                        ("url", json.JNumber "7");
                        ("client_id", json.JString "sb-client");
                        ("region", json.JString "eu10")]) /\
  fst (UnmarshallServiceKeyJSON mixedServiceKeyJSON) =
    mkServiceKey "https://ans.example" "sb-client" "" "" /\
  errors.Cause (default SyntaxError (snd (UnmarshallServiceKeyJSON mixedServiceKeyJSON))) =
    UnmarshalTypeError "number" "string".
Proof.
  assert (P : json.parse mixedServiceKeyJSON =
    Some (json.JObject [("URL", json.JString "https://ans.example");
                        ("url", json.JNumber "7");
                        ("client_id", json.JString "sb-client");
                        ("region", json.JString "eu10")])) by reflexivity.
  split; [exact P |]. split; [| reflexivity].
  rewrite (proj1 (UnmarshallServiceKeyJSON_fields mixedServiceKeyJSON) _ P).
  reflexivity.
Defined.

(** ** The level mapping: categories *)

(** X16: the category is EXCEPTION exactly for the levels Panic, Fatal and
    Error, which are the levels up to [logrus.ErrorLevel]; it is ALERT
    exactly for Warn; and the severity of a level determines its
    category. *)
Theorem category_by_level :
  (forall level : logrus.Level,
     snd (TranslateLogrusLogLevel level) = exceptionCategory <->
     logrus.PanicLevel <= level <= logrus.ErrorLevel) /\
  (forall level : logrus.Level,
     snd (TranslateLogrusLogLevel level) = alertCategory <-> level = logrus.WarnLevel) /\
  (forall level level' : logrus.Level,
     fst (TranslateLogrusLogLevel level) = fst (TranslateLogrusLogLevel level') ->
     snd (TranslateLogrusLogLevel level) = snd (TranslateLogrusLogLevel level')).
Proof.
  split; [| split].
  - intros level. unfold logrus.PanicLevel, logrus.ErrorLevel.
    level_cases level; subst; cbn [snd]; (split; [intros H; try discriminate H; lia | ]);
      intros H; first [reflexivity | lia].
  - intros level. level_cases level; subst; cbn [snd];
      (split; [intros H; first [discriminate H | reflexivity] | ]);
      intros H; first [reflexivity | discriminate H | congruence].
  - intros level level'.
    level_cases level; level_cases level'; subst; cbn [fst snd]; intros H;
      first [reflexivity | discriminate H].
Qed.

(** ** Merging in steps, and merging twice *)

Lemma storeAll_cons {T : Type} (C : json.Codec T) (x : json.value) (xs : list json.value)
    (v : T) :
  storeAll C (x :: xs) v = storeAll C xs (fst (@json.decode T C x v)).
Proof. reflexivity. Qed.

Section decoding_in_steps.
Context {T : Type}.
Implicit Types (fields : list (json.field T)) (v : T).

Lemma decodeMembers_app fields ms1 ms2 v saved :
  json.decodeMembers fields (ms1 ++ ms2) v saved =
  json.decodeMembers fields ms2 (fst (json.decodeMembers fields ms1 v saved))
    (snd (json.decodeMembers fields ms1 v saved)).
Proof.
  revert v saved. induction ms1 as [| [key x] ms1 IH]; intros v saved; [reflexivity |].
  cbn [app json.decodeMembers].
  destruct (json.findField fields key) as [f |]; [| apply IH].
  destruct (json.decode x (json.get f v)) as [y err]. apply IH.
Qed.

Lemma decodeMembers_saved fields ms v saved :
  fst (json.decodeMembers fields ms v saved) = fst (json.decodeMembers fields ms v None) /\
  snd (json.decodeMembers fields ms v saved) =
    json.saveError saved (snd (json.decodeMembers fields ms v None)).
Proof.
  revert v saved. induction ms as [| [key x] ms IH]; intros v saved.
  - cbn. now destruct saved.
  - cbn [json.decodeMembers].
    destruct (json.findField fields key) as [f |]; [| apply IH].
    destruct (json.decode x (json.get f v)) as [y err].
    destruct (IH (json.set f y v) (json.saveError saved err)) as [IH1 IH2].
    destruct (IH (json.set f y v) (json.saveError None err)) as [IH3 IH4].
    split; [now rewrite IH1, IH3 |].
    rewrite IH2, IH4. now destruct saved, err.
Qed.

Lemma selecting_cons fields f key x ms :
  selecting fields f ((key, x) :: ms) =
  match json.findField fields key with
  | Some g =>
    if String.eqb (json.name g) (json.name f) then x :: selecting fields f ms
    else selecting fields f ms
  | None => selecting fields f ms
  end.
Proof.
  unfold selecting. cbn [List.filter fst].
  destruct (json.findField fields key) as [g |]; [| reflexivity].
  now destruct (String.eqb (json.name g) (json.name f)).
Qed.

Lemma decodeMembers_get fields ms v saved f :
  fieldsOfRecord fields -> distinctNames fields -> In f fields ->
  json.get f (fst (json.decodeMembers fields ms v saved)) =
  storeAll (json.fcodec f) (selecting fields f ms) (json.get f v).
Proof.
  intros [Hsame Hother] Hdistinct Hf. revert v saved.
  induction ms as [| [key x] ms IH]; intros v saved; [reflexivity |].
  cbn [json.decodeMembers]. rewrite selecting_cons.
  destruct (json.findField fields key) as [g |] eqn:Hg; [| apply IH].
  pose proof (findField_In _ _ _ Hg) as Hin.
  destruct (String.eqb_spec (json.name g) (json.name f)) as [Hname | Hname].
  - pose proof (Hdistinct g f Hin Hf Hname) as ->.
    destruct (json.decode x (json.get f v)) as [y err] eqn:Hd.
    rewrite IH, Hsame by exact Hf. rewrite storeAll_cons. now rewrite Hd.
  - destruct (json.decode x (json.get g v)) as [y err].
    rewrite IH. f_equal. apply Hother; [exact Hf | exact Hin |]. congruence.
Qed.
End decoding_in_steps.

Lemma storeAll_app {T : Type} (C : json.Codec T) (xs ys : list json.value) (v : T) :
  storeAll C (xs ++ ys) v = storeAll C ys (storeAll C xs v).
Proof. apply fold_left_app. Qed.

Lemma replaceOrKeep_idempotent {T : Type} (C : json.Codec T) :
  replaceOrKeep C -> idempotentCodec C.
Proof.
  intros H.
  assert (K : forall xs, (forall u, storeAll C xs u = u) \/
                         (exists c, forall u, storeAll C xs u = c)).
  { induction xs as [| x xs IH]; [now left |].
    destruct (H x) as [Hkeep | [c Hc]].
    - destruct IH as [IH | [c IH]]; [left | right; exists c]; intros u;
        rewrite storeAll_cons, Hkeep; apply IH.
    - right. exists (storeAll C xs c). intros u. now rewrite storeAll_cons, Hc. }
  intros xs v. destruct (K xs) as [Hid | [c Hc]]; [now rewrite !Hid | now rewrite !Hc].
Qed.

Lemma stringCodec_replaceOrKeep : replaceOrKeep json.stringCodec.
Proof.
  intros x. destruct x as [| b | lit | s | elems | ms];
    first [now left | right; exists s; reflexivity].
Qed.

Lemma intCodec_replaceOrKeep (name : string) : replaceOrKeep (json.intCodec name).
Proof.
  intros x. destruct x as [| b | lit | s | elems | ms]; try now left.
  cbn. destruct (strconv.ParseInt lit) as [n |]; [right; exists n; reflexivity | now left].
Qed.

Lemma members_no_object (xs : list json.value) :
  existsb isObject xs = false -> flat_map members xs = [].
Proof.
  induction xs as [| x xs IH]; [reflexivity |].
  cbn [existsb flat_map]. intros H. apply orb_false_iff in H. destruct H as [Hx Hxs].
  rewrite IH by exact Hxs. destruct x; try reflexivity. discriminate Hx.
Qed.

(** Whether a document is [null] among the documents is decidable. *)
Lemma null_in_dec (xs : list json.value) : {In json.JNull xs} + {~ In json.JNull xs}.
Proof.
  induction xs as [| x xs [IH | IH]].
  - right. intros [].
  - left. now right.
  - destruct x as [| b | lit | s | elems | ms];
      first [left; now left | right; intros [H | H]; [discriminate H | contradiction]].
Qed.

(** *** Maps *)
Section maps.
Context {T : Type} (C : json.Codec T).

Lemma insertAll_cons k x es (m : gmap string T) :
  insertAll C ((k, x) :: es) m =
  insertAll C es (<[k := fst (@json.decode T C x (@json.zeroValue T C))]> m).
Proof. reflexivity. Qed.

Lemma decodeEntries_insertAll es (m : gmap string T) saved :
  fst (json.decodeEntries C es m saved) = insertAll C es m.
Proof.
  revert m saved. induction es as [| [k x] es IH]; intros m saved; [reflexivity |].
  cbn [json.decodeEntries]. rewrite insertAll_cons.
  destruct (json.decode x json.zeroValue) as [y err]. apply IH.
Qed.

Lemma insertAll_app es es' (m : gmap string T) :
  insertAll C (es ++ es') m = insertAll C es' (insertAll C es m).
Proof. apply fold_left_app. Qed.

Lemma insertAll_other es (m : gmap string T) k :
  ~ In k (map fst es) -> insertAll C es m !! k = m !! k.
Proof.
  revert m. induction es as [| [k0 x] es IH]; intros m Hk; [reflexivity |].
  rewrite insertAll_cons.
  rewrite IH by (intros Hin; apply Hk; now right).
  apply lookup_insert_ne. intros ->. apply Hk. now left.
Qed.

Lemma insertAll_key es (m m' : gmap string T) k :
  In k (map fst es) -> insertAll C es m !! k = insertAll C es m' !! k.
Proof.
  revert m m'. induction es as [| [k0 x] es IH]; intros m m' Hk; [destruct Hk |].
  rewrite !insertAll_cons.
  destruct (in_dec string_dec k (map fst es)) as [Hin | Hout]; [now apply IH |].
  destruct Hk as [Hk | Hk]; [| contradiction]. cbn in Hk. subst k0.
  rewrite !insertAll_other by exact Hout. now rewrite !lookup_insert_eq.
Qed.

Lemma insertAll_idempotent es (m : gmap string T) :
  insertAll C es (insertAll C es m) = insertAll C es m.
Proof.
  apply map_eq. intros k.
  destruct (in_dec string_dec k (map fst es)) as [Hin | Hout].
  - now apply insertAll_key.
  - now rewrite !insertAll_other.
Qed.

(** With no [null] among them, the objects among the documents are stored
    into the map one after the other. *)
Lemma storeAll_map xs (u : option (gmap string T)) :
  ~ In json.JNull xs ->
  storeAll (json.mapCodec C) xs u =
  if existsb isObject xs
  then Some (insertAll C (flat_map members xs) (default ∅ u))
  else u.
Proof.
  revert u. induction xs as [| x xs IH]; intros u Hnull; [reflexivity |].
  assert (Hnull' : ~ In json.JNull xs) by (intros H; apply Hnull; now right).
  rewrite storeAll_cons.
  destruct x as [| b | lit | s | elems | ms];
    try (cbn [json.decode json.mapCodec fst existsb isObject orb flat_map members app];
         now apply IH).
  - exfalso. apply Hnull. now left.
  - cbn [json.decode json.mapCodec].
    pose proof (decodeEntries_insertAll ms (default ∅ u) None) as E.
    destruct (json.decodeEntries C ms (default ∅ u) None) as [m err]. cbn [fst] in E |- *.
    rewrite IH by exact Hnull'. cbn [existsb isObject orb flat_map members default].
    rewrite insertAll_app, E.
    destruct (existsb isObject xs) eqn:Hex; [reflexivity |].
    now rewrite (members_no_object xs Hex).
Qed.

Lemma mapCodec_idempotent : idempotentCodec (json.mapCodec C).
Proof.
  intros xs u.
  destruct (null_in_dec xs) as [Hin | Hout].
  - apply in_split in Hin. destruct Hin as (xs1 & xs2 & ->).
    rewrite !storeAll_app. reflexivity.
  - rewrite !storeAll_map by exact Hout.
    destruct (existsb isObject xs); [| reflexivity].
    cbn [from_option id]. now rewrite insertAll_idempotent.
Qed.
End maps.

(** *** Pointers *)
Section pointers.
Context {T : Type} (C : json.Codec T).

Lemma storeAll_pointer xs (p : option T) :
  ~ In json.JNull xs -> xs <> [] ->
  storeAll (json.pointerCodec C) xs p =
  Some (storeAll C xs (default (@json.zeroValue T C) p)).
Proof.
  revert p. induction xs as [| x xs IH]; intros p Hnull Hne; [now destruct Hne |].
  assert (Hnull' : ~ In json.JNull xs) by (intros H; apply Hnull; now right).
  rewrite !storeAll_cons.
  assert (E : fst (@json.decode _ (json.pointerCodec C) x p) =
              Some (fst (@json.decode T C x (default json.zeroValue p)))).
  { destruct x as [| b | lit | s | elems | ms]; cbn [json.decode json.pointerCodec];
      try (destruct (json.decode _ (default json.zeroValue p)); reflexivity).
    exfalso. apply Hnull. now left. }
  rewrite E. destruct xs as [| x' xs']; [reflexivity |].
  rewrite IH by (try exact Hnull'; discriminate). reflexivity.
Qed.

Lemma pointerCodec_idempotent : idempotentCodec C -> idempotentCodec (json.pointerCodec C).
Proof.
  intros HC xs p.
  destruct (null_in_dec xs) as [Hin | Hout].
  - apply in_split in Hin. destruct Hin as (xs1 & xs2 & ->).
    rewrite !storeAll_app. reflexivity.
  - destruct xs as [| x xs]; [reflexivity |].
    rewrite !storeAll_pointer by (try exact Hout; discriminate).
    cbn [from_option id]. now rewrite HC.
Qed.
End pointers.

(** *** Structs *)
Section struct_idempotence.
Context {T : Type} (tname : string) (zero : T) (fields : list (json.field T)).
Hypothesis Hrecord : fieldsOfRecord fields.
Hypothesis Hdistinct : distinctNames fields.
Hypothesis Hext : recordExtensional fields.
Hypothesis Hfields : forall f, In f fields -> idempotentCodec (json.fcodec f).

Lemma decodeMembers_idempotent ms (v : T) saved saved' :
  fst (json.decodeMembers fields ms (fst (json.decodeMembers fields ms v saved)) saved') =
  fst (json.decodeMembers fields ms v saved).
Proof.
  apply Hext. intros f Hf.
  rewrite !(decodeMembers_get fields ms _ _ f Hrecord Hdistinct Hf).
  now apply Hfields.
Qed.

Lemma storeAll_struct xs (v : T) :
  storeAll (json.structCodec tname zero fields) xs v =
  fst (json.decodeMembers fields (flat_map members xs) v None).
Proof.
  revert v. induction xs as [| x xs IH]; intros v; [reflexivity |].
  rewrite storeAll_cons.
  rewrite IH. cbn [flat_map]. rewrite decodeMembers_app.
  rewrite (proj1 (decodeMembers_saved fields (flat_map members xs) _ (snd _))).
  destruct x as [| b | lit | s | elems | ms]; reflexivity.
Qed.

Lemma structCodec_idempotent : idempotentCodec (json.structCodec tname zero fields).
Proof.
  intros xs v. rewrite !storeAll_struct. apply decodeMembers_idempotent.
Qed.
End struct_idempotence.

Section merge_twice.
Context {W : World}.

Lemma Resource_fields_extensional : recordExtensional Resource_fields.
Proof.
  intros [a b c d] [a' b' c' d'] H.
  pose proof (fun f Hf => H f Hf) as G. unfold Resource_fields in G.
  f_equal.
  - exact (G _ (or_introl eq_refl)).
  - exact (G _ (or_intror (or_introl eq_refl))).
  - exact (G _ (or_intror (or_intror (or_introl eq_refl)))).
  - exact (G _ (or_intror (or_intror (or_intror (or_introl eq_refl))))).
Qed.

Lemma Event_fields_extensional : recordExtensional Event_fields.
Proof.
  intros [a b c d e f g h i] [a' b' c' d' e' f' g' h' i'] H.
  pose proof (fun f Hf => H f Hf) as G. unfold Event_fields in G.
  f_equal.
  - exact (G _ (or_introl eq_refl)).
  - exact (G _ (or_intror (or_introl eq_refl))).
  - exact (G _ (or_intror (or_intror (or_introl eq_refl)))).
  - exact (G _ (or_intror (or_intror (or_intror (or_introl eq_refl))))).
  - exact (G _ (or_intror (or_intror (or_intror (or_intror (or_introl eq_refl)))))).
  - exact (G _ (or_intror (or_intror (or_intror (or_intror (or_intror (or_introl eq_refl))))))).
  - exact (G _ (or_intror (or_intror (or_intror (or_intror (or_intror (or_intror
             (or_introl eq_refl)))))))).
  - exact (G _ (or_intror (or_intror (or_intror (or_intror (or_intror (or_intror
             (or_intror (or_introl eq_refl))))))))).
  - exact (G _ (or_intror (or_intror (or_intror (or_intror (or_intror (or_intror
             (or_intror (or_intror (or_introl eq_refl)))))))))).
Qed.

Lemma Resource_fields_idempotent f :
  In f Resource_fields -> idempotentCodec (json.fcodec f).
Proof.
  intros Hf. unfold Resource_fields in Hf.
  in_cases Hf; cbn [json.fcodec];
    first [ apply replaceOrKeep_idempotent, stringCodec_replaceOrKeep
          | apply mapCodec_idempotent ].
Qed.

Lemma Event_fields_idempotent f :
  In f Event_fields -> idempotentCodec (json.fcodec f).
Proof.
  intros Hf. unfold Event_fields in Hf.
  in_cases Hf; cbn [json.fcodec];
    first [ apply replaceOrKeep_idempotent, stringCodec_replaceOrKeep
          | apply replaceOrKeep_idempotent, intCodec_replaceOrKeep
          | apply mapCodec_idempotent
          | apply pointerCodec_idempotent, structCodec_idempotent;
            [ apply Resource_fields_record | apply Resource_fields_distinct
            | apply Resource_fields_extensional | apply Resource_fields_idempotent ] ].
Qed.

(** X17: merging the same JSON text a second time changes nothing:
    [MergeWithJSON] gives the event that the first merge gave, and the same
    error. *)
Theorem MergeWithJSON_idempotent (event : Event) (eventJSON : string) :
  MergeWithJSON (fst (MergeWithJSON event eventJSON)) eventJSON =
  MergeWithJSON event eventJSON.
Proof.
  apply injective_projections.
  2: { rewrite !MergeWithJSON_error. unfold json.Unmarshal.
       destruct (json.parse eventJSON) as [x |]; [| reflexivity].
       now rewrite (pointerCodec_errorByDocument _ Event_errorByDocument x
                      (Some (fst (MergeWithJSON event eventJSON))) (Some event)). }
  rewrite !MergeWithJSON_event.
  destruct (json.parse eventJSON) as [x |]; [| reflexivity].
  destruct x as [| b | lit | s | elems | ms]; try reflexivity.
  apply decodeMembers_idempotent.
  - apply Event_fields_record.
  - apply Event_fields_distinct.
  - apply Event_fields_extensional.
  - apply Event_fields_idempotent.
Qed.

Lemma MergeWithJSON_object_nil (event : Event) (eventJSON : string)
    (ms : list (string * json.value)) :
  json.parse eventJSON = Some (json.JObject ms) ->
  snd (MergeWithJSON event eventJSON) = None <->
  snd (json.decodeMembers Event_fields ms event None) = None.
Proof.
  intros Hparse. rewrite MergeWithJSON_error. unfold json.Unmarshal. rewrite Hparse.
  cbn [json.decode json.pointerCodec Event_codec json.structCodec from_option id].
  destruct (json.decodeMembers Event_fields ms event None) as [e [err |]]; cbn [snd];
    split; intros H; first [discriminate H | reflexivity].
Qed.

(** X18: merging the text of an object and then the text of another gives
    the event that merging one object with the members of both gives; and
    the merge of that object returns an error exactly when one of the two
    merges does. *)
Theorem MergeWithJSON_in_steps (event : Event) (json1 json2 json12 : string)
    (ms1 ms2 : list (string * json.value)) :
  json.parse json1 = Some (json.JObject ms1) ->
  json.parse json2 = Some (json.JObject ms2) ->
  json.parse json12 = Some (json.JObject (ms1 ++ ms2)) ->
  fst (MergeWithJSON (fst (MergeWithJSON event json1)) json2) =
    fst (MergeWithJSON event json12) /\
  (snd (MergeWithJSON event json12) = None <->
   snd (MergeWithJSON event json1) = None /\
   snd (MergeWithJSON (fst (MergeWithJSON event json1)) json2) = None).
Proof.
  intros H1 H2 H12. split.
  - rewrite !MergeWithJSON_event, H1, H2, H12, decodeMembers_app.
    now rewrite (proj1 (decodeMembers_saved Event_fields ms2 _ (snd _))).
  - rewrite (MergeWithJSON_object_nil _ _ _ H1), (MergeWithJSON_object_nil _ _ _ H2),
      (MergeWithJSON_object_nil _ _ _ H12).
    rewrite MergeWithJSON_event, H1, decodeMembers_app.
    rewrite (proj2 (decodeMembers_saved Event_fields ms2 _ (snd _))).
    destruct (json.decodeMembers Event_fields ms1 event None) as [e1 s1]. cbn [fst snd].
    destruct (json.decodeMembers Event_fields ms2 e1 None) as [e2 s2]. cbn [fst snd].
    destruct s1, s2; cbn; split; try discriminate; try tauto;
      intros [? ?]; discriminate.
Qed.
End merge_twice.

(** The priority, then the subject. *)
Lemma MergeWithJSON_in_steps_witness :
  json.parse priorityJSON = Some (json.JObject [("priority", json.JNumber "99")]) /\
  json.parse subjectJSON = Some (json.JObject [("subject", json.JString "deploy")]) /\
  json.parse subjectPriorityJSON =
    Some (json.JObject ([("priority", json.JNumber "99")] ++
                        [("subject", json.JString "deploy")])) /\
  fst (MergeWithJSON (fst (MergeWithJSON (eventAB acceptingWorld) priorityJSON)) subjectJSON) =
    fst (MergeWithJSON (eventAB acceptingWorld) subjectPriorityJSON).
Proof.
  assert (P1 : json.parse priorityJSON = Some (json.JObject [("priority", json.JNumber "99")]))
    by reflexivity.
  assert (P2 : json.parse subjectJSON = Some (json.JObject [("subject", json.JString "deploy")]))
    by reflexivity.
  assert (P12 : json.parse subjectPriorityJSON =
                Some (json.JObject ([("priority", json.JNumber "99")] ++
                                    [("subject", json.JString "deploy")])))
    by reflexivity.
  split; [exact P1 |]. split; [exact P2 |]. split; [exact P12 |].
  exact (proj1 (@MergeWithJSON_in_steps acceptingWorld (eventAB _) _ _ _ _ _ P1 P2 P12)).
Defined.

(** ** [MergeWithJSON]: every field, member by member *)

Lemma insertAll_last {T : Type} (C : json.Codec T) (es1 : list (string * json.value))
    (k : string) (v : json.value) (es2 : list (string * json.value)) (m : gmap string T) :
  ~ In k (map fst es2) ->
  insertAll C (es1 ++ (k, v) :: es2) m !! k =
  Some (fst (@json.decode T C v (@json.zeroValue T C))).
Proof.
  intros Hout. rewrite insertAll_app, insertAll_cons, insertAll_other by exact Hout.
  apply lookup_insert_eq.
Qed.

Section merge_fields.
Context {W : World}.

Ltac pair_cases H :=
  simpl in H;
  repeat match type of H with
         | _ \/ _ => destruct H as [H | H]; [injection H as <- <- |]
         | False => destruct H
         end.

(** The field record behind a key that selects the field [name]. *)
Ltac the_field key name Hsel :=
  let f := fresh "f" in
  let Hf := fresh "Hf" in
  let Hname := fresh "Hname" in
  let Hin := fresh "Hin" in
  destruct (selected_field key name Hsel) as (f & Hf & Hname);
  pose proof (findField_In _ _ _ Hf) as Hin;
  unfold Event_fields in Hin; simpl in Hin;
  repeat (destruct Hin as [Hin | Hin];
          [rewrite <- Hin in Hname; try discriminate Hname; subst f; clear Hname |]);
  try destruct Hin.

Lemma merged_stored (event : Event) (eventJSON : string) (x : json.value) f :
  json.parse eventJSON = Some x -> In f Event_fields ->
  json.get f (fst (MergeWithJSON event eventJSON)) =
  storeAll (json.fcodec f) (selecting Event_fields f (members x)) (json.get f event).
Proof.
  intros Hparse Hf. rewrite MergeWithJSON_event, Hparse.
  destruct x as [| b | lit | s | elems | ms]; try reflexivity.
  apply decodeMembers_get; [apply Event_fields_record | apply Event_fields_distinct | exact Hf].
Qed.

(** C2, amended.  For every [Event] and every merge JSON that is well
    formed: each field of the event holds afterwards what results from
    storing into it, one after the other in the order of the text, the
    values of the members whose key selects the field, and a field that no
    member selects is left as it is.  Storing a JSON string into a string
    field, or an integer literal within [int64] into an integer field,
    replaces what the field holds, and any other value leaves such a field as
    it is; so a string or integer field whose last member is such a value
    holds that value.  Storing an object into [tags] puts its entries into
    the map the field holds (a new map when it is nil): entries under other
    keys stay and, for a key the object has more than once, the last entry
    counts; storing [null] makes the map nil; any other value leaves it as it
    is.  So when the only member that selects [tags] is an object, the tags
    of the event are kept and the entries of the object are added to them.
    Storing an object into [resource] stores its members in the same way,
    field by field, into the resource the event points to (a new, empty one
    when the pointer is nil); storing [null] makes the pointer nil; any other
    value leaves the resource as it is, or makes an empty one when the pointer
    is nil.  So when the only member that selects [resource] is an object,
    each field of the resource holds what results from storing the values of
    the object's members that select it into what it held, a string field
    whose last member in the object is a JSON string holds that string, and
    a field the object has no member for is left as it is.  For the merge
    JSON with the only member priority 99, only the priority changes and no
    error is returned: an [Event] with priority 1 and timestamp 2 has
    priority 99 and timestamp 2 afterwards. *)
Theorem MergeWithJSON_fields (event : Event) :
  (forall (eventJSON : string) (x : json.value),
     json.parse eventJSON = Some x ->
     (forall f, In f Event_fields ->
        json.get f (fst (MergeWithJSON event eventJSON)) =
        storeAll (json.fcodec f) (selecting Event_fields f (members x)) (json.get f event)) /\
     (forall f, In f Event_fields ->
        (forall key, In key (map fst (members x)) -> selected key <> Some (json.name f)) ->
        json.get f (fst (MergeWithJSON event eventJSON)) = json.get f event) /\
     (forall name proj, In (name, proj) stringFields ->
        forall ms1 key s ms2,
          members x = (ms1 ++ (key, json.JString s) :: ms2)%list ->
          selected key = Some name ->
          (forall key', In key' (map fst ms2) -> selected key' <> Some name) ->
          proj (fst (MergeWithJSON event eventJSON)) = s) /\
     (forall name proj, In (name, proj) intFields ->
        forall ms1 key lit n ms2,
          members x = (ms1 ++ (key, json.JNumber lit) :: ms2)%list ->
          strconv.ParseInt lit = Some n ->
          selected key = Some name ->
          (forall key', In key' (map fst ms2) -> selected key' <> Some name) ->
          proj (fst (MergeWithJSON event eventJSON)) = n) /\
     (forall ms1 key entries ms2,
        members x = (ms1 ++ (key, json.JObject entries) :: ms2)%list ->
        selected key = Some "tags" ->
        (forall key', In key' (map fst (ms1 ++ ms2)) -> selected key' <> Some "tags") ->
        exists m, Tags (fst (MergeWithJSON event eventJSON)) = Some m /\
          (forall k, ~ In k (map fst entries) -> m !! k = default ∅ (Tags event) !! k) /\
          (forall es1 k v es2,
             entries = (es1 ++ (k, v) :: es2)%list -> ~ In k (map fst es2) ->
             m !! k = Some (fst (@json.decode _ anyCodec v (@json.zeroValue _ anyCodec))))) /\
     (forall ms1 key rms ms2,
        members x = (ms1 ++ (key, json.JObject rms) :: ms2)%list ->
        selected key = Some "resource" ->
        (forall key', In key' (map fst (ms1 ++ ms2)) -> selected key' <> Some "resource") ->
        exists r, EventResource (fst (MergeWithJSON event eventJSON)) = Some r /\
          (forall g, In g Resource_fields ->
             json.get g r =
             storeAll (json.fcodec g) (selecting Resource_fields g rms)
               (json.get g (default zeroResource (EventResource event)))) /\
          (forall g, In g Resource_fields ->
             (forall k h, In k (map fst rms) ->
                json.findField Resource_fields k = Some h -> json.name h <> json.name g) ->
             json.get g r = json.get g (default zeroResource (EventResource event))) /\
          (forall name proj, In (name, proj) resourceStringFields ->
             forall rs1 k s rs2 h,
               rms = (rs1 ++ (k, json.JString s) :: rs2)%list ->
               json.findField Resource_fields k = Some h -> json.name h = name ->
               (forall k' h', In k' (map fst rs2) ->
                  json.findField Resource_fields k' = Some h' -> json.name h' <> name) ->
               proj r = s))) /\
  (forall (y : json.value) (u : string),
     fst (@json.decode _ json.stringCodec y u) =
     match y with json.JString s => s | _ => u end) /\
  (forall (name : string) (y : json.value) (u : Z),
     fst (@json.decode _ (json.intCodec name) y u) =
     match y with json.JNumber lit => default u (strconv.ParseInt lit) | _ => u end) /\
  (forall (y : json.value) (u : option (gmap string any)),
     fst (@json.decode _ tagsCodec y u) =
     match y with
     | json.JNull => None
     | json.JObject entries => Some (insertAll anyCodec entries (default ∅ u))
     | _ => u
     end) /\
  (forall (entries : list (string * json.value)) (m : gmap string any),
     (forall k, ~ In k (map fst entries) -> insertAll anyCodec entries m !! k = m !! k) /\
     (forall es1 k v es2,
        entries = (es1 ++ (k, v) :: es2)%list -> ~ In k (map fst es2) ->
        insertAll anyCodec entries m !! k =
        Some (fst (@json.decode _ anyCodec v (@json.zeroValue _ anyCodec))))) /\
  (forall (y : json.value) (u : option Resource),
     fst (@json.decode _ (json.pointerCodec Resource_codec) y u) =
     match y with
     | json.JNull => None
     | json.JObject rms =>
       Some (fst (json.decodeMembers Resource_fields rms (default zeroResource u) None))
     | _ => Some (default zeroResource u)
     end) /\
  (forall (rms : list (string * json.value)) (r : Resource) g,
     In g Resource_fields ->
     json.get g (fst (json.decodeMembers Resource_fields rms r None)) =
     storeAll (json.fcodec g) (selecting Resource_fields g rms) (json.get g r)) /\
  MergeWithJSON event priorityJSON =
    (mkEvent (EventType event) (EventTimestamp event) (Severity event) (Category event)
       (Subject event) (Body event) 99 (Tags event) (EventResource event), None).
Proof.
  split.
  2: { split; [intros y u; now destruct y |].
       split.
       { intros name y u. destruct y as [| b | lit | s | elems | ms]; try reflexivity.
         cbn. now destruct (strconv.ParseInt lit). }
       split.
       { intros y u. destruct y as [| b | lit | s | elems | ms]; try reflexivity.
         cbn [json.decode tagsCodec json.mapCodec].
         pose proof (decodeEntries_insertAll anyCodec ms (default ∅ u) None) as E.
         destruct (json.decodeEntries anyCodec ms (default ∅ u) None) as [m err].
         cbn [fst] in *. now rewrite E. }
       split.
       { intros entries m. split.
         - intros k Hk. now apply insertAll_other.
         - intros es1 k v es2 -> Hk. now apply insertAll_last. }
       split.
       { intros y u. destruct y as [| b | lit | s | elems | ms]; try reflexivity.
         cbn [json.decode json.pointerCodec Resource_codec json.structCodec json.zeroValue].
         now destruct (json.decodeMembers Resource_fields ms (default zeroResource u) None). }
       split; [| reflexivity].
       intros rms r g Hg.
       apply decodeMembers_get;
         [apply Resource_fields_record | apply Resource_fields_distinct | exact Hg]. }
  intros eventJSON x Hparse.
  split; [intros f Hf; now apply merged_stored |].
  split; [intros f Hf Habs; now apply merged_absent with x |].
  split.
  { intros name proj HinF ms1 key s ms2 Hmem Hsel Hlater.
    pair_cases HinF.
    all: match type of Hsel with _ = Some ?n => the_field key n Hsel end.
    all: match goal with
         | Hf : json.findField Event_fields _ = Some ?r |- _ =>
           exact (merged_last event eventJSON x ms1 key (json.JString s) ms2 r
                    Hparse Hmem Hf Hlater)
         end. }
  split.
  { intros name proj HinF ms1 key lit n ms2 Hmem Hlit Hsel Hlater.
    pair_cases HinF.
    all: match type of Hsel with _ = Some ?n => the_field key n Hsel end.
    all: match goal with
         | Hf : json.findField Event_fields _ = Some ?r |- _ =>
           pose proof (merged_last event eventJSON x ms1 key (json.JNumber lit) ms2 r
                         Hparse Hmem Hf Hlater) as R;
           cbn in R; rewrite Hlit in R; exact R
         end. }
  split.
  { intros ms1 key entries ms2 Hmem Hsel Hothers.
    the_field key "tags" Hsel.
    match goal with
    | Hf : json.findField Event_fields _ = Some ?r |- _ =>
      pose proof (merged_last event eventJSON x ms1 key (json.JObject entries) ms2 r
                    Hparse Hmem Hf
                    (fun k Hk => Hothers k ltac:(rewrite map_app; apply in_or_app; now right))) as R;
      rewrite (decodeMembers_absent Event_fields ms1 event None r Event_fields_record) in R
    end.
    - cbn [json.get json.fcodec json.ftype json.decode tagsCodec json.mapCodec] in R.
      pose proof (decodeEntries_insertAll anyCodec entries (default ∅ (Tags event)) None) as E.
      destruct (json.decodeEntries anyCodec entries (default ∅ (Tags event)) None)
        as [m err]. cbn [fst] in R, E. subst m.
      eexists. split; [exact R |]. split.
      + intros k Hk. now apply insertAll_other.
      + intros es1 k v es2 -> Hk. now apply insertAll_last.
    - simpl; tauto.
    - apply not_selected. intros k Hk. apply Hothers.
      rewrite map_app. apply in_or_app. now left. }
  intros ms1 key rms ms2 Hmem Hsel Hothers.
  the_field key "resource" Hsel.
  match goal with
  | Hf : json.findField Event_fields _ = Some ?r |- _ =>
    pose proof (merged_last event eventJSON x ms1 key (json.JObject rms) ms2 r
                  Hparse Hmem Hf
                  (fun k Hk => Hothers k ltac:(rewrite map_app; apply in_or_app; now right))) as R;
    rewrite (decodeMembers_absent Event_fields ms1 event None r Event_fields_record) in R
  end.
  - cbn -[Resource_fields] in R.
    set (r0 := default zeroResource (EventResource event)) in *.
    destruct (json.decodeMembers Resource_fields rms r0 None) as [r err] eqn:Hd.
    exists r. split; [exact R |].
    assert (Hr : r = fst (json.decodeMembers Resource_fields rms r0 None)) by now rewrite Hd.
    split.
    { intros g Hg. rewrite Hr.
      apply decodeMembers_get;
        [apply Resource_fields_record | apply Resource_fields_distinct | exact Hg]. }
    split.
    { intros g Hg Habs. rewrite Hr.
      now apply decodeMembers_absent; [apply Resource_fields_record | |]. }
    intros name proj HinF rs1 k s rs2 h -> Hh Hname Hlater.
    pose proof (decodeMembers_last Resource_fields rs1 k (json.JString s) rs2 r0 None h
                  Resource_fields_record Hh) as L.
    rewrite <- Hr in L.
    pose proof (findField_In _ _ _ Hh) as Hin. unfold Resource_fields in Hin.
    pair_cases HinF; in_cases Hin; try discriminate Hname;
      (apply L; intros k' h' Hk' Hh'; exact (Hlater k' h' Hk' Hh')).
  - simpl; tauto.
  - apply not_selected. intros k Hk. apply Hothers.
    rewrite map_app. apply in_or_app. now left.
Qed.
End merge_fields.

(** The example of the specification: priority 1 and timestamp 2, merged
    with the JSON whose only member is priority 99. *)
Lemma MergeWithJSON_fields_witness :
  json.parse priorityJSON = Some (json.JObject [("priority", json.JNumber "99")]) /\
  Priority (eventAB acceptingWorld) = 1 /\
  EventTimestamp (eventAB acceptingWorld) = 2 /\
  Priority (fst (MergeWithJSON (eventAB acceptingWorld) priorityJSON)) = 99 /\
  EventTimestamp (fst (MergeWithJSON (eventAB acceptingWorld) priorityJSON)) = 2 /\
  snd (MergeWithJSON (eventAB acceptingWorld) priorityJSON) = None.
Proof.
  assert (P : json.parse priorityJSON = Some (json.JObject [("priority", json.JNumber "99")]))
    by reflexivity.
  split; [exact P |]. split; [reflexivity |]. split; [reflexivity |].
  destruct (@MergeWithJSON_fields acceptingWorld (eventAB acceptingWorld))
    as (G & _ & _ & _ & _ & _ & _ & E).
  destruct (G priorityJSON _ P) as (_ & Habsent & _ & Hint & _).
  split.
  - apply (Hint "priority" Priority) with (ms1 := []) (key := "priority") (lit := "99") (ms2 := []).
    + simpl. auto.
    + reflexivity.
    + reflexivity.
    + reflexivity.
    + intros key' [].
  - split; [| now rewrite E].
    apply (Habsent (json.Field "eventTimestamp" true Z (json.intCodec "int64") EventTimestamp
                      (fun x e => mkEvent (EventType e) x (Severity e) (Category e) (Subject e)
                                    (Body e) (Priority e) (Tags e) (EventResource e)))).
    + simpl. auto.
    + intros key [<- | []]. discriminate.
Defined.

(** When [tags] is given twice, first as [null] and then as an object, the
    [null] makes the map nil and the object is stored into a new map: the
    tag the event had is gone. *)
Example tags_null_then_object :
  json.parse tagsTwiceJSON =
    Some (json.JObject [("tags", json.JNull);
                        ("tags", json.JObject [("b", json.JString "2")])]) /\
  MergeWithJSON taggedEvent tagsTwiceJSON =
    (@mkEvent acceptingWorld "" 0 "" "" "" "" 0 (Some {[ "b" := json.JString "2" ]}) None,
     None).
Proof. split; reflexivity. Qed.

(** ** Integers in JSON text *)

Lemma string_of_uint_digits (d : Decimal.uint) :
  allDigits (NilEmpty.string_of_uint d) = true.
Proof. induction d; cbn [NilEmpty.string_of_uint allDigits]; try rewrite IHd; reflexivity. Qed.

Lemma to_uint_head (p : positive) :
  Decimal.nzhead (Pos.to_uint p) = Pos.to_uint p.
Proof.
  pose proof (DecimalPos.Unsigned.to_of (Pos.to_uint p)) as H.
  rewrite DecimalPos.Unsigned.of_to in H. cbn [N.to_uint] in H.
  assert (Hnz : Decimal.nzhead (Pos.to_uint p) <> Decimal.Nil).
  { intros E. apply DecimalFacts.unorm_0 in E. rewrite <- H in E.
    now apply DecimalPos.Unsigned.to_uint_nonzero in E. }
  rewrite <- (DecimalFacts.unorm_nzhead _ Hnz). now symmetry.
Qed.

(** [strconv.FormatInt] writes an integer literal of JSON. *)
Lemma FormatInt_intLiteral (n : Z) : intLiteral (strconv.FormatInt n) = true.
Proof.
  unfold strconv.FormatInt.
  assert (U : forall p, intLiteral (NilZero.string_of_uint (Pos.to_uint p)) = true).
  { intros p. pose proof (to_uint_head p) as H.
    pose proof (DecimalPos.Unsigned.to_uint_nonnil p) as Hnil.
    destruct (Pos.to_uint p) as [| d | d | d | d | d | d | d | d | d | d];
      try (now destruct Hnil);
      try (unfold intLiteral; cbn; apply string_of_uint_digits).
    exfalso. cbn [Decimal.nzhead] in H.
    exact (DecimalFacts.nzhead_nonzero _ _ H). }
  destruct n as [| p | p]; [reflexivity | apply U |].
  cbn [Z.to_int NilZero.string_of_int]. specialize (U p).
  unfold intLiteral in *. cbn [byte].
  change (byte "-" =? 45) with true. cbv iota.
  destruct (NilZero.string_of_uint (Pos.to_uint p)) as [| c r] eqn:E; [discriminate U |].
  destruct (byte c =? 45) eqn:Hc; [| exact U].
  exfalso. pose proof (DecimalPos.Unsigned.to_uint_nonnil p) as Hnil.
  pose proof (string_of_uint_digits (Pos.to_uint p)) as D.
  unfold NilZero.string_of_uint in E.
  destruct (Pos.to_uint p); try (now destruct Hnil);
    rewrite E in D; cbn [allDigits] in D; unfold isDigit in D;
    apply Z.eqb_eq in Hc; rewrite Hc in D; discriminate D.
Qed.

Lemma scanDigits_app (ds tail : string) :
  allDigits ds = true -> endsNumber tail = true ->
  json.scanDigits (ds +:+ tail) = (ds, tail).
Proof.
  intros Hds Htail. induction ds as [| c ds IH].
  - cbn [String.append]. destruct tail as [| t tail']; [reflexivity |].
    cbn [json.scanDigits]. unfold endsNumber, isDigit in Htail.
    destruct ((48 <=? byte t) && (byte t <=? 57)); [discriminate Htail | reflexivity].
  - cbn [allDigits] in Hds. apply andb_true_iff in Hds. destruct Hds as [Hc Hds].
    cbn [String.append json.scanDigits]. unfold isDigit in Hc. rewrite Hc.
    now rewrite IH.
Qed.

Lemma scanNumber_literal (lit tail : string) :
  intLiteral lit = true -> endsNumber tail = true ->
  json.scanNumber (lit +:+ tail) = Some (lit, tail).
Proof.
  intros Hlit Htail.
  assert (Hstop : match tail with
                  | EmptyString => True
                  | String t _ =>
                    (byte t =? 0x2E) = false /\ ((byte t =? 0x65) || (byte t =? 0x45)) = false
                  end).
  { destruct tail as [| t tail']; [exact I |].
    unfold endsNumber in Htail. apply negb_true_iff in Htail.
    apply orb_false_iff in Htail. destruct Htail as [Htail He2].
    apply orb_false_iff in Htail. destruct Htail as [Htail He1].
    apply orb_false_iff in Htail. destruct Htail as [_ Hdot].
    split; [exact Hdot | now rewrite He1, He2]. }
  unfold json.scanNumber. unfold intLiteral in Hlit.
  destruct lit as [| c r]; [discriminate Hlit |].
  cbn [String.append]. destruct (byte c =? 45) eqn:Hminus; cbv beta iota zeta.
  - destruct r as [| c' r']; [discriminate Hlit |]. cbn [String.append].
    destruct (byte c' =? 48) eqn:H0; cbv beta iota zeta.
    + destruct r'; [| discriminate Hlit]. cbn [String.append].
      destruct tail as [| t tail']; cbv beta iota zeta; [reflexivity |].
      destruct Hstop as [Hdot He]. rewrite Hdot. cbv beta iota zeta. rewrite He.
      reflexivity.
    + apply andb_true_iff in Hlit. destruct Hlit as [Hc Hr]. rewrite Hc.
      rewrite (scanDigits_app r' tail Hr Htail). cbv beta iota zeta.
      destruct tail as [| t tail']; cbv beta iota zeta.
      * cbn [String.append]. now rewrite !append_nil_r.
      * destruct Hstop as [Hdot He]. rewrite Hdot. cbv beta iota zeta. rewrite He.
        cbv beta iota zeta. cbn [String.append]. now rewrite !append_nil_r.
  - destruct (byte c =? 48) eqn:H0; cbv beta iota zeta.
    + destruct r; [| discriminate Hlit]. cbn [String.append].
      destruct tail as [| t tail']; cbv beta iota zeta; [reflexivity |].
      destruct Hstop as [Hdot He]. rewrite Hdot. cbv beta iota zeta. rewrite He.
      reflexivity.
    + apply andb_true_iff in Hlit. destruct Hlit as [Hc Hr]. rewrite Hc.
      rewrite (scanDigits_app r tail Hr Htail). cbv beta iota zeta.
      destruct tail as [| t tail']; cbv beta iota zeta.
      * cbn [String.append]. now rewrite !append_nil_r.
      * destruct Hstop as [Hdot He]. rewrite Hdot. cbv beta iota zeta. rewrite He.
        cbv beta iota zeta. cbn [String.append]. now rewrite !append_nil_r.
Qed.

Lemma parseDigits_acc (d : Decimal.uint) (acc : positive) :
  strconv.parseDigits (Z.pos acc) (NilEmpty.string_of_uint d) =
  Some (Z.pos (Pos.of_uint_acc d acc)).
Proof.
  revert acc. induction d; intros acc;
    cbn [NilEmpty.string_of_uint strconv.parseDigits Pos.of_uint_acc];
    [reflexivity | ..];
    match goal with
    | |- context [strconv.digit ?c] =>
      let v := eval vm_compute in (strconv.digit c) in
      change (strconv.digit c) with v
    end; cbv beta iota; rewrite <- IHd; f_equal; lia.
Qed.

Lemma parseDigits_uint (d : Decimal.uint) :
  strconv.parseDigits 0 (NilEmpty.string_of_uint d) = Some (Z.of_N (Pos.of_uint d)).
Proof.
  induction d; cbn [NilEmpty.string_of_uint strconv.parseDigits Pos.of_uint];
    [reflexivity | ..];
    match goal with
    | |- context [strconv.digit ?c] =>
      let v := eval vm_compute in (strconv.digit c) in
      change (strconv.digit c) with v
    end; cbv beta iota; [exact IHd | ..];
    cbn [Z.mul Z.add Z.of_N]; apply parseDigits_acc.
Qed.

(** [strconv.ParseInt] reads back what [strconv.FormatInt] writes for an
    integer of 64 bits. *)
Lemma ParseInt_FormatInt (n : Z) :
  - 2 ^ 63 <= n <= 2 ^ 63 - 1 ->
  strconv.ParseInt (strconv.FormatInt n) = Some n.
Proof.
  intros Hrange. unfold strconv.FormatInt.
  assert (U : forall p,
    exists c r, NilZero.string_of_uint (Pos.to_uint p) = String c r /\
      (byte c =? 0x2D) = false /\ (byte c =? 0x2B) = false /\
      strconv.parseDigits 0 (String c r) = Some (Z.pos p)).
  { intros p. pose proof (DecimalPos.Unsigned.to_uint_nonnil p) as Hnil.
    pose proof (parseDigits_uint (Pos.to_uint p)) as P.
    rewrite DecimalPos.Unsigned.of_to in P. cbn [Z.of_N] in P.
    unfold NilZero.string_of_uint.
    destruct (Pos.to_uint p); try (now destruct Hnil);
      cbn [NilEmpty.string_of_uint] in P |- *; eexists _, _;
      (split; [reflexivity |]); (split; [reflexivity |]); (split; [reflexivity |]);
      exact P. }
  destruct n as [| p | p]; [reflexivity | |].
  - cbn [Z.to_int NilZero.string_of_int].
    destruct (U p) as (c & r & -> & Hm & Hp & P).
    unfold strconv.ParseInt. rewrite Hm, Hp, P.
    destruct (Z.leb_spec (- 2 ^ 63) (Z.pos p)); [| lia].
    destruct (Z.leb_spec (Z.pos p) (2 ^ 63 - 1)); [reflexivity | lia].
  - cbn [Z.to_int NilZero.string_of_int].
    destruct (U p) as (c & r & -> & Hm & Hp & P).
    unfold strconv.ParseInt. change (byte "-" =? 45) with true. cbv iota.
    rewrite P.
    destruct (Z.leb_spec (- 2 ^ 63) (- Z.pos p)); [| lia].
    destruct (Z.leb_spec (- Z.pos p) (2 ^ 63 - 1)); [reflexivity | lia].
Qed.


(** ** Reading back what [render] writes *)

Lemma render_array (xs : list json.value) (tail : string) :
  json.render (json.JArray xs) +:+ tail = String "[" (renderElements xs +:+ String "]" tail).
Proof.
  change (json.render (json.JArray xs)) with ("[" +:+ renderElements xs +:+ "]").
  cbn [String.append]. now rewrite append_assoc.
Qed.

Lemma render_object (ms : list (string * json.value)) (tail : string) :
  json.render (json.JObject ms) +:+ tail = String "{" (renderMembers ms +:+ String "}" tail).
Proof.
  change (json.render (json.JObject ms)) with ("{" +:+ renderMembers ms +:+ "}").
  cbn [String.append]. now rewrite append_assoc.
Qed.

Lemma renderElements_cons (x : json.value) (l : list json.value) (tail : string) :
  renderElements (x :: l) +:+ String "]" tail =
  json.render x +:+
  match l with
  | [] => String "]" tail
  | _ => String "," (renderElements l +:+ String "]" tail)
  end.
Proof.
  change (renderElements (x :: l))
    with (json.render x +:+ match l with [] => "" | _ => "," +:+ renderElements l end).
  rewrite append_assoc. now destruct l.
Qed.

Lemma renderMembers_cons (k : string) (x : json.value) (l : list (string * json.value))
    (tail : string) :
  renderMembers ((k, x) :: l) +:+ String "}" tail =
  json.appendString k +:+ ":" +:+ json.render x +:+
  match l with
  | [] => String "}" tail
  | _ => String "," (renderMembers l +:+ String "}" tail)
  end.
Proof.
  change (renderMembers ((k, x) :: l))
    with (json.appendString k +:+ ":" +:+ json.render x +:+
          match l with [] => "" | _ => "," +:+ renderMembers l end).
  rewrite !append_assoc. now destruct l.
Qed.

Lemma nestingElements_nonneg (l : list json.value) : 0 <= nestingElements l.
Proof. induction l as [| x l IH]; cbn [nestingElements]; lia. Qed.

Lemma nestingMembers_nonneg (l : list (string * json.value)) : 0 <= nestingMembers l.
Proof. induction l as [| m l IH]; cbn [nestingMembers]; lia. Qed.

Lemma intLiteral_head (lit : string) :
  intLiteral lit = true ->
  exists c r, lit = String c r /\ (byte c = 45 \/ 48 <= byte c <= 57).
Proof.
  unfold intLiteral. destruct lit as [| c r]; [discriminate |].
  intros H. exists c, r. split; [reflexivity |].
  destruct (Z.eqb_spec (byte c) 45) as [E | E]; [now left |]. right.
  destruct (Z.eqb_spec (byte c) 48) as [E0 | E0]; [lia |].
  apply andb_true_iff in H. destruct H as [H _]. apply andb_true_iff in H. lia.
Qed.

Lemma parseValue_number (fuel : nat) (depth : Z) (lit tail : string) :
  intLiteral lit = true -> endsNumber tail = true ->
  json.parseValue (S fuel) depth (lit +:+ tail) = Some (json.JNumber lit, tail).
Proof.
  intros Hlit Htail. pose proof (scanNumber_literal lit tail Hlit Htail) as Hscan.
  destruct (intLiteral_head lit Hlit) as (c & r & -> & Hc).
  cbn [String.append] in *. cbn [json.parseValue].
  assert (Hspace : json.isSpace (byte c) = false).
  { unfold json.isSpace. repeat (apply orb_false_iff; split); apply Z.eqb_neq; lia. }
  cbn [json.skipSpace]. rewrite Hspace. cbv beta iota zeta.
  replace (byte c =? 123) with false by (symmetry; apply Z.eqb_neq; lia).
  replace (byte c =? 91) with false by (symmetry; apply Z.eqb_neq; lia).
  replace (byte c =? 34) with false by (symmetry; apply Z.eqb_neq; lia).
  replace (byte c =? 116) with false by (symmetry; apply Z.eqb_neq; lia).
  replace (byte c =? 102) with false by (symmetry; apply Z.eqb_neq; lia).
  replace (byte c =? 110) with false by (symmetry; apply Z.eqb_neq; lia).
  cbv iota. now rewrite Hscan.
Qed.

(** The first byte of the text of a document is not a space and closes
    neither an array nor an object. *)
Lemma render_head (v : json.value) (tail : string) :
  wellFormed v ->
  exists c r, json.render v +:+ tail = String c r /\
    json.isSpace (byte c) = false /\ (byte c =? 0x5D) = false /\ (byte c =? 0x7D) = false.
Proof.
  intros Hv. destruct v as [| [|] | lit | s | xs | ms].
  - eexists _, _. repeat split.
  - eexists _, _. repeat split.
  - eexists _, _. repeat split.
  - cbn [wellFormed] in Hv. destruct (intLiteral_head lit Hv) as (c & r & -> & Hc).
    exists c, (r +:+ tail). split; [reflexivity |].
    unfold json.isSpace.
    repeat split; repeat (apply orb_false_iff; split); apply Z.eqb_neq; lia.
  - change (json.render (json.JString s)) with (json.appendString s).
    rewrite appendString_app. eexists _, _. repeat split.
  - rewrite render_array. eexists _, _. repeat split.
  - rewrite render_object. eexists _, _. repeat split.
Qed.

Lemma length_renderElements (x : json.value) (l : list json.value) :
  String.length (renderElements (x :: l)) =
  (String.length (json.render x) +
   match l with [] => 0 | _ => 1 + String.length (renderElements l) end)%nat.
Proof.
  change (renderElements (x :: l))
    with (json.render x +:+ match l with [] => "" | _ => "," +:+ renderElements l end).
  destruct l; rewrite !length_append; cbn [String.length]; lia.
Qed.

Lemma length_renderMembers (k : string) (x : json.value) (l : list (string * json.value)) :
  String.length (renderMembers ((k, x) :: l)) =
  (String.length (json.appendString k) + 1 + String.length (json.render x) +
   match l with [] => 0 | _ => 1 + String.length (renderMembers l) end)%nat.
Proof.
  change (renderMembers ((k, x) :: l))
    with (json.appendString k +:+ ":" +:+ json.render x +:+
          match l with [] => "" | _ => "," +:+ renderMembers l end).
  destruct l; rewrite !length_append; cbn [String.length]; lia.
Qed.

Lemma skipSpace_head (c : ascii) (r : string) :
  json.isSpace (byte c) = false -> json.skipSpace (String c r) = String c r.
Proof. intros H. cbn [json.skipSpace]. now rewrite H. Qed.

(** Reading back the text of a document, with fuel for its length. *)
Lemma parse_render_fuel (fuel : nat) :
  (forall v depth tail,
     wellFormed v -> (String.length (json.render v) < fuel)%nat ->
     depth + nesting v <= json.maxNestingDepth -> endsNumber tail = true ->
     json.parseValue fuel depth (json.render v +:+ tail) = Some (v, tail)) /\
  (forall m l depth tail,
     wellFormedMembers (m :: l) ->
     (String.length (renderMembers (m :: l)) < fuel)%nat ->
     depth + nestingMembers (m :: l) <= json.maxNestingDepth ->
     json.parseMembers fuel depth (renderMembers (m :: l) +:+ String "}" tail) =
     Some (m :: l, tail)) /\
  (forall x l depth tail,
     wellFormedElements (x :: l) ->
     (S (String.length (renderElements (x :: l))) < fuel)%nat ->
     depth + nestingElements (x :: l) <= json.maxNestingDepth ->
     json.parseElements fuel depth (renderElements (x :: l) +:+ String "]" tail) =
     Some (x :: l, tail)).
Proof.
  induction fuel as [| f (IHv & IHm & IHe)].
  { repeat split; intros; lia. }
  split; [| split].
  - intros v depth tail Hv Hlen Hdepth Htail.
    destruct v as [| [|] | lit | s | xs | ms].
    + reflexivity.
    + reflexivity.
    + reflexivity.
    + now apply parseValue_number.
    + now apply parseValue_string.
    + rewrite render_array. cbn [json.parseValue].
      rewrite skipSpace_head by reflexivity. cbv beta iota zeta.
      change (byte "[" =? 123) with false. change (byte "[" =? 91) with true. cbv iota.
      change (nesting (json.JArray xs)) with (1 + nestingElements xs) in Hdepth.
      pose proof (nestingElements_nonneg xs) as Hnn.
      destruct (Z.leb_spec json.maxNestingDepth depth) as [Hd | Hd]; [lia |].
      destruct xs as [| x l]; [reflexivity |].
      change (wellFormed (json.JArray (x :: l))) with (wellFormedElements (x :: l)) in Hv.
      set (text := renderElements (x :: l) +:+ String "]" tail).
      assert (Hsk : exists c r, json.skipSpace text = String c r /\ (byte c =? 93) = false).
      { subst text. rewrite renderElements_cons.
        destruct (render_head x (match l with
                                 | [] => String "]" tail
                                 | _ => String "," (renderElements l +:+ String "]" tail)
                                 end) (proj1 Hv)) as (c & r & -> & Hsp & H5D & _).
        exists c, r. split; [now apply skipSpace_head | exact H5D]. }
      destruct Hsk as (c & r & -> & H5D). cbv beta iota zeta. rewrite H5D.
      subst text. rewrite IHe; [reflexivity | exact Hv | | lia].
      change (json.render (json.JArray (x :: l)))
        with ("[" +:+ renderElements (x :: l) +:+ "]") in Hlen.
      cbn [String.append String.length] in Hlen. rewrite length_append in Hlen.
      cbn [String.length] in Hlen. lia.
    + rewrite render_object. cbn [json.parseValue].
      rewrite skipSpace_head by reflexivity. cbv beta iota zeta.
      change (byte "{" =? 123) with true. cbv iota.
      change (nesting (json.JObject ms)) with (1 + nestingMembers ms) in Hdepth.
      pose proof (nestingMembers_nonneg ms) as Hnn.
      destruct (Z.leb_spec json.maxNestingDepth depth) as [Hd | Hd]; [lia |].
      destruct ms as [| m l]; [reflexivity |].
      change (wellFormed (json.JObject (m :: l))) with (wellFormedMembers (m :: l)) in Hv.
      set (text := renderMembers (m :: l) +:+ String "}" tail).
      assert (Hsk : exists c r, json.skipSpace text = String c r /\ (byte c =? 125) = false).
      { subst text. destruct m as [k x]. rewrite renderMembers_cons, appendString_app.
        eexists _, _. split; [now apply skipSpace_head | reflexivity]. }
      destruct Hsk as (c & r & -> & H7D). cbv beta iota zeta. rewrite H7D.
      subst text. rewrite IHm; [reflexivity | exact Hv | | lia].
      change (json.render (json.JObject (m :: l)))
        with ("{" +:+ renderMembers (m :: l) +:+ "}") in Hlen.
      cbn [String.append String.length] in Hlen. rewrite length_append in Hlen.
      cbn [String.length] in Hlen. lia.
  - intros [k x] l depth tail (Hk & Hx & Hl) Hlen Hdepth.
    cbn [fst snd] in Hk, Hx. rewrite length_renderMembers in Hlen.
    change (nestingMembers ((k, x) :: l)) with (Z.max (nesting x) (nestingMembers l)) in Hdepth.
    rewrite renderMembers_cons, appendString_app.
    cbn [json.parseMembers].
    rewrite skipSpace_head by reflexivity. cbv beta iota zeta.
    change (byte dquote =? 34) with true. cbv iota.
    rewrite unquote_appendStringBody by exact Hk.
    cbn [String.append]. rewrite skipSpace_head by reflexivity. cbv beta iota zeta.
    change (byte ":" =? 58) with true. cbv iota.
    rewrite IHv; [| exact Hx | lia | lia | now destruct l].
    destruct l as [| m' l'].
    + reflexivity.
    + rewrite skipSpace_head by reflexivity. cbv beta iota zeta.
      change (byte "," =? 44) with true. cbv iota.
      rewrite IHm; [reflexivity | exact Hl | lia |].
      change (nestingMembers (m' :: l')) with (nestingMembers (m' :: l')). lia.
  - intros x l depth tail (Hx & Hl) Hlen Hdepth.
    rewrite length_renderElements in Hlen.
    change (nestingElements (x :: l)) with (Z.max (nesting x) (nestingElements l)) in Hdepth.
    rewrite renderElements_cons. cbn [json.parseElements].
    rewrite IHv; [| exact Hx | lia | lia | now destruct l].
    destruct l as [| x' l'].
    + reflexivity.
    + rewrite skipSpace_head by reflexivity. cbv beta iota zeta.
      change (byte "," =? 44) with true. cbv iota.
      rewrite IHe; [reflexivity | exact Hl | lia | lia].
Qed.

(** [json.parse] reads back the text of every well-formed document that
    is not nested deeper than the parser allows. *)
Lemma parse_render (v : json.value) :
  wellFormed v -> nesting v <= json.maxNestingDepth ->
  json.parse (json.render v) = Some v.
Proof.
  intros Hv Hdepth. unfold json.parse.
  rewrite <- (append_nil_r (json.render v)) at 2.
  rewrite (proj1 (parse_render_fuel _)); [reflexivity | exact Hv | lia | lia | reflexivity].
Qed.


(** ** Structs: decoding what was encoded *)
Section struct_round_trip.
Context {T : Type}.
Implicit Types (fields : list (json.field T)) (v : T).

Lemma findField_exact fields g :
  distinctNames fields -> In g fields -> json.findField fields (json.name g) = Some g.
Proof.
  intros Hdistinct Hg. unfold json.findField.
  destruct (find (fun f => String.eqb (json.name f) (json.name g)) fields) as [h |] eqn:E.
  - apply find_some in E. destruct E as [Hh E]. apply String.eqb_eq in E.
    f_equal. now apply Hdistinct.
  - pose proof (find_none _ _ E g Hg) as N. cbn beta in N.
    rewrite String.eqb_refl in N. discriminate N.
Qed.

Lemma selecting_encodeFields fields v f (part : list (json.field T)) ms :
  distinctNames fields -> (forall g, In g part -> In g fields) ->
  json.encodeFields part v = inr ms ->
  selecting fields f ms =
  flat_map (fun g => if String.eqb (json.name g) (json.name f) then fieldDocuments g v else [])
    part.
Proof.
  intros Hdistinct. revert ms.
  induction part as [| g part IH]; intros ms Hpart Henc.
  - cbn in Henc. injection Henc as <-. reflexivity.
  - cbn [json.encodeFields] in Henc. cbn [flat_map]. unfold fieldDocuments at 1.
    assert (Hpart' : forall h, In h part -> In h fields) by (intros h Hh; apply Hpart; now right).
    destruct (json.omitEmpty g && json.isEmptyValue (json.get g v)).
    + rewrite (IH ms Hpart' Henc). now destruct (String.eqb (json.name g) (json.name f)).
    + destruct (json.encode (json.get g v)) as [e | j]; [discriminate Henc |].
      destruct (json.encodeFields part v) as [e | js]; [discriminate Henc |].
      injection Henc as <-. rewrite selecting_cons.
      rewrite (findField_exact fields g Hdistinct) by (apply Hpart; now left).
      rewrite (IH js Hpart' eq_refl).
      now destruct (String.eqb (json.name g) (json.name f)).
Qed.

Lemma decodeMembers_no_error fields ms v :
  (forall key x f u, In (key, x) ms -> json.findField fields key = Some f ->
     snd (@json.decode _ (json.fcodec f) x u) = None) ->
  snd (json.decodeMembers fields ms v None) = None.
Proof.
  revert v. induction ms as [| [key x] ms IH]; intros v H; [reflexivity |].
  cbn [json.decodeMembers].
  assert (H' : forall key x f u, In (key, x) ms -> json.findField fields key = Some f ->
            snd (@json.decode _ (json.fcodec f) x u) = None).
  { intros key' x' f u Hin. apply H. now right. }
  destruct (json.findField fields key) as [f |] eqn:Hf; [| now apply IH].
  pose proof (H key x f (json.get f v) (or_introl eq_refl) Hf) as E.
  destruct (json.decode x (json.get f v)) as [y err]. cbn [snd] in E. subst err.
  now apply IH.
Qed.

Lemma encodeFields_members fields v (part : list (json.field T)) ms key x :
  json.encodeFields part v = inr ms -> In (key, x) ms ->
  exists g, In g part /\ json.name g = key /\ In x (fieldDocuments g v).
Proof.
  revert ms. induction part as [| g part IH]; intros ms Henc Hin.
  - cbn in Henc. injection Henc as <-. destruct Hin.
  - cbn [json.encodeFields] in Henc.
    destruct (json.omitEmpty g && json.isEmptyValue (json.get g v)) eqn:Hempty.
    + destruct (IH ms Henc Hin) as (h & Hh & R). exists h. split; [now right | exact R].
    + destruct (json.encode (json.get g v)) as [e | j] eqn:Hj; [discriminate Henc |].
      destruct (json.encodeFields part v) as [e | js]; [discriminate Henc |].
      injection Henc as <-. destruct Hin as [[= <- <-] | Hin].
      * exists g. split; [now left |]. split; [reflexivity |].
        unfold fieldDocuments. rewrite Hempty, Hj. now left.
      * destruct (IH js eq_refl Hin) as (h & Hh & R). exists h. split; [now right | exact R].
Qed.

Lemma encodeFields_succeeds fields v :
  (forall f, In f fields -> forall e, @json.encode _ (json.fcodec f) (json.get f v) <> inl e) ->
  exists ms, json.encodeFields fields v = inr ms.
Proof.
  intros H. destruct (json.encodeFields fields v) as [e | ms] eqn:E; [| eauto].
  apply encodeFields_inl in E. destruct E as (f & Hf & _ & He).
  now destruct (H f Hf e).
Qed.

Lemma names_distinct fields : List.NoDup (map json.name fields) -> distinctNames fields.
Proof.
  intros Hnodup f g Hf Hg E.
  induction fields as [| h fields IH]; [destruct Hf |].
  cbn [map] in Hnodup. apply List.NoDup_cons_iff in Hnodup. destruct Hnodup as [Hh Hnodup].
  destruct Hf as [-> | Hf], Hg as [-> | Hg].
  - reflexivity.
  - exfalso. apply Hh. rewrite E. now apply in_map.
  - exfalso. apply Hh. rewrite <- E. now apply in_map.
  - now apply IH.
Qed.

Lemma flat_map_field {A : Type} (D : json.field T -> list A) fields f :
  List.NoDup (map json.name fields) -> In f fields ->
  flat_map (fun g => if String.eqb (json.name g) (json.name f) then D g else []) fields = D f.
Proof.
  intros Hnodup Hf.
  assert (N : forall part, ~ In (json.name f) (map json.name part) ->
            flat_map (fun g => if String.eqb (json.name g) (json.name f) then D g else [])
              part = []).
  { induction part as [| g part IH]; intros Hout; [reflexivity |].
    cbn [flat_map]. rewrite IH by (intros H; apply Hout; now right).
    destruct (String.eqb_spec (json.name g) (json.name f)) as [E | E]; [| reflexivity].
    exfalso. apply Hout. left. exact E. }
  induction fields as [| g fields IH]; [destruct Hf |].
  cbn [map] in Hnodup. apply List.NoDup_cons_iff in Hnodup. destruct Hnodup as [Hg Hnodup].
  cbn [flat_map]. destruct Hf as [-> | Hf].
  - rewrite String.eqb_refl, N by exact Hg. apply app_nil_r.
  - rewrite IH by assumption.
    destruct (String.eqb_spec (json.name g) (json.name f)) as [E | E]; [| reflexivity].
    exfalso. apply Hg. rewrite E. now apply in_map.
Qed.

(** A struct whose fields all make the round trip makes the round trip
    itself: the members written for it, stored into the zero struct, give
    it back without error. *)
Lemma struct_round_trip fields (zero : T) v :
  fieldsOfRecord fields -> List.NoDup (map json.name fields) -> recordExtensional fields ->
  (forall f, In f fields -> json.get f zero = @json.zeroValue _ (json.fcodec f)) ->
  (forall f, In f fields -> fieldRoundTrip f v) ->
  exists ms, json.encodeFields fields v = inr ms /\
    json.decodeMembers fields ms zero None = (v, None) /\
    forall key x, In (key, x) ms ->
      exists g, In g fields /\ json.name g = key /\ In x (fieldDocuments g v).
Proof.
  intros Hrecord Hnodup Hext Hzero Hfields.
  pose proof (names_distinct fields Hnodup) as Hdistinct.
  destruct (encodeFields_succeeds fields v) as [ms Henc].
  { intros f Hf. apply (Hfields f Hf). }
  exists ms. split; [exact Henc |]. split.
  - apply injective_projections; cbn [fst snd].
    + apply Hext. intros f Hf.
      rewrite (decodeMembers_get fields ms zero None f Hrecord Hdistinct Hf).
      rewrite (selecting_encodeFields fields v f fields ms Hdistinct (fun g H => H) Henc).
      rewrite Hzero by exact Hf.
      rewrite (flat_map_field (fun g => fieldDocuments g v) fields f Hnodup Hf).
      apply (Hfields f Hf).
    + apply decodeMembers_no_error. intros key x f u Hin Hf.
      destruct (encodeFields_members fields v fields ms key x Henc Hin) as (g & Hg & <- & Hx).
      rewrite (findField_exact fields g Hdistinct Hg) in Hf. injection Hf as <-.
      now apply (Hfields g Hg).
  - intros key x Hin. exact (encodeFields_members fields v fields ms key x Henc Hin).
Qed.
End struct_round_trip.


(** ** The round trip of an [Event] *)

Lemma wellFormedMembers_forall (ms : list (string * json.value)) :
  (forall k x, In (k, x) ms -> utf8.ValidString k = true /\ wellFormed x) ->
  wellFormedMembers ms.
Proof.
  induction ms as [| [k x] ms IH]; intros H; [exact I |].
  cbn [wellFormedMembers fst snd].
  destruct (H k x (or_introl eq_refl)) as [Hk Hx].
  split; [exact Hk |]. split; [exact Hx |].
  apply IH. intros k' x' Hin. apply H. now right.
Qed.

Lemma nestingMembers_le (ms : list (string * json.value)) (n : Z) :
  0 <= n -> (forall k x, In (k, x) ms -> nesting x <= n) -> nestingMembers ms <= n.
Proof.
  intros Hn. induction ms as [| [k x] ms IH]; intros H; [exact Hn |].
  cbn [nestingMembers snd].
  pose proof (H k x (or_introl eq_refl)).
  assert (nestingMembers ms <= n) by (apply IH; intros k' x' Hin; apply (H k'); now right).
  lia.
Qed.

Lemma string_round_trip (s : string) :
  storeAll json.stringCodec
    (if true && @json.isEmptyValue _ json.stringCodec s then []
     else match @json.encode _ json.stringCodec s with inr j => [j] | inl _ => [] end) "" = s /\
  (forall x u,
     In x (if true && @json.isEmptyValue _ json.stringCodec s then []
           else match @json.encode _ json.stringCodec s with inr j => [j] | inl _ => [] end) ->
     snd (@json.decode _ json.stringCodec x u) = None).
Proof.
  destruct s as [| c s]; cbn; split; try reflexivity; intros x u H; [destruct H |].
  destruct H as [<- | []]. reflexivity.
Qed.

Lemma int_round_trip (name : string) (n : Z) :
  int64 n ->
  storeAll (json.intCodec name)
    (if true && @json.isEmptyValue _ (json.intCodec name) n then []
     else match @json.encode _ (json.intCodec name) n with inr j => [j] | inl _ => [] end) 0 = n /\
  (forall x u,
     In x (if true && @json.isEmptyValue _ (json.intCodec name) n then []
           else match @json.encode _ (json.intCodec name) n with inr j => [j] | inl _ => [] end) ->
     snd (@json.decode _ (json.intCodec name) x u) = None).
Proof.
  intros Hn. cbn [andb json.isEmptyValue json.encode json.intCodec].
  destruct (Z.eqb_spec n 0) as [-> | Hne].
  - split; [reflexivity | intros x u []].
  - cbn [storeAll fold_left json.decode json.intCodec].
    rewrite (ParseInt_FormatInt n Hn). split; [reflexivity |].
    intros x u [<- | []]. cbn [json.decode json.intCodec].
    now rewrite (ParseInt_FormatInt n Hn).
Qed.

Section Event_field_round_trips.
Context {W : World}.

Lemma Resource_names_NoDup : List.NoDup (map json.name Resource_fields).
Proof.
  cbn. repeat (apply List.NoDup_cons; [cbn; intuition discriminate |]). apply List.NoDup_nil.
Qed.

Lemma Event_names_NoDup : List.NoDup (map json.name Event_fields).
Proof.
  cbn. repeat (apply List.NoDup_cons; [cbn; intuition discriminate |]). apply List.NoDup_nil.
Qed.

Lemma Resource_field_round_trip (r : Resource) f :
  plainResource r -> In f Resource_fields -> fieldRoundTrip f r.
Proof.
  intros (H1 & H2 & H3 & Ht) Hf. unfold Resource_fields in Hf.
  in_cases Hf; unfold fieldRoundTrip, fieldDocuments;
    cbn [json.omitEmpty json.get json.fcodec json.ftype];
    try (split; [discriminate | apply string_round_trip]).
  rewrite Ht. cbn. split; [discriminate |]. split; [reflexivity | intros x u []].
Qed.

(** The members written for a plain resource. *)
Lemma Resource_round_trip (r : Resource) :
  plainResource r ->
  exists rms, json.encodeFields Resource_fields r = inr rms /\
    json.decodeMembers Resource_fields rms zeroResource None = (r, None) /\
    wellFormedMembers rms /\ nestingMembers rms <= 0.
Proof.
  intros Hr.
  destruct (struct_round_trip Resource_fields zeroResource r Resource_fields_record
              Resource_names_NoDup Resource_fields_extensional)
    as (rms & Henc & Hdec & Hms).
  { intros f Hf. unfold Resource_fields in Hf. in_cases Hf; reflexivity. }
  { intros f Hf. now apply Resource_field_round_trip. }
  exists rms. split; [exact Henc |]. split; [exact Hdec |].
  destruct Hr as (H1 & H2 & H3 & Ht).
  assert (M : forall k x, In (k, x) rms ->
            utf8.ValidString k = true /\ wellFormed x /\ nesting x <= 0).
  { intros k x Hin. destruct (Hms k x Hin) as (g & Hg & <- & Hx).
    unfold Resource_fields in Hg. unfold fieldDocuments in Hx.
    in_cases Hg; cbn [json.omitEmpty json.get json.fcodec json.ftype json.name] in Hx |- *;
      (split; [reflexivity |]).
    4: { rewrite Ht in Hx. destruct Hx. }
    all: cbn [andb json.isEmptyValue json.encode json.stringCodec] in Hx;
      destruct (String.length _ =? 0)%nat; [destruct Hx |];
      destruct Hx as [<- | []]; (split; [assumption | cbn [nesting]; lia]). }
  split.
  - apply wellFormedMembers_forall. intros k x Hin. destruct (M k x Hin) as (? & ? & ?). auto.
  - apply nestingMembers_le; [lia |]. intros k x Hin. now destruct (M k x Hin) as (? & ? & ?).
Qed.

Lemma Event_field_round_trip (e : Event) f :
  plainEvent e -> In f Event_fields -> fieldRoundTrip f e.
Proof.
  intros (H1 & H2 & H3 & H4 & H5 & H6 & H7 & Ht & Hr) Hf. unfold Event_fields in Hf.
  in_cases Hf; unfold fieldRoundTrip, fieldDocuments;
    cbn [json.omitEmpty json.get json.fcodec json.ftype];
    try (split; [discriminate | apply string_round_trip]);
    try (split; [discriminate | now apply int_round_trip]).
  - rewrite Ht. cbn. split; [discriminate |]. split; [reflexivity | intros x u []].
  - destruct (EventResource e) as [r |].
    + destruct (Resource_round_trip r Hr) as (rms & Henc & Hdec & _).
      assert (E : @json.encode _ (json.pointerCodec Resource_codec) (Some r) =
                  inr (json.JObject rms)).
      { cbn [json.encode json.pointerCodec Resource_codec json.structCodec].
        now rewrite Henc. }
      assert (D : forall u, @json.decode _ (json.pointerCodec Resource_codec)
                              (json.JObject rms) u = (Some (fst (json.decodeMembers
                                Resource_fields rms (default zeroResource u) None)),
                              snd (json.decodeMembers Resource_fields rms
                                     (default zeroResource u) None))).
      { intros u.
        cbn [json.decode json.pointerCodec Resource_codec json.structCodec json.zeroValue].
        now destruct (json.decodeMembers Resource_fields rms (default zeroResource u) None). }
      rewrite E. cbn [andb json.isEmptyValue json.pointerCodec].
      split; [discriminate |]. split.
      * rewrite storeAll_cons, D. cbn [fst json.zeroValue json.pointerCodec from_option].
        now rewrite Hdec.
      * intros x u [<- | []]. rewrite D. cbn [snd].
        pose proof (Resource_errorByDocument (json.JObject rms)
                      (default zeroResource u) zeroResource) as R.
        cbn [json.decode Resource_codec json.structCodec] in R.
        rewrite R, Hdec. reflexivity.
    + cbn. split; [discriminate |]. split; [reflexivity | intros x u []].
Qed.
End Event_field_round_trips.

Section Event_round_trip_theorem.
Context {W : World}.

(** The members written for a plain event. *)
Lemma Event_members (e : Event) :
  plainEvent e ->
  exists ms, json.encodeFields Event_fields e = inr ms /\
    json.decodeMembers Event_fields ms zeroEvent None = (e, None) /\
    wellFormedMembers ms /\ nestingMembers ms <= 1.
Proof.
  intros He.
  destruct (struct_round_trip Event_fields zeroEvent e Event_fields_record
              Event_names_NoDup Event_fields_extensional)
    as (ms & Henc & Hdec & Hms).
  { intros f Hf. unfold Event_fields in Hf. in_cases Hf; reflexivity. }
  { intros f Hf. now apply Event_field_round_trip. }
  exists ms. split; [exact Henc |]. split; [exact Hdec |].
  destruct He as (H1 & H2 & H3 & H4 & H5 & H6 & H7 & Ht & Hr).
  assert (M : forall k x, In (k, x) ms ->
            utf8.ValidString k = true /\ wellFormed x /\ nesting x <= 1).
  { intros k x Hin. destruct (Hms k x Hin) as (g & Hg & <- & Hx).
    unfold Event_fields in Hg. unfold fieldDocuments in Hx.
    in_cases Hg; cbn [json.omitEmpty json.get json.fcodec json.ftype json.name] in Hx |- *;
      (split; [reflexivity |]).
    8: { rewrite Ht in Hx. destruct Hx. }
    8: { destruct (EventResource e) as [r |]; [| destruct Hx].
         destruct (Resource_round_trip r Hr) as (rms & Hrenc & _ & Hwf & Hnest).
         cbn [andb json.isEmptyValue json.encode json.pointerCodec Resource_codec
              json.structCodec] in Hx.
         rewrite Hrenc in Hx. destruct Hx as [<- | []].
         split; [exact Hwf |].
         change (nesting (json.JObject rms)) with (1 + nestingMembers rms). lia. }
    2, 7: cbn [andb json.isEmptyValue json.encode json.intCodec] in Hx;
      destruct (_ =? 0); [destruct Hx |];
      destruct Hx as [<- | []];
      (split; [apply FormatInt_intLiteral | cbn [nesting]; lia]).
    all: cbn [andb json.isEmptyValue json.encode json.stringCodec] in Hx;
      destruct (String.length _ =? 0)%nat; [destruct Hx |];
      destruct Hx as [<- | []]; (split; [assumption | cbn [nesting]; lia]). }
  split.
  - apply wellFormedMembers_forall. intros k x Hin. destruct (M k x Hin) as (? & ? & ?). auto.
  - apply nestingMembers_le; [lia |]. intros k x Hin. now destruct (M k x Hin) as (? & ? & ?).
Qed.

(** X19: a plain event (no tags, strings that are valid UTF-8, integers of
    64 bits) makes the round trip: [json.Marshal] gives a text for it, the
    text is valid JSON, and [MergeWithJSON] of this text into the zero
    [Event] gives the event back, without error.  The text is the body of
    the request that [Send] builds for the event. *)
Theorem Event_round_trip (event : Event) :
  plainEvent event ->
  exists text, json.Marshal event = inr text /\
    json.Valid text = true /\
    MergeWithJSON zeroEvent text = (event, None) /\
    forall (ans : ANS) method url body answer,
      In (CallNewRequest method url body answer) (snd (runSend ans event)) -> body = text.
Proof.
  intros He. destruct (Event_members event He) as (ms & Henc & Hdec & Hwf & Hnest).
  assert (Hm : json.Marshal event = inr (json.render (json.JObject ms))).
  { unfold json.Marshal. cbn [json.encode Event_codec json.structCodec]. now rewrite Henc. }
  assert (Hp : json.parse (json.render (json.JObject ms)) = Some (json.JObject ms)).
  { apply parse_render; [exact Hwf |].
    change (nesting (json.JObject ms)) with (1 + nestingMembers ms).
    unfold json.maxNestingDepth. lia. }
  exists (json.render (json.JObject ms)). split; [exact Hm |].
  split; [unfold json.Valid; now rewrite Hp |].
  split.
  - unfold MergeWithJSON, json.Unmarshal. rewrite Hp.
    cbn [json.decode json.pointerCodec Event_codec json.structCodec from_option id].
    now rewrite Hdec.
  - intros ans method url body answer Hin.
    destruct (runSend_cases ans event); cbn [In] in Hin;
      repeat match goal with
             | H : _ \/ _ |- _ => destruct H
             | H : False |- _ => destruct H
             | H : @eq Call _ _ |- _ => first [discriminate H | injection H as ? ? ? ?; subst]
             end; congruence.
Qed.
End Event_round_trip_theorem.

(** An event with a resource and with characters that are escaped. *)
Lemma Event_round_trip_witness :
  plainEvent (deployEvent acceptingWorld) /\
  exists text, json.Marshal (deployEvent acceptingWorld) = inr text /\
    json.Valid text = true /\
    MergeWithJSON zeroEvent text = (deployEvent acceptingWorld, None).
Proof.
  assert (H : plainEvent (deployEvent acceptingWorld)).
  { unfold plainEvent, int64. cbn [deployEvent EventType EventTimestamp Severity Category
      Subject Body Priority Tags EventResource].
    repeat split; try reflexivity; lia. }
  split; [exact H |].
  destruct (@Event_round_trip acceptingWorld _ H) as (text & Hm & Hv & Hr & _).
  exists text. repeat split; assumption.
Defined.
